(** * MimiC: kernel arena, scheduler, loader, FAT32 close path and compiler back end

    A shallow embedding of the C sources under [Test-01/] (mimic.h,
    mimic_kernel.c, mimic_fat32.c, mimic_codegen.c, mimic_linker.c).

    Conventions.  C unsigned integers are values of [Z] with the wrap-around of
    every arithmetic operation written out ([Word.u32] and friends); pointers
    are 32-bit addresses in [Z] with [NULL = 0]; a C array used with a live
    element count (the block tables) is the list of its live elements; a C
    array of fixed size (the task table, the file table, the sector buffer) is
    a list of that length updated by index.  *)

From Stdlib Require Import ZArith Lia Bool List.
From stdpp Require Import base list gmap strings.

Local Open Scope Z_scope.

(** ** Machine integers *)

Module Word.
Definition u8 (x : Z) : Z := x mod 2 ^ 8.
Definition u16 (x : Z) : Z := x mod 2 ^ 16.
Definition u32 (x : Z) : Z := x mod 2 ^ 32.
Definition u64 (x : Z) : Z := x mod 2 ^ 64.

(** Conversion of a 32-bit pattern to [int32_t] / [int]. *)
Definition s32 (x : Z) : Z :=
  let y := u32 x in if y <? 2 ^ 31 then y else y - 2 ^ 32.


(** [~x] on a [uint32_t]. *)
Definition not32 (x : Z) : Z := u32 (Z.lnot x).
End Word.
Import Word.

(** ** mimic.h: platform constants *)

Inductive Target := RP2040 | RP2350.

Definition MIMIC_KERNEL_HEAP (t : Target) : Z :=
  match t with RP2350 => 80 * 1024 | RP2040 => 50 * 1024 end.
Definition MIMIC_USER_HEAP (t : Target) : Z :=
  match t with RP2350 => 380 * 1024 | RP2040 => 180 * 1024 end.
Definition MIMIC_MAX_TASKS (t : Target) : Z :=
  match t with RP2350 => 16 | RP2040 => 8 end.
Definition MIMIC_MAX_MEM_BLOCKS (t : Target) : Z :=
  match t with RP2350 => 128 | RP2040 => 64 end.

Definition MIMIC_MEM_ALIGN : Z := 32.
Definition MIMIC_MIN_BLOCK_SPLIT : Z := 64.

Definition NULL : Z := 0.

(** Error codes. *)
Definition MIMIC_OK : Z := 0.
Definition MIMIC_ERR_NOMEM : Z := -1.
Definition MIMIC_ERR_INVAL : Z := -2.
Definition MIMIC_ERR_NOENT : Z := -3.
Definition MIMIC_ERR_IO : Z := -4.
Definition MIMIC_ERR_BUSY : Z := -5.
Definition MIMIC_ERR_PERM : Z := -6.
Definition MIMIC_ERR_NOSYS : Z := -7.
Definition MIMIC_ERR_CORRUPT : Z := -8.
Definition MIMIC_ERR_TOOLARGE : Z := -9.
Definition MIMIC_ERR_NOEXEC : Z := -10.

(** ** mimic.h: the .mimi binary format *)

Definition MIMI_MAGIC : Z := 0x494D494D.
Definition MIMI_VERSION : Z := 1.

Definition MIMI_ARCH_CORTEX_M0P : Z := 0.
Definition MIMI_ARCH_CORTEX_M33 : Z := 1.
Definition MIMI_ARCH_RISCV : Z := 2.

Definition MIMI_SECT_NULL : Z := 0.
Definition MIMI_SECT_TEXT : Z := 1.
Definition MIMI_SECT_RODATA : Z := 2.
Definition MIMI_SECT_DATA : Z := 3.
Definition MIMI_SECT_BSS : Z := 4.

Record MimiHeader := mkHeader {
  magic : Z;
  version : Z;
  flags : Z;
  arch : Z;
  entry_offset : Z;
  text_size : Z;
  rodata_size : Z;
  data_size : Z;
  bss_size : Z;
  reloc_count : Z;
  symbol_count : Z;
  stack_request : Z;
  heap_request : Z;
  name : list Z              (* char name[16] *)
}.

Definition MIMI_RELOC_ABS32 : Z := 0.
Definition MIMI_RELOC_REL32 : Z := 1.
Definition MIMI_RELOC_THUMB_CALL : Z := 2.
Definition MIMI_RELOC_THUMB_BRANCH : Z := 3.
Definition MIMI_RELOC_DATA_PTR : Z := 4.

Record MimiReloc := mkReloc {
  r_offset : Z;
  r_section : Z;
  r_type : Z;
  r_symbol_idx : Z
}.

Definition MIMI_SYM_LOCAL : Z := 0.
Definition MIMI_SYM_GLOBAL : Z := 1.
Definition MIMI_SYM_EXTERN : Z := 2.
Definition MIMI_SYM_SYSCALL : Z := 3.

Record MimiSymbol := mkSymbol {
  s_name : list Z;            (* char name[16] *)
  s_value : Z;
  s_section : Z;
  s_type : Z
}.

(** ** mimic.h: task control block and memory-block tracking *)

Inductive MimicTaskState :=
| TASK_STATE_FREE
| TASK_STATE_READY
| TASK_STATE_RUNNING
| TASK_STATE_BLOCKED
| TASK_STATE_SLEEPING
| TASK_STATE_ZOMBIE.

Definition MimicTaskState_eqb (a b : MimicTaskState) : bool :=
  match a, b with
  | TASK_STATE_FREE, TASK_STATE_FREE
  | TASK_STATE_READY, TASK_STATE_READY
  | TASK_STATE_RUNNING, TASK_STATE_RUNNING
  | TASK_STATE_BLOCKED, TASK_STATE_BLOCKED
  | TASK_STATE_SLEEPING, TASK_STATE_SLEEPING
  | TASK_STATE_ZOMBIE, TASK_STATE_ZOMBIE => true
  | _, _ => false
  end.

Record MimicTaskMem := mkTaskMem {
  mem_base : Z;
  mem_total_size : Z;
  mem_text_start : Z;
  mem_text_size : Z;
  mem_rodata_start : Z;
  mem_rodata_size : Z;
  mem_data_start : Z;
  mem_data_size : Z;
  mem_bss_start : Z;
  mem_bss_size : Z;
  mem_heap_start : Z;
  mem_heap_size : Z;
  mem_heap_used : Z;
  mem_stack_top : Z;
  mem_stack_size : Z
}.

Record MimicTCB := mkTCB {
  tcb_id : Z;
  tcb_name : list Z;
  tcb_state : MimicTaskState;
  tcb_priority : Z;
  tcb_entry : Z;
  tcb_mem : MimicTaskMem;
  tcb_wake_time : Z;
  tcb_start_time : Z;
  tcb_sp : Z
}.

Record MimicMemBlock := mkBlock {
  blk_addr : Z;
  blk_size : Z;
  blk_task_id : Z;            (* 0 = kernel, >0 = user *)
  blk_free : bool;
  blk_pinned : bool
}.

(** ** mimic_kernel.c: kernel state

    [mem_blocks] and [user_blocks] hold the first [mem_block_count] and
    [user_block_count] elements of the C arrays; the counts are the lengths. *)

Record MimicKernel := mkKernel {
  mem_blocks : list MimicMemBlock;
  user_blocks : list MimicMemBlock;
  tasks : list MimicTCB;
  task_count : Z;
  current_task : Z;
  tick_count : Z;
  last_schedule_us : Z;
  running : bool;
  preempt_pending : bool;
  boot_time_us : Z;
  total_allocs : Z;
  total_frees : Z;
  failed_allocs : Z;
  programs_loaded : Z;
  syscalls_handled : Z;
  context_switches : Z;
  kernel_free : Z;
  user_free : Z;
  fs_mounted : bool
}.

Definition mem_block_count (k : MimicKernel) : Z := Z.of_nat (length (mem_blocks k)).
Definition user_block_count (k : MimicKernel) : Z := Z.of_nat (length (user_blocks k)).

(** Field assignments [kernel.f = v]. *)
Definition set_mem_blocks v k := mkKernel v (user_blocks k) (tasks k) (task_count k) (current_task k) (tick_count k) (last_schedule_us k) (running k) (preempt_pending k) (boot_time_us k) (total_allocs k) (total_frees k) (failed_allocs k) (programs_loaded k) (syscalls_handled k) (context_switches k) (kernel_free k) (user_free k) (fs_mounted k).
Definition set_user_blocks v k := mkKernel (mem_blocks k) v (tasks k) (task_count k) (current_task k) (tick_count k) (last_schedule_us k) (running k) (preempt_pending k) (boot_time_us k) (total_allocs k) (total_frees k) (failed_allocs k) (programs_loaded k) (syscalls_handled k) (context_switches k) (kernel_free k) (user_free k) (fs_mounted k).
Definition set_tasks v k := mkKernel (mem_blocks k) (user_blocks k) v (task_count k) (current_task k) (tick_count k) (last_schedule_us k) (running k) (preempt_pending k) (boot_time_us k) (total_allocs k) (total_frees k) (failed_allocs k) (programs_loaded k) (syscalls_handled k) (context_switches k) (kernel_free k) (user_free k) (fs_mounted k).
Definition set_task_count v k := mkKernel (mem_blocks k) (user_blocks k) (tasks k) v (current_task k) (tick_count k) (last_schedule_us k) (running k) (preempt_pending k) (boot_time_us k) (total_allocs k) (total_frees k) (failed_allocs k) (programs_loaded k) (syscalls_handled k) (context_switches k) (kernel_free k) (user_free k) (fs_mounted k).
Definition set_current_task v k := mkKernel (mem_blocks k) (user_blocks k) (tasks k) (task_count k) v (tick_count k) (last_schedule_us k) (running k) (preempt_pending k) (boot_time_us k) (total_allocs k) (total_frees k) (failed_allocs k) (programs_loaded k) (syscalls_handled k) (context_switches k) (kernel_free k) (user_free k) (fs_mounted k).
Definition set_tick_count v k := mkKernel (mem_blocks k) (user_blocks k) (tasks k) (task_count k) (current_task k) v (last_schedule_us k) (running k) (preempt_pending k) (boot_time_us k) (total_allocs k) (total_frees k) (failed_allocs k) (programs_loaded k) (syscalls_handled k) (context_switches k) (kernel_free k) (user_free k) (fs_mounted k).
Definition set_last_schedule_us v k := mkKernel (mem_blocks k) (user_blocks k) (tasks k) (task_count k) (current_task k) (tick_count k) v (running k) (preempt_pending k) (boot_time_us k) (total_allocs k) (total_frees k) (failed_allocs k) (programs_loaded k) (syscalls_handled k) (context_switches k) (kernel_free k) (user_free k) (fs_mounted k).
Definition set_running v k := mkKernel (mem_blocks k) (user_blocks k) (tasks k) (task_count k) (current_task k) (tick_count k) (last_schedule_us k) v (preempt_pending k) (boot_time_us k) (total_allocs k) (total_frees k) (failed_allocs k) (programs_loaded k) (syscalls_handled k) (context_switches k) (kernel_free k) (user_free k) (fs_mounted k).
Definition set_preempt_pending v k := mkKernel (mem_blocks k) (user_blocks k) (tasks k) (task_count k) (current_task k) (tick_count k) (last_schedule_us k) (running k) v (boot_time_us k) (total_allocs k) (total_frees k) (failed_allocs k) (programs_loaded k) (syscalls_handled k) (context_switches k) (kernel_free k) (user_free k) (fs_mounted k).
Definition set_boot_time_us v k := mkKernel (mem_blocks k) (user_blocks k) (tasks k) (task_count k) (current_task k) (tick_count k) (last_schedule_us k) (running k) (preempt_pending k) v (total_allocs k) (total_frees k) (failed_allocs k) (programs_loaded k) (syscalls_handled k) (context_switches k) (kernel_free k) (user_free k) (fs_mounted k).
Definition set_total_allocs v k := mkKernel (mem_blocks k) (user_blocks k) (tasks k) (task_count k) (current_task k) (tick_count k) (last_schedule_us k) (running k) (preempt_pending k) (boot_time_us k) v (total_frees k) (failed_allocs k) (programs_loaded k) (syscalls_handled k) (context_switches k) (kernel_free k) (user_free k) (fs_mounted k).
Definition set_total_frees v k := mkKernel (mem_blocks k) (user_blocks k) (tasks k) (task_count k) (current_task k) (tick_count k) (last_schedule_us k) (running k) (preempt_pending k) (boot_time_us k) (total_allocs k) v (failed_allocs k) (programs_loaded k) (syscalls_handled k) (context_switches k) (kernel_free k) (user_free k) (fs_mounted k).
Definition set_failed_allocs v k := mkKernel (mem_blocks k) (user_blocks k) (tasks k) (task_count k) (current_task k) (tick_count k) (last_schedule_us k) (running k) (preempt_pending k) (boot_time_us k) (total_allocs k) (total_frees k) v (programs_loaded k) (syscalls_handled k) (context_switches k) (kernel_free k) (user_free k) (fs_mounted k).
Definition set_programs_loaded v k := mkKernel (mem_blocks k) (user_blocks k) (tasks k) (task_count k) (current_task k) (tick_count k) (last_schedule_us k) (running k) (preempt_pending k) (boot_time_us k) (total_allocs k) (total_frees k) (failed_allocs k) v (syscalls_handled k) (context_switches k) (kernel_free k) (user_free k) (fs_mounted k).
Definition set_syscalls_handled v k := mkKernel (mem_blocks k) (user_blocks k) (tasks k) (task_count k) (current_task k) (tick_count k) (last_schedule_us k) (running k) (preempt_pending k) (boot_time_us k) (total_allocs k) (total_frees k) (failed_allocs k) (programs_loaded k) v (context_switches k) (kernel_free k) (user_free k) (fs_mounted k).
Definition set_context_switches v k := mkKernel (mem_blocks k) (user_blocks k) (tasks k) (task_count k) (current_task k) (tick_count k) (last_schedule_us k) (running k) (preempt_pending k) (boot_time_us k) (total_allocs k) (total_frees k) (failed_allocs k) (programs_loaded k) (syscalls_handled k) v (kernel_free k) (user_free k) (fs_mounted k).
Definition set_kernel_free v k := mkKernel (mem_blocks k) (user_blocks k) (tasks k) (task_count k) (current_task k) (tick_count k) (last_schedule_us k) (running k) (preempt_pending k) (boot_time_us k) (total_allocs k) (total_frees k) (failed_allocs k) (programs_loaded k) (syscalls_handled k) (context_switches k) v (user_free k) (fs_mounted k).
Definition set_user_free v k := mkKernel (mem_blocks k) (user_blocks k) (tasks k) (task_count k) (current_task k) (tick_count k) (last_schedule_us k) (running k) (preempt_pending k) (boot_time_us k) (total_allocs k) (total_frees k) (failed_allocs k) (programs_loaded k) (syscalls_handled k) (context_switches k) (kernel_free k) v (fs_mounted k).
Definition set_fs_mounted v k := mkKernel (mem_blocks k) (user_blocks k) (tasks k) (task_count k) (current_task k) (tick_count k) (last_schedule_us k) (running k) (preempt_pending k) (boot_time_us k) (total_allocs k) (total_frees k) (failed_allocs k) (programs_loaded k) (syscalls_handled k) (context_switches k) (kernel_free k) (user_free k) v.

(** The two pools share their code; the pointer arguments
    [blocks, block_count, free_bytes] of the C functions select one of them. *)
Inductive PoolId := KernelPool | UserPool.

Definition pool_blocks (p : PoolId) (k : MimicKernel) : list MimicMemBlock :=
  match p with KernelPool => mem_blocks k | UserPool => user_blocks k end.
Definition pool_free_bytes (p : PoolId) (k : MimicKernel) : Z :=
  match p with KernelPool => kernel_free k | UserPool => user_free k end.
Definition set_pool_blocks (p : PoolId) (v : list MimicMemBlock) (k : MimicKernel) : MimicKernel :=
  match p with KernelPool => set_mem_blocks v k | UserPool => set_user_blocks v k end.
Definition set_pool_free_bytes (p : PoolId) (v : Z) (k : MimicKernel) : MimicKernel :=
  match p with KernelPool => set_kernel_free v k | UserPool => set_user_free v k end.

(** ** mimic_kernel.c: memory management *)

Module Arena.

Definition set_blk_size (v : Z) (b : MimicMemBlock) : MimicMemBlock :=
  mkBlock (blk_addr b) v (blk_task_id b) (blk_free b) (blk_pinned b).
Definition set_blk_task_id (v : Z) (b : MimicMemBlock) : MimicMemBlock :=
  mkBlock (blk_addr b) (blk_size b) v (blk_free b) (blk_pinned b).
Definition set_blk_free (v : bool) (b : MimicMemBlock) : MimicMemBlock :=
  mkBlock (blk_addr b) (blk_size b) (blk_task_id b) v (blk_pinned b).

(** [mem_init]: one free block per pool, covering the whole heap.  The two
    static arrays [kernel_heap] and [user_heap] are given by their addresses. *)
Definition mem_init (t : Target) (kernel_heap user_heap : Z) (k : MimicKernel) : MimicKernel :=
  let k := set_mem_blocks [mkBlock kernel_heap (MIMIC_KERNEL_HEAP t) 0 true false] k in
  let k := set_kernel_free (MIMIC_KERNEL_HEAP t) k in
  let k := set_user_blocks [mkBlock user_heap (MIMIC_USER_HEAP t) 0 true false] k in
  set_user_free (MIMIC_USER_HEAP t) k.

(** [size = (size + MIMIC_MEM_ALIGN - 1) & ~(MIMIC_MEM_ALIGN - 1)] on a
    32-bit [size_t]. *)
Definition align_size (size : Z) : Z :=
  Z.land (u32 (size + MIMIC_MEM_ALIGN - 1)) (not32 (MIMIC_MEM_ALIGN - 1)).

(** The best-fit loop.  [best = (best_idx, best_size)]; the loop starts at
    index [i] over the remaining blocks and leaves on an exact match. *)
Fixpoint best_fit_search (blocks : list MimicMemBlock) (i size : Z) (best : Z * Z) : Z * Z :=
  match blocks with
  | [] => best
  | b :: rest =>
    if blk_free b && (size <=? blk_size b) then
      if blk_size b <? snd best then
        if blk_size b =? size then (i, blk_size b)
        else best_fit_search rest (i + 1) size (i, blk_size b)
      else best_fit_search rest (i + 1) size best
    else best_fit_search rest (i + 1) size best
  end.

Definition mem_alloc_from_pool (p : PoolId) (size task_id max_blocks : Z)
    (k : MimicKernel) : Z * MimicKernel :=
  if size =? 0 then (NULL, k) else
  let size := align_size size in
  let blocks := pool_blocks p k in
  let '(best_idx, _) := best_fit_search blocks 0 size (0xFFFFFFFF, 0xFFFFFFFF) in
  if negb (best_idx =? 0xFFFFFFFF) then
    match blocks !! Z.to_nat best_idx with
    | Some block =>
      let split := (u32 (size + MIMIC_MIN_BLOCK_SPLIT) <? blk_size block)
                   && (Z.of_nat (length blocks) <? max_blocks) in
      let blocks :=
        if split
        then blocks ++ [mkBlock (u32 (blk_addr block + size))
                                (u32 (blk_size block - size)) 0 true false]
        else blocks in
      let block := if split then set_blk_size size block else block in
      let block := set_blk_task_id task_id (set_blk_free false block) in
      let k := set_pool_blocks p (<[Z.to_nat best_idx := block]> blocks) k in
      let k := set_pool_free_bytes p (u32 (pool_free_bytes p k - blk_size block)) k in
      let k := set_total_allocs (u32 (total_allocs k + 1)) k in
      (blk_addr block, k)
    | None => (NULL, k)
    end
  else (NULL, set_failed_allocs (u32 (failed_allocs k + 1)) k).

(** The loop of [mem_free_in_pool]: [Some (blocks', size)] when a block was
    marked free, [None] when the loop ends or returns without a change. *)
Fixpoint free_search (blocks : list MimicMemBlock) (ptr : Z) : option (list MimicMemBlock * Z) :=
  match blocks with
  | [] => None
  | b :: rest =>
    if (blk_addr b =? ptr) && negb (blk_free b) then
      if blk_pinned b then None
      else Some (set_blk_free true b :: rest, blk_size b)
    else
      match free_search rest ptr with
      | Some (rest', sz) => Some (b :: rest', sz)
      | None => None
      end
  end.

Definition mem_free_in_pool (p : PoolId) (ptr : Z) (k : MimicKernel) : MimicKernel :=
  if ptr =? NULL then k else
  match free_search (pool_blocks p k) ptr with
  | Some (blocks, sz) =>
    let k := set_pool_blocks p blocks k in
    let k := set_pool_free_bytes p (u32 (pool_free_bytes p k + sz)) k in
    set_total_frees (u32 (total_frees k + 1)) k
  | None => k
  end.

(** Bubble sort by address, as the two nested loops of [mem_coalesce_pool]. *)
Definition sort_step (blocks : list MimicMemBlock) (j : nat) : list MimicMemBlock :=
  match blocks !! j, blocks !! S j with
  | Some a, Some b =>
    if blk_addr b <? blk_addr a then <[S j := a]> (<[j := b]> blocks) else blocks
  | _, _ => blocks
  end.

Fixpoint sort_inner (n j : nat) (blocks : list MimicMemBlock) : list MimicMemBlock :=
  match n with
  | O => blocks
  | S n' => sort_inner n' (S j) (sort_step blocks j)
  end.

Fixpoint sort_outer (n i : nat) (count : Z) (blocks : list MimicMemBlock) : list MimicMemBlock :=
  match n with
  | O => blocks
  | S n' =>
    sort_outer n' (S i) count
      (sort_inner (Z.to_nat (u32 (count - Z.of_nat i - 1))) 0 blocks)
  end.

(** The merge loop: [n] iterations left, read index [i], write index
    [write_idx], in place. *)
Fixpoint merge_loop (n i write_idx : nat) (blocks : list MimicMemBlock)
    : nat * list MimicMemBlock :=
  match n with
  | O => (write_idx, blocks)
  | S n' =>
    match blocks !! i with
    | None => (write_idx, blocks)
    | Some bi =>
      let prev := if (0 <? i)%nat then blocks !! (write_idx - 1)%nat else None in
      match prev with
      | Some bp =>
        if blk_free bp && blk_free bi
           && (u32 (blk_addr bp + blk_size bp) =? blk_addr bi)
        then merge_loop n' (S i) write_idx
               (<[(write_idx - 1)%nat := set_blk_size (u32 (blk_size bp + blk_size bi)) bp]> blocks)
        else merge_loop n' (S i) (S write_idx)
               (if (write_idx =? i)%nat then blocks else <[write_idx := bi]> blocks)
      | None =>
        merge_loop n' (S i) (S write_idx)
          (if (write_idx =? i)%nat then blocks else <[write_idx := bi]> blocks)
      end
    end
  end.

Definition mem_coalesce_pool (p : PoolId) (k : MimicKernel) : MimicKernel :=
  let blocks := pool_blocks p k in
  let count := Z.of_nat (length blocks) in
  let blocks := sort_outer (Z.to_nat (u32 (count - 1))) 0 count blocks in
  let '(write_idx, blocks) := merge_loop (length blocks) 0 0 blocks in
  set_pool_blocks p (take write_idx blocks) k.

Definition mimic_kmalloc (t : Target) (size : Z) (k : MimicKernel) : Z * MimicKernel :=
  mem_alloc_from_pool KernelPool size 0 (MIMIC_MAX_MEM_BLOCKS t) k.

Definition mimic_kfree (ptr : Z) (k : MimicKernel) : MimicKernel :=
  mem_free_in_pool KernelPool ptr k.

Definition mimic_umalloc (t : Target) (task_id size : Z) (k : MimicKernel) : Z * MimicKernel :=
  mem_alloc_from_pool UserPool size task_id (MIMIC_MAX_MEM_BLOCKS t) k.

(** The ownership check of [mimic_ufree]. *)
Definition owns (blocks : list MimicMemBlock) (task_id ptr : Z) : bool :=
  existsb (fun b => (blk_addr b =? ptr) && (blk_task_id b =? task_id)) blocks.

Definition mimic_ufree (task_id ptr : Z) (k : MimicKernel) : MimicKernel :=
  let valid := owns (user_blocks k) task_id ptr in
  if valid then mem_free_in_pool UserPool ptr k else k.

(** The loop of [mimic_task_free_all_memory], threading [user_free] and
    [total_frees]. *)
Fixpoint free_all_loop (blocks : list MimicMemBlock) (task_id : Z) (acc : Z * Z)
    : list MimicMemBlock * (Z * Z) :=
  match blocks with
  | [] => ([], acc)
  | b :: rest =>
    if (blk_task_id b =? task_id) && negb (blk_free b) then
      let '(rest', acc') :=
        free_all_loop rest task_id (u32 (fst acc + blk_size b), u32 (snd acc + 1)) in
      (set_blk_free true b :: rest', acc')
    else
      let '(rest', acc') := free_all_loop rest task_id acc in
      (b :: rest', acc')
  end.

Definition mimic_task_free_all_memory (task_id : Z) (k : MimicKernel) : MimicKernel :=
  let '(blocks, (ufree, frees)) :=
    free_all_loop (user_blocks k) task_id (user_free k, total_frees k) in
  let k := set_user_blocks blocks k in
  let k := set_user_free ufree k in
  let k := set_total_frees frees k in
  mem_coalesce_pool UserPool k.

End Arena.

(** ** Measures on a block table, used to state the arena properties *)

Fixpoint sum_with (f : MimicMemBlock -> Z) (bs : list MimicMemBlock) : Z :=
  match bs with
  | [] => 0
  | b :: rest => f b + sum_with f rest
  end.

Definition free_weight (b : MimicMemBlock) : Z := if blk_free b then blk_size b else 0.
Definition used_weight (b : MimicMemBlock) : Z := if blk_free b then 0 else blk_size b.

(** Sum of the sizes of all blocks, and of the free blocks only. *)
Definition sum_sizes : list MimicMemBlock -> Z := sum_with blk_size.
Definition free_block_bytes : list MimicMemBlock -> Z := sum_with free_weight.

Definition nonneg_sizes (l : list MimicMemBlock) : Prop := Forall (fun b => 0 <= blk_size b) l.
Definition all_free (l : list MimicMemBlock) : Prop := Forall (fun b => blk_free b = true) l.

(** Every block in use carries the owner tag [t]: no other task holds memory. *)
Definition owned_by (t : Z) (l : list MimicMemBlock) : Prop :=
  Forall (fun b => blk_free b = false -> blk_task_id b = t) l.

(** A block the best-fit search may pick for a request of [size] bytes. *)
Definition fits (size : Z) (b : MimicMemBlock) : Prop :=
  blk_free b = true /\ size <= blk_size b.

(** A pool of capacity [cap] whose table holds at most [max] blocks, with
    [fb] the free-byte counter and [t] the only task holding memory. *)
Record pool_inv (cap max t : Z) (bs : list MimicMemBlock) (fb : Z) : Prop := {
  pi_sum : sum_with blk_size bs = cap;
  pi_nonneg : nonneg_sizes bs;
  pi_len : Z.of_nat (length bs) <= max;
  pi_owner : owned_by t bs;
  pi_free : fb = sum_with free_weight bs
}.

(** What a successful [mem_alloc_from_pool] leaves behind when the search
    picked block [b] at index [n] for the rounded request [asz]: with
    [split], [b] is cut to [asz] bytes and its tail appended as a free block
    owned by nobody; in both cases [b] is marked in use and stamped. *)
Definition alloc_result (p : PoolId) (k : MimicKernel) (n : nat) (b : MimicMemBlock)
    (asz task_id : Z) (split : bool) : Z * MimicKernel :=
  let bs := pool_blocks p k in
  let taken := if split then asz else blk_size b in
  let bs1 :=
    if split
    then bs ++ [mkBlock (u32 (blk_addr b + asz)) (u32 (blk_size b - asz)) 0 true false]
    else bs in
  let k1 := set_pool_blocks p (<[n := mkBlock (blk_addr b) taken task_id false (blk_pinned b)]> bs1) k in
  let k2 := set_pool_free_bytes p (u32 (pool_free_bytes p k - taken)) k1 in
  (blk_addr b, set_total_allocs (u32 (total_allocs k + 1)) k2).

(** The split test as the specification words it: the chosen block exceeds
    the request by at least the split threshold and the table is not full. *)
Definition spec_split_condition (chosen_size request count max_blocks : Z) : bool :=
  (MIMIC_MIN_BLOCK_SPLIT <=? chosen_size - request) && (count <? max_blocks).

(** The contract of [mem_alloc_from_pool] for a non-zero request [size]:
    with [asz] the rounded request, either no free block holds [asz] bytes,
    the call returns [NULL] and counts a failed allocation, or the call picks
    the first free block of least size among those holding [asz] bytes, splits
    it exactly when it is more than [MIMIC_MIN_BLOCK_SPLIT] bytes larger than
    [asz] and the table has room, and returns its address. *)
Definition alloc_contract (p : PoolId) (k : MimicKernel) (size task_id max_blocks : Z) : Prop :=
  let asz := Arena.align_size size in
  let bs := pool_blocks p k in
  ((forall b, b ∈ bs -> ~ fits asz b)
   /\ Arena.mem_alloc_from_pool p size task_id max_blocks k
      = (NULL, set_failed_allocs (u32 (failed_allocs k + 1)) k))
  \/ (exists n b,
       bs !! n = Some b /\ fits asz b
       /\ (forall m b', bs !! m = Some b' -> fits asz b' ->
             blk_size b <= blk_size b' /\ ((m < n)%nat -> blk_size b < blk_size b'))
       /\ Arena.mem_alloc_from_pool p size task_id max_blocks k
          = alloc_result p k n b asz task_id
              ((asz + MIMIC_MIN_BLOCK_SPLIT <? blk_size b)
               && (Z.of_nat (length bs) <? max_blocks))).

(** Operations a task issues against the user arena. *)
Inductive ArenaOp :=
| OpAlloc (size : Z)
| OpFree (ptr : Z).

Definition run_op (t : Target) (task_id : Z) (op : ArenaOp) (k : MimicKernel) : MimicKernel :=
  match op with
  | OpAlloc size => snd (Arena.mimic_umalloc t task_id size k)
  | OpFree ptr => Arena.mimic_ufree task_id ptr k
  end.

Definition run_ops (t : Target) (task_id : Z) (ops : list ArenaOp) (k : MimicKernel) : MimicKernel :=
  foldl (fun k op => run_op t task_id op k) k ops.

(** The kernel structure as the C runtime zero-initialises it. *)
Definition kernel_zero : MimicKernel :=
  mkKernel [] [] [] 0 0 0 0 false false 0 0 0 0 0 0 0 0 0 false.

(** The invariant of the kernel pool, whose blocks in use carry the tag 0. *)
Definition kernel_pool_inv (t : Target) (k : MimicKernel) : Prop :=
  pool_inv (MIMIC_KERNEL_HEAP t) (MIMIC_MAX_MEM_BLOCKS t) 0 (mem_blocks k) (kernel_free k).

(** ** mimic_kernel.c: task management and scheduler *)

Module Sched.

Definition set_tcb_id v (t : MimicTCB) := mkTCB v (tcb_name t) (tcb_state t) (tcb_priority t) (tcb_entry t) (tcb_mem t) (tcb_wake_time t) (tcb_start_time t) (tcb_sp t).
Definition set_tcb_name v (t : MimicTCB) := mkTCB (tcb_id t) v (tcb_state t) (tcb_priority t) (tcb_entry t) (tcb_mem t) (tcb_wake_time t) (tcb_start_time t) (tcb_sp t).
Definition set_tcb_state v (t : MimicTCB) := mkTCB (tcb_id t) (tcb_name t) v (tcb_priority t) (tcb_entry t) (tcb_mem t) (tcb_wake_time t) (tcb_start_time t) (tcb_sp t).
Definition set_tcb_priority v (t : MimicTCB) := mkTCB (tcb_id t) (tcb_name t) (tcb_state t) v (tcb_entry t) (tcb_mem t) (tcb_wake_time t) (tcb_start_time t) (tcb_sp t).
Definition set_tcb_entry v (t : MimicTCB) := mkTCB (tcb_id t) (tcb_name t) (tcb_state t) (tcb_priority t) v (tcb_mem t) (tcb_wake_time t) (tcb_start_time t) (tcb_sp t).
Definition set_tcb_mem v (t : MimicTCB) := mkTCB (tcb_id t) (tcb_name t) (tcb_state t) (tcb_priority t) (tcb_entry t) v (tcb_wake_time t) (tcb_start_time t) (tcb_sp t).
Definition set_tcb_wake_time v (t : MimicTCB) := mkTCB (tcb_id t) (tcb_name t) (tcb_state t) (tcb_priority t) (tcb_entry t) (tcb_mem t) v (tcb_start_time t) (tcb_sp t).
Definition set_tcb_start_time v (t : MimicTCB) := mkTCB (tcb_id t) (tcb_name t) (tcb_state t) (tcb_priority t) (tcb_entry t) (tcb_mem t) (tcb_wake_time t) v (tcb_sp t).
Definition set_tcb_sp v (t : MimicTCB) := mkTCB (tcb_id t) (tcb_name t) (tcb_state t) (tcb_priority t) (tcb_entry t) (tcb_mem t) (tcb_wake_time t) (tcb_start_time t) v.

Definition taskmem_zero : MimicTaskMem := mkTaskMem 0 0 0 0 0 0 0 0 0 0 0 0 0 0 0.
Definition tcb_zero : MimicTCB :=
  mkTCB 0 (replicate 16 0) TASK_STATE_FREE 0 NULL taskmem_zero 0 0 0.

(** "kernel", NUL-padded by [strncpy] to the 16 bytes of [name]. *)
Definition kernel_name : list Z := [107; 101; 114; 110; 101; 108] ++ replicate 10 0.

(** [tasks[i].f = v] through a field assignment [upd]. *)
Definition update_task (i : nat) (upd : MimicTCB -> MimicTCB) (ts : list MimicTCB) : list MimicTCB :=
  match ts !! i with
  | Some t => <[i := upd t]> ts
  | None => ts
  end.

Definition task_init (t : Target) (k : MimicKernel) : MimicKernel :=
  let ts := replicate (Z.to_nat (MIMIC_MAX_TASKS t)) tcb_zero in
  let idle := set_tcb_priority 255
                (set_tcb_state TASK_STATE_READY
                   (set_tcb_name kernel_name (set_tcb_id 0 tcb_zero))) in
  let k := set_tasks (<[0%nat := idle]> ts) k in
  let k := set_current_task 0 k in
  set_task_count 1 k.

(** The slot search of [task_alloc], from slot [i], [n] slots left. *)
Fixpoint task_alloc_loop (n i : nat) (ts : list MimicTCB) : option nat :=
  match n with
  | O => None
  | S n' =>
    match ts !! i with
    | Some t =>
      if MimicTaskState_eqb (tcb_state t) TASK_STATE_FREE then Some i
      else task_alloc_loop n' (S i) ts
    | None => None
    end
  end.

(** [task_alloc]: the slot claimed, if any, and the kernel afterwards. *)
Definition task_alloc (t : Target) (k : MimicKernel) : option nat * MimicKernel :=
  match task_alloc_loop (Z.to_nat (MIMIC_MAX_TASKS t) - 1) 1 (tasks k) with
  | Some i =>
    let ts := update_task i (fun tk => set_tcb_state TASK_STATE_BLOCKED
                                         (set_tcb_id (Z.of_nat i) tk)) (tasks k) in
    (Some i, set_task_count (u8 (task_count k + 1)) (set_tasks ts k))
  | None => (None, k)
  end.

Definition mimic_task_kill (t : Target) (task_id : Z) (k : MimicKernel) : MimicKernel :=
  if (task_id =? 0) || (MIMIC_MAX_TASKS t <=? task_id) then k else
  let i := Z.to_nat task_id in
  match tasks k !! i with
  | Some tk =>
    if negb (MimicTaskState_eqb (tcb_state tk) TASK_STATE_FREE) then
      let k := set_tasks (update_task i (set_tcb_state TASK_STATE_ZOMBIE) (tasks k)) k in
      let k := Arena.mimic_task_free_all_memory task_id k in
      let k := set_tasks (update_task i (set_tcb_state TASK_STATE_FREE) (tasks k)) k in
      set_task_count (u8 (task_count k - 1)) k
    else k
  | None => k
  end.

(** First loop of [scheduler_tick]: wake the sleepers that are due. *)
Fixpoint wake_loop (n i : nat) (now_ms : Z) (ts : list MimicTCB) : list MimicTCB :=
  match n with
  | O => ts
  | S n' =>
    let ts :=
      match ts !! i with
      | Some t =>
        if MimicTaskState_eqb (tcb_state t) TASK_STATE_SLEEPING
           && (tcb_wake_time t <=? now_ms)
        then <[i := set_tcb_state TASK_STATE_READY t]> ts
        else ts
      | None => ts
      end in
    wake_loop n' (S i) now_ms ts
  end.

(** Second loop: [next] is the slot [next] points to, [best_prio] the
    priority to beat. *)
Fixpoint pick_loop (n i : nat) (ts : list MimicTCB) (next : nat) (best_prio : Z) : nat :=
  match n with
  | O => next
  | S n' =>
    match ts !! i with
    | Some t =>
      if MimicTaskState_eqb (tcb_state t) TASK_STATE_READY
         && (tcb_priority t <? best_prio)
      then pick_loop n' (S i) ts i (tcb_priority t)
      else pick_loop n' (S i) ts next best_prio
    | None => pick_loop n' (S i) ts next best_prio
    end
  end.

(** [scheduler_tick], with the value [now_us] read from [time_us_64()]. *)
Definition scheduler_tick (t : Target) (now_us : Z) (k : MimicKernel) : MimicKernel :=
  if negb (running k) then k else
  let k := set_tick_count (u64 (tick_count k + 1)) k in
  let now_ms := now_us / 1000 in
  let slots := (Z.to_nat (MIMIC_MAX_TASKS t) - 1)%nat in
  let k := set_tasks (wake_loop slots 1 now_ms (tasks k)) k in
  let next := pick_loop slots 1 (tasks k) 0 255 in
  let next_id := match tasks k !! next with Some tk => tcb_id tk | None => 0 end in
  let k :=
    if negb (next_id =? current_task k) then
      let k := set_tasks (update_task (Z.to_nat (current_task k))
                            (set_tcb_state TASK_STATE_READY) (tasks k)) k in
      let k := set_current_task (u8 next_id) k in
      let k := set_tasks (update_task next (set_tcb_state TASK_STATE_RUNNING) (tasks k)) k in
      set_context_switches (u32 (context_switches k + 1)) k
    else k in
  set_last_schedule_us now_us k.

Definition mimic_task_yield (t : Target) (now_us : Z) (k : MimicKernel) : MimicKernel :=
  scheduler_tick t now_us (set_preempt_pending true k).

(** [mimic_task_sleep]: [now_us] is the clock read for the wake time,
    [tick_us] the one read by the scheduler tick that follows. *)
Definition mimic_task_sleep (t : Target) (ms now_us tick_us : Z) (k : MimicKernel) : MimicKernel :=
  if current_task k =? 0 then k else
  let ts := update_task (Z.to_nat (current_task k))
              (fun tk => set_tcb_state TASK_STATE_SLEEPING
                           (set_tcb_wake_time (u32 (now_us / 1000 + ms)) tk)) (tasks k) in
  scheduler_tick t tick_us (set_tasks ts k).

(** A task as [mimic_task_load] leaves it after a successful load into
    slot [i]: priority set, state READY. *)
Definition loaded_task (i : nat) (priority start_ms : Z) (k : MimicKernel) : MimicKernel :=
  set_tasks (update_task i (fun tk => set_tcb_state TASK_STATE_READY
                                        (set_tcb_start_time (u32 start_ms)
                                           (set_tcb_priority priority tk))) (tasks k)) k.

End Sched.

(** ** Scheduler scenario *)

(** The kernel after boot with two tasks loaded: A in slot 1 with priority
    2 and B in slot 2 with priority 5, both READY. *)
Definition two_tasks : MimicKernel :=
  let k := set_running true (Sched.task_init RP2040 kernel_zero) in
  let k := Sched.loaded_task 1 2 0 (snd (Sched.task_alloc RP2040 k)) in
  Sched.loaded_task 2 5 0 (snd (Sched.task_alloc RP2040 k)).

Definition task_state (k : MimicKernel) (i : nat) : option MimicTaskState :=
  tcb_state <$> tasks k !! i.


(** Slot [j] holds a READY task of priority [p]. *)
Definition ready_at (ts : list MimicTCB) (j : nat) (p : Z) : Prop :=
  exists tk, ts !! j = Some tk /\ tcb_state tk = TASK_STATE_READY /\ tcb_priority tk = p.

(** ** Task table: predicates used to state the scheduler properties *)

(** The id [c] is carried by slot [c] and by no other slot, as [task_alloc]
    leaves it ([task->id = i]). *)
Definition names_own_slot (ts : list MimicTCB) (c : Z) : Prop :=
  forall j tk, ts !! j = Some tk -> (tcb_id tk = c <-> j = Z.to_nat c).

(** What the first loop of [scheduler_tick] does to one slot. *)
Definition woken (now_ms : Z) (tk : MimicTCB) : MimicTCB :=
  if MimicTaskState_eqb (tcb_state tk) TASK_STATE_SLEEPING && (tcb_wake_time tk <=? now_ms)
  then Sched.set_tcb_state TASK_STATE_READY tk else tk.

Definition task_state_of (ts : list MimicTCB) (i : nat) : option MimicTaskState :=
  tcb_state <$> ts !! i.

(** ** Arena: where the blocks lie *)

Definition block_end (b : MimicMemBlock) : Z := blk_addr b + blk_size b.

(** Two blocks that share no byte. *)
Definition sep (a b : MimicMemBlock) : Prop :=
  forall x, blk_addr a <= x < block_end a -> blk_addr b <= x < block_end b -> False.

(** [b'] lies inside [b]. *)
Definition inside (b' b : MimicMemBlock) : Prop :=
  blk_addr b <= blk_addr b' /\ block_end b' <= block_end b.

Fixpoint disjoint_blocks (l : list MimicMemBlock) : Prop :=
  match l with
  | [] => True
  | b :: rest => Forall (sep b) rest /\ disjoint_blocks rest
  end.

(** A block inside the heap array of [cap] bytes at address [heap]. *)
Definition in_heap (heap cap : Z) (b : MimicMemBlock) : Prop :=
  heap <= blk_addr b /\ 0 <= blk_size b /\ block_end b <= heap + cap.

Record layout_inv (heap cap max : Z) (bs : list MimicMemBlock) : Prop := {
  li_heap : Forall (in_heap heap cap) bs;
  li_disjoint : disjoint_blocks bs;
  li_len : Z.of_nat (length bs) <= max
}.

Definition in_use (b : MimicMemBlock) : bool := negb (blk_free b).

(** The merge loop of [mem_coalesce_pool] as a pass over the blocks in
    order: [acc] holds the blocks written so far, last first. *)
Fixpoint merge_rev (acc rest : list MimicMemBlock) : list MimicMemBlock :=
  match rest with
  | [] => rev acc
  | bi :: rest' =>
    match acc with
    | bp :: acc' =>
      if blk_free bp && blk_free bi && (u32 (blk_addr bp + blk_size bp) =? blk_addr bi)
      then merge_rev (Arena.set_blk_size (u32 (blk_size bp + blk_size bi)) bp :: acc') rest'
      else merge_rev (bi :: acc) rest'
    | [] => merge_rev [bi] rest'
    end
  end.

(** Calls against the user arena, by any task. *)
Inductive UserOp :=
| UAlloc (task_id size : Z)
| UFree (task_id ptr : Z)
| UFreeAll (task_id : Z).

Definition run_user_op (t : Target) (op : UserOp) (k : MimicKernel) : MimicKernel :=
  match op with
  | UAlloc task_id size => snd (Arena.mimic_umalloc t task_id size k)
  | UFree task_id ptr => Arena.mimic_ufree task_id ptr k
  | UFreeAll task_id => Arena.mimic_task_free_all_memory task_id k
  end.

Definition run_user_ops (t : Target) (ops : list UserOp) (k : MimicKernel) : MimicKernel :=
  foldl (fun k op => run_user_op t op k) k ops.

(** A block in use that is not tagged with [task_id]. *)
Definition kept_by_others (task_id : Z) (b : MimicMemBlock) : bool :=
  in_use b && negb (blk_task_id b =? task_id).

(** ** mimic.h: syscall numbers *)

Definition MIMIC_SYS_EXIT : Z := 0.
Definition MIMIC_SYS_YIELD : Z := 1.
Definition MIMIC_SYS_SLEEP : Z := 2.
Definition MIMIC_SYS_TIME : Z := 3.
Definition MIMIC_SYS_MALLOC : Z := 10.
Definition MIMIC_SYS_FREE : Z := 11.
Definition MIMIC_SYS_REALLOC : Z := 12.
Definition MIMIC_SYS_OPEN : Z := 20.
Definition MIMIC_SYS_CLOSE : Z := 21.
Definition MIMIC_SYS_READ : Z := 22.
Definition MIMIC_SYS_WRITE : Z := 23.
Definition MIMIC_SYS_SEEK : Z := 24.
Definition MIMIC_SYS_PUTCHAR : Z := 30.
Definition MIMIC_SYS_GETCHAR : Z := 31.
Definition MIMIC_SYS_PUTS : Z := 32.
Definition MIMIC_SYS_GPIO_INIT : Z := 40.
Definition MIMIC_SYS_GPIO_DIR : Z := 41.
Definition MIMIC_SYS_GPIO_PUT : Z := 42.
Definition MIMIC_SYS_GPIO_GET : Z := 43.
Definition MIMIC_SYS_GPIO_PULL : Z := 44.
Definition MIMIC_SYS_PWM_INIT : Z := 50.
Definition MIMIC_SYS_PWM_SET_WRAP : Z := 51.
Definition MIMIC_SYS_PWM_SET_LEVEL : Z := 52.
Definition MIMIC_SYS_PWM_ENABLE : Z := 53.
Definition MIMIC_SYS_ADC_INIT : Z := 60.
Definition MIMIC_SYS_ADC_SELECT : Z := 61.
Definition MIMIC_SYS_ADC_READ : Z := 62.
Definition MIMIC_SYS_ADC_TEMP : Z := 63.
Definition MIMIC_SYS_SPI_INIT : Z := 70.
Definition MIMIC_SYS_SPI_WRITE : Z := 71.
Definition MIMIC_SYS_SPI_READ : Z := 72.
Definition MIMIC_SYS_SPI_TRANSFER : Z := 73.
Definition MIMIC_SYS_I2C_INIT : Z := 80.
Definition MIMIC_SYS_I2C_WRITE : Z := 81.
Definition MIMIC_SYS_I2C_READ : Z := 82.

(** ** mimic_kernel.c: syscall dispatch *)

Module Syscall.

(** What the dispatcher obtains from outside the kernel structure: the
    timer, the console, the GPIO driver and the file layer, each given by
    the value its call returns.  Output to the console and to the pins
    leaves no trace in the kernel state. *)
Record Platform := mkPlatform {
  time_us_64 : Z;
  getchar : Z;
  gpio_get : Z -> bool;
  mimic_fopen : Z -> Z -> Z;          (* path pointer, mode *)
  mimic_fclose : Z -> Z;
  mimic_fread : Z -> Z -> Z -> Z;     (* fd, buffer pointer, size *)
  mimic_fwrite : Z -> Z -> Z -> Z;
  mimic_fseek : Z -> Z -> Z -> Z      (* fd, offset, whence *)
}.

Definition mimic_syscall (t : Target) (pf : Platform) (num a0 a1 a2 a3 : Z)
    (k : MimicKernel) : Z * MimicKernel :=
  let k := set_syscalls_handled (u32 (syscalls_handled k + 1)) k in
  let task_id := current_task k in
  if num =? MIMIC_SYS_EXIT then (0, Sched.mimic_task_kill t task_id k)
  else if num =? MIMIC_SYS_YIELD then (0, Sched.mimic_task_yield t (time_us_64 pf) k)
  else if num =? MIMIC_SYS_SLEEP then
    (0, Sched.mimic_task_sleep t a0 (time_us_64 pf) (time_us_64 pf) k)
  else if num =? MIMIC_SYS_TIME then
    (s32 (u64 (time_us_64 pf - boot_time_us k) / 1000), k)
  else if num =? MIMIC_SYS_MALLOC then
    let '(ptr, k) := Arena.mimic_umalloc t task_id a0 k in (s32 ptr, k)
  else if num =? MIMIC_SYS_FREE then (0, Arena.mimic_ufree task_id a0 k)
  else if num =? MIMIC_SYS_PUTCHAR then (s32 a0, k)
  else if num =? MIMIC_SYS_GETCHAR then (getchar pf, k)
  else if num =? MIMIC_SYS_PUTS then (0, k)
  else if num =? MIMIC_SYS_GPIO_INIT then (0, k)
  else if num =? MIMIC_SYS_GPIO_DIR then (0, k)
  else if num =? MIMIC_SYS_GPIO_PUT then (0, k)
  else if num =? MIMIC_SYS_GPIO_GET then ((if gpio_get pf a0 then 1 else 0), k)
  else if num =? MIMIC_SYS_GPIO_PULL then (0, k)
  else if num =? MIMIC_SYS_OPEN then (mimic_fopen pf a0 (u8 a1), k)
  else if num =? MIMIC_SYS_CLOSE then (mimic_fclose pf (s32 a0), k)
  else if num =? MIMIC_SYS_READ then (mimic_fread pf (s32 a0) a1 a2, k)
  else if num =? MIMIC_SYS_WRITE then (mimic_fwrite pf (s32 a0) a1 a2, k)
  else if num =? MIMIC_SYS_SEEK then (mimic_fseek pf (s32 a0) (s32 a1) (s32 a2), k)
  else (MIMIC_ERR_NOSYS, k).

(** The numbers of the specification's syscall table (section 6). *)
Definition spec_syscall_table : list Z :=
  [0; 1; 2; 3; 10; 11; 12; 20; 21; 22; 23; 24; 30; 31; 32;
   40; 41; 42; 43; 44; 50; 51; 52; 53; 60; 61; 62; 63;
   70; 71; 72; 73; 80; 81; 82].

(** The numbers the dispatcher has a [case] for. *)
Definition dispatched : list Z :=
  [MIMIC_SYS_EXIT; MIMIC_SYS_YIELD; MIMIC_SYS_SLEEP; MIMIC_SYS_TIME;
   MIMIC_SYS_MALLOC; MIMIC_SYS_FREE;
   MIMIC_SYS_PUTCHAR; MIMIC_SYS_GETCHAR; MIMIC_SYS_PUTS;
   MIMIC_SYS_GPIO_INIT; MIMIC_SYS_GPIO_DIR; MIMIC_SYS_GPIO_PUT;
   MIMIC_SYS_GPIO_GET; MIMIC_SYS_GPIO_PULL;
   MIMIC_SYS_OPEN; MIMIC_SYS_CLOSE; MIMIC_SYS_READ; MIMIC_SYS_WRITE; MIMIC_SYS_SEEK].

End Syscall.

(** ** mimic_kernel.c: binary loader *)

Module Loader.

(** [sizeof] of the packed structures of mimic.h, field by field:
    MimiHeader 4+1+1+1+1+4+4*4+2*4+2*4+16+2*4, MimiReloc 4+2+1+1+4,
    MimiSymbol 16+4+1+1+2. *)
Definition sizeof_MimiHeader : Z := 68.
Definition sizeof_MimiReloc : Z := 12.
Definition sizeof_MimiSymbol : Z := 24.

(** *** Task memory: bytes by address, little-endian *)

Definition load8 (m : gmap Z Z) (a : Z) : Z := default 0 (m !! a).
Definition store8 (m : gmap Z Z) (a v : Z) : gmap Z Z := <[a := u8 v]> m.

Definition load16 (m : gmap Z Z) (a : Z) : Z :=
  Z.lor (load8 m a) (Z.shiftl (load8 m (a + 1)) 8).
Definition store16 (m : gmap Z Z) (a v : Z) : gmap Z Z :=
  store8 (store8 m a v) (a + 1) (Z.shiftr v 8).

Definition load32 (m : gmap Z Z) (a : Z) : Z :=
  Z.lor (load16 m a) (Z.shiftl (load16 m (a + 2)) 16).
Definition store32 (m : gmap Z Z) (a v : Z) : gmap Z Z :=
  store16 (store16 m a v) (a + 2) (Z.shiftr v 16).

Fixpoint store_bytes (m : gmap Z Z) (a : Z) (bs : list Z) : gmap Z Z :=
  match bs with
  | [] => m
  | b :: rest => store_bytes (store8 m a b) (a + 1) rest
  end.

(** *** The file as the loader reads it

    A handle opened for reading is the file's bytes and a position:
    [mimic_fread] copies bytes until [size] are read or the file ends and
    returns their number, [mimic_fseek] with [MIMIC_SEEK_SET] clamps the
    offset to [0, file_size]. *)

Record FileView := mkFile { f_bytes : list Z; f_pos : Z }.

Definition file_size (f : FileView) : Z := Z.of_nat (length (f_bytes f)).

Definition mimic_fread (f : FileView) (size : Z) : list Z * FileView :=
  let n := Z.max 0 (Z.min size (file_size f - f_pos f)) in
  (take (Z.to_nat n) (drop (Z.to_nat (f_pos f)) (f_bytes f)),
   mkFile (f_bytes f) (f_pos f + n)).

Definition mimic_fseek_set (f : FileView) (offset : Z) : FileView :=
  let new_pos := s32 offset in
  let new_pos := if new_pos <? 0 then 0 else new_pos in
  let new_pos := if s32 (file_size f) <? new_pos then file_size f else new_pos in
  mkFile (f_bytes f) new_pos.

(** The result of [mimic_fopen]: a negative error, or a handle on the file. *)
Inductive OpenResult :=
| OpenError (err : Z)
| Opened (bytes : list Z).

(** *** Decoding the packed little-endian records *)

Definition byte_at (bs : list Z) (i : nat) : Z := default 0 (bs !! i).
Definition le16_at (bs : list Z) (i : nat) : Z :=
  Z.lor (byte_at bs i) (Z.shiftl (byte_at bs (i + 1)) 8).
Definition le32_at (bs : list Z) (i : nat) : Z :=
  Z.lor (le16_at bs i) (Z.shiftl (le16_at bs (i + 2)) 16).

Definition decode_header (bs : list Z) : MimiHeader :=
  mkHeader (le32_at bs 0) (byte_at bs 4) (byte_at bs 5) (byte_at bs 6)
    (le32_at bs 8) (le32_at bs 12) (le32_at bs 16) (le32_at bs 20) (le32_at bs 24)
    (le32_at bs 28) (le32_at bs 32) (le32_at bs 36) (le32_at bs 40)
    (take 16 (drop 44 bs)).

Definition decode_reloc (bs : list Z) : MimiReloc :=
  mkReloc (le32_at bs 0) (le16_at bs 4) (byte_at bs 6) (le32_at bs 8).

Definition decode_symbol (bs : list Z) : MimiSymbol :=
  mkSymbol (take 16 bs) (le32_at bs 16) (byte_at bs 20) (byte_at bs 21).

Fixpoint decode_symbols (n : nat) (bs : list Z) : list MimiSymbol :=
  match n with
  | O => []
  | S n' => decode_symbol (take 24 bs) :: decode_symbols n' (drop 24 bs)
  end.

(** *** Header validation *)

Definition mimic_validate_header (t : Target) (hdr : MimiHeader) : Z :=
  if negb (magic hdr =? MIMI_MAGIC) then MIMIC_ERR_CORRUPT
  else if negb (version hdr =? MIMI_VERSION) then MIMIC_ERR_INVAL
  else if match t with
          | RP2350 => negb (arch hdr =? MIMI_ARCH_CORTEX_M33)
                      && negb (arch hdr =? MIMI_ARCH_RISCV)
          | RP2040 => negb (arch hdr =? MIMI_ARCH_CORTEX_M0P)
          end
       then MIMIC_ERR_NOEXEC
  else if text_size hdr =? 0 then MIMIC_ERR_INVAL
  else if text_size hdr <=? entry_offset hdr then MIMIC_ERR_INVAL
  else MIMIC_OK.

(** *** Relocation *)

(** [patch_addr], or [None] where the [switch] on the section says
    [continue]. *)
Definition reloc_patch_addr (addr : Z) (tm : MimicTaskMem) (reloc : MimiReloc) : option Z :=
  if r_section reloc =? MIMI_SECT_TEXT
  then Some (u32 (addr + mem_text_start tm + r_offset reloc))
  else if r_section reloc =? MIMI_SECT_RODATA
  then Some (u32 (addr + mem_rodata_start tm + r_offset reloc))
  else if r_section reloc =? MIMI_SECT_DATA
  then Some (u32 (addr + mem_data_start tm + r_offset reloc))
  else None.

Definition reloc_sym_value (addr : Z) (tm : MimicTaskMem) (hdr : MimiHeader)
    (symtab : option (list MimiSymbol)) (reloc : MimiReloc) : Z :=
  match symtab with
  | Some syms =>
    if r_symbol_idx reloc <? symbol_count hdr then
      match syms !! Z.to_nat (r_symbol_idx reloc) with
      | Some sym =>
        if s_section sym =? MIMI_SECT_TEXT
        then u32 (addr + mem_text_start tm + s_value sym)
        else if s_section sym =? MIMI_SECT_RODATA
        then u32 (addr + mem_rodata_start tm + s_value sym)
        else if s_section sym =? MIMI_SECT_DATA
        then u32 (addr + mem_data_start tm + s_value sym)
        else if s_section sym =? MIMI_SECT_BSS
        then u32 (addr + mem_bss_start tm + s_value sym)
        else s_value sym
      | None => 0
      end
    else 0
  | None => 0
  end.

(** The two halfwords the [MIMI_RELOC_THUMB_CALL] case stores, from the
    signed [offset]. *)
Definition thumb_call_hi (offset : Z) : Z :=
  let s := Z.land (Z.shiftr offset 24) 1 in
  let imm10 := Z.land (Z.shiftr offset 12) 0x3FF in
  u16 (Z.lor (Z.lor 0xF000 (Z.shiftl s 10)) imm10).

Definition thumb_call_lo (offset : Z) : Z :=
  let s := Z.land (Z.shiftr offset 24) 1 in
  let i1 := Z.land (Z.shiftr offset 23) 1 in
  let i2 := Z.land (Z.shiftr offset 22) 1 in
  let imm11 := Z.land (Z.shiftr offset 1) 0x7FF in
  let j1 := Z.land (Z.lxor (not32 i1) s) 1 in
  let j2 := Z.land (Z.lxor (not32 i2) s) 1 in
  u16 (Z.lor (Z.lor (Z.lor 0xD000 (Z.shiftl j1 13)) (Z.shiftl j2 11)) imm11).

(** The [switch] on the relocation type. *)
Definition patch (m : gmap Z Z) (type patch_addr sym_value : Z) : gmap Z Z :=
  if type =? MIMI_RELOC_ABS32 then store32 m patch_addr sym_value
  else if type =? MIMI_RELOC_REL32
  then store32 m patch_addr (u32 (sym_value - patch_addr - 4))
  else if type =? MIMI_RELOC_THUMB_CALL then
    let offset := s32 (sym_value - patch_addr - 4) in
    store16 (store16 m patch_addr (thumb_call_hi offset))
            (patch_addr + 2) (thumb_call_lo offset)
  else m.

(** One iteration of the relocation loop, after the record was read. *)
Definition apply_reloc (addr : Z) (tm : MimicTaskMem) (hdr : MimiHeader)
    (symtab : option (list MimiSymbol)) (reloc : MimiReloc) (m : gmap Z Z) : gmap Z Z :=
  match reloc_patch_addr addr tm reloc with
  | None => m
  | Some patch_addr =>
    patch m (r_type reloc) patch_addr (reloc_sym_value addr tm hdr symtab reloc)
  end.

(** The relocation loop, [n] records left to read: the flag is [false] when
    a record could not be read in full and the loop returned. *)
Fixpoint reloc_loop (n : nat) (f : FileView) (addr : Z) (tm : MimicTaskMem)
    (hdr : MimiHeader) (symtab : option (list MimiSymbol)) (m : gmap Z Z)
    : bool * gmap Z Z :=
  match n with
  | O => (true, m)
  | S n' =>
    let '(rb, f) := mimic_fread f sizeof_MimiReloc in
    if negb (Z.of_nat (length rb) =? sizeof_MimiReloc) then (false, m)
    else reloc_loop n' f addr tm hdr symtab (apply_reloc addr tm hdr symtab (decode_reloc rb) m)
  end.

(** The BL encoding as the specification words it (section 4.6): S, I1 and
    I2 are bits 24, 23 and 22 of the offset, imm10 its bits 12 to 21, imm11 its
    bits 1 to 11; J1 = !I1 XOR S, J2 = !I2 XOR S;
    hi = 0xF000 | (S<<10) | imm10, lo = 0xD000 | (J1<<13) | (J2<<11) | imm11. *)
Definition spec_bit (offset : Z) (n : Z) : bool := Z.testbit offset n.
Definition spec_bits (offset : Z) (lo width : Z) : Z := (offset / 2 ^ lo) mod 2 ^ width.

Definition spec_bl_hi (offset : Z) : Z :=
  let S := Z.b2z (spec_bit offset 24) in
  let imm10 := spec_bits offset 12 10 in
  Z.lor (Z.lor 0xF000 (Z.shiftl S 10)) imm10.

Definition spec_bl_lo (offset : Z) : Z :=
  let S := spec_bit offset 24 in
  let J1 := Z.b2z (xorb (negb (spec_bit offset 23)) S) in
  let J2 := Z.b2z (xorb (negb (spec_bit offset 22)) S) in
  let imm11 := spec_bits offset 1 11 in
  Z.lor (Z.lor (Z.lor 0xD000 (Z.shiftl J1 13)) (Z.shiftl J2 11)) imm11.

(** *** mimic_load_binary *)

Definition set_tcb_layout (base total_size stack_size heap_size : Z) (hdr : MimiHeader)
    : MimicTaskMem :=
  let rodata_start := text_size hdr in
  let data_start := u32 (rodata_start + rodata_size hdr) in
  let bss_start := u32 (data_start + data_size hdr) in
  let sections_end := u32 (bss_start + bss_size hdr) in
  mkTaskMem base total_size
    0 (text_size hdr)
    rodata_start (rodata_size hdr)
    data_start (data_size hdr)
    bss_start (bss_size hdr)
    sections_end heap_size 0
    total_size stack_size.

(** [strncpy(dst, src, n)] into a buffer whose bytes past [n] stay. *)
Fixpoint c_string (src : list Z) : list Z :=
  match src with
  | [] => []
  | c :: rest => if c =? 0 then [] else c :: c_string rest
  end.

Definition strncpy (dst src : list Z) (n : nat) : list Z :=
  let s := take n (c_string src) in
  s ++ replicate (n - length s) 0 ++ drop n dst.

Definition mimic_load_binary (t : Target) (file : OpenResult) (task : MimicTCB)
    (k : MimicKernel) (m : gmap Z Z) : Z * MimicTCB * MimicKernel * gmap Z Z :=
  match file with
  | OpenError fd => (fd, task, k, m)
  | Opened bytes =>
    let f := mkFile bytes 0 in
    let '(hb, f) := mimic_fread f sizeof_MimiHeader in
    if negb (Z.of_nat (length hb) =? sizeof_MimiHeader)
    then (MIMIC_ERR_CORRUPT, task, k, m) else
    let hdr := decode_header hb in
    let err := mimic_validate_header t hdr in
    if negb (err =? MIMIC_OK) then (err, task, k, m) else
    let total_size :=
      u32 (text_size hdr + rodata_size hdr + data_size hdr + bss_size hdr) in
    let stack_size := if stack_request hdr =? 0 then 4096 else stack_request hdr in
    let heap_size := if heap_request hdr =? 0 then 8192 else heap_request hdr in
    let total_size := u32 (total_size + u32 (stack_size + heap_size)) in
    let total_size := Z.land (u32 (total_size + 31)) (not32 31) in
    let '(base, k) := Arena.mimic_umalloc t (tcb_id task) total_size k in
    if base =? NULL then (MIMIC_ERR_NOMEM, task, k, m) else
    let addr := base in
    let tm := set_tcb_layout addr total_size stack_size heap_size hdr in
    let task := Sched.set_tcb_mem tm task in
    (* .text *)
    let '(tb, f) := mimic_fread f (text_size hdr) in
    let m := store_bytes m (addr + mem_text_start tm) tb in
    if negb (Z.of_nat (length tb) =? s32 (text_size hdr))
    then (MIMIC_ERR_IO, task, Arena.mimic_ufree (tcb_id task) base k, m) else
    (* .rodata *)
    let '(rb, f) :=
      if 0 <? rodata_size hdr then mimic_fread f (rodata_size hdr) else ([], f) in
    let m := store_bytes m (addr + mem_rodata_start tm) rb in
    if (0 <? rodata_size hdr) && negb (Z.of_nat (length rb) =? s32 (rodata_size hdr))
    then (MIMIC_ERR_IO, task, Arena.mimic_ufree (tcb_id task) base k, m) else
    (* .data *)
    let '(db, f) :=
      if 0 <? data_size hdr then mimic_fread f (data_size hdr) else ([], f) in
    let m := store_bytes m (addr + mem_data_start tm) db in
    if (0 <? data_size hdr) && negb (Z.of_nat (length db) =? s32 (data_size hdr))
    then (MIMIC_ERR_IO, task, Arena.mimic_ufree (tcb_id task) base k, m) else
    (* .bss *)
    let m := store_bytes m (addr + mem_bss_start tm) (replicate (Z.to_nat (bss_size hdr)) 0) in
    let finish (k : MimicKernel) (m : gmap Z Z) :=
      let task := Sched.set_tcb_entry (u32 (addr + mem_text_start tm + entry_offset hdr)) task in
      let task := Sched.set_tcb_sp (u32 (addr + mem_stack_top tm)) task in
      let task := Sched.set_tcb_name (strncpy (tcb_name task) (name hdr) 15) task in
      (MIMIC_OK, task, set_programs_loaded (u32 (programs_loaded k + 1)) k, m) in
    if 0 <? reloc_count hdr then
      let reloc_offset :=
        u32 (sizeof_MimiHeader + text_size hdr + rodata_size hdr + data_size hdr) in
      if 0 <? symbol_count hdr then
        let symtab_bytes := u32 (symbol_count hdr * sizeof_MimiSymbol) in
        let '(symtab_ptr, k) := Arena.mimic_kmalloc t symtab_bytes k in
        if symtab_ptr =? NULL
        then (MIMIC_ERR_NOMEM, task, Arena.mimic_ufree (tcb_id task) base k, m) else
        let symtab_offset :=
          u32 (sizeof_MimiHeader + text_size hdr + rodata_size hdr + data_size hdr
               + reloc_count hdr * sizeof_MimiReloc) in
        let f := mimic_fseek_set f symtab_offset in
        let '(sb, f) := mimic_fread f symtab_bytes in
        if negb (Z.of_nat (length sb) =? s32 symtab_bytes)
        then (MIMIC_ERR_CORRUPT, task,
              Arena.mimic_ufree (tcb_id task) base (Arena.mimic_kfree symtab_ptr k), m) else
        let symtab := decode_symbols (Z.to_nat (symbol_count hdr)) sb in
        let f := mimic_fseek_set f reloc_offset in
        let '(done, m) :=
          reloc_loop (Z.to_nat (reloc_count hdr)) f addr tm hdr (Some symtab) m in
        if negb done
        then (MIMIC_ERR_CORRUPT, task,
              Arena.mimic_ufree (tcb_id task) base (Arena.mimic_kfree symtab_ptr k), m)
        else finish (Arena.mimic_kfree symtab_ptr k) m
      else
        let f := mimic_fseek_set f reloc_offset in
        let '(done, m) := reloc_loop (Z.to_nat (reloc_count hdr)) f addr tm hdr None m in
        if negb done
        then (MIMIC_ERR_CORRUPT, task, Arena.mimic_ufree (tcb_id task) base k, m)
        else finish k m
    else finish k m
  end.

(** [mimic_task_load]: [task] points into the task table, so what the
    loader writes through it lands in the slot. *)
Definition mimic_task_load (t : Target) (file : OpenResult) (priority now_us : Z)
    (k : MimicKernel) (m : gmap Z Z) : Z * MimicKernel * gmap Z Z :=
  match Sched.task_alloc t k with
  | (None, k) => (MIMIC_ERR_NOMEM, k, m)
  | (Some i, k) =>
    match tasks k !! i with
    | None => (MIMIC_ERR_NOMEM, k, m)
    | Some task =>
      let '(err, task, k, m) := mimic_load_binary t file task k m in
      let k := set_tasks (<[i := task]> (tasks k)) k in
      if negb (err =? MIMIC_OK) then
        let k := set_tasks (Sched.update_task i (Sched.set_tcb_state TASK_STATE_FREE) (tasks k)) k in
        (err, set_task_count (u8 (task_count k - 1)) k, m)
      else
        let k := set_tasks
                   (Sched.update_task i
                      (fun tk => Sched.set_tcb_state TASK_STATE_READY
                                   (Sched.set_tcb_start_time (u32 (now_us / 1000))
                                      (Sched.set_tcb_priority (u8 priority) tk)))
                      (tasks k)) k in
        (s32 (Z.of_nat i), k, m)
    end
  end.

End Loader.

(** ** Loader: specification-side definitions *)

(** "arch matches the compile-time target". *)
Definition arch_matches (t : Target) (a : Z) : bool :=
  match t with
  | RP2350 => (a =? MIMI_ARCH_CORTEX_M33) || (a =? MIMI_ARCH_RISCV)
  | RP2040 => a =? MIMI_ARCH_CORTEX_M0P
  end.

(** The header conditions of the loader's first step. *)
Definition header_acceptable (t : Target) (hdr : MimiHeader) : Prop :=
  magic hdr = MIMI_MAGIC /\ version hdr = MIMI_VERSION
  /\ arch_matches t (arch hdr) = true
  /\ 0 < text_size hdr /\ entry_offset hdr < text_size hdr.

(** The BL scenario: the loader placed the task at [0x20000000]; the symbol
    sits at text offset [0x200], the call site at text offset [0x100]. *)
Definition bl_header : MimiHeader :=
  mkHeader MIMI_MAGIC MIMI_VERSION 0 MIMI_ARCH_CORTEX_M0P 0 0x400 0 0 0 1 1 0 0 [].
Definition bl_layout : MimicTaskMem :=
  Loader.set_tcb_layout 0x20000000 0x3420 4096 8192 bl_header.
Definition bl_symbol : MimiSymbol := mkSymbol [] 0x200 MIMI_SECT_TEXT MIMI_SYM_GLOBAL.
Definition bl_reloc : MimiReloc := mkReloc 0x100 MIMI_SECT_TEXT MIMI_RELOC_THUMB_CALL 0.
(** ** Loader: what a loaded task looks like *)

Definition is_byte (b : Z) : Prop := 0 <= b < 256.

(** The size [mimic_load_binary] asks [mimic_umalloc] for: sections, stack
    and heap, rounded up to 32 bytes. *)
Definition stack_size_of (hdr : MimiHeader) : Z :=
  if stack_request hdr =? 0 then 4096 else stack_request hdr.
Definition heap_size_of (hdr : MimiHeader) : Z :=
  if heap_request hdr =? 0 then 8192 else heap_request hdr.
Definition request_size (hdr : MimiHeader) : Z :=
  let total_size :=
    u32 (text_size hdr + rodata_size hdr + data_size hdr + bss_size hdr) in
  let total_size := u32 (total_size + u32 (stack_size_of hdr + heap_size_of hdr)) in
  Z.land (u32 (total_size + 31)) (not32 31).

(** The bytes of the file that belong to .text, .rodata and .data. *)
Definition file_sections (hdr : MimiHeader) : Z :=
  text_size hdr + rodata_size hdr + data_size hdr.

(** The image of the sections in task memory: the bytes that follow the
    header in the file, then [bss_size] zeros. *)
Definition task_image (hdr : MimiHeader) (bytes : list Z) : list Z :=
  take (Z.to_nat (file_sections hdr)) (drop (Z.to_nat Loader.sizeof_MimiHeader) bytes)
  ++ replicate (Z.to_nat (bss_size hdr)) 0.

(** ** The file layer as the compiler passes use it

    Whole files by path.  [mimic_fopen] of Test-01 cannot create a file: a
    missing path opened with [MIMIC_FILE_CREATE] yields [MIMIC_ERR_NOSYS], and
    without it [MIMIC_ERR_NOENT]; [MIMIC_FILE_TRUNC] is accepted and does
    nothing, so a write from the start of an existing file leaves the old
    bytes behind the written ones in place.  A write that runs past the old
    end is kept here as if the directory entry followed it; [mimic_fwrite]
    and [mimic_fclose] of Test-01 do not update the entry, so on the card a
    file that is opened again keeps its old size (module [Fat32]). *)

Module Files.

Definition write_at (old : list Z) (pos : nat) (bs : list Z) : list Z :=
  take pos old ++ replicate (pos - length old) 0 ++ bs ++ drop (pos + length bs) old.

Definition open_read (fs : gmap string (list Z)) (path : string) : Loader.OpenResult :=
  match fs !! path with
  | Some bytes => Loader.Opened bytes
  | None => Loader.OpenError MIMIC_ERR_NOENT
  end.

(** Open for [WRITE | CREATE | TRUNC]: the error, or the old contents. *)
Definition open_write (fs : gmap string (list Z)) (path : string) : Z + list Z :=
  match fs !! path with
  | Some bytes => inr bytes
  | None => inl MIMIC_ERR_NOSYS
  end.

Definition le32 (v : Z) : list Z :=
  [Z.land v 0xFF; Z.land (Z.shiftr v 8) 0xFF; Z.land (Z.shiftr v 16) 0xFF;
   Z.land (Z.shiftr v 24) 0xFF].
Definition le16 (v : Z) : list Z := [Z.land v 0xFF; Z.land (Z.shiftr v 8) 0xFF].

(** A [char name[16]] as stored: 16 bytes. *)
Definition name16 (n : list Z) : list Z := take 16 (n ++ replicate 16 0).

(** The packed structures as [mimic_fwrite] stores them; padding bytes are
    written as 0. *)
Definition encode_header (h : MimiHeader) : list Z :=
  le32 (magic h) ++ [u8 (version h); u8 (flags h); u8 (arch h); 0]
  ++ le32 (entry_offset h)
  ++ le32 (text_size h) ++ le32 (rodata_size h) ++ le32 (data_size h) ++ le32 (bss_size h)
  ++ le32 (reloc_count h) ++ le32 (symbol_count h)
  ++ le32 (stack_request h) ++ le32 (heap_request h)
  ++ name16 (name h) ++ replicate 8 0.

Definition encode_reloc (r : MimiReloc) : list Z :=
  le32 (r_offset r) ++ le16 (r_section r) ++ [u8 (r_type r); 0] ++ le32 (r_symbol_idx r).

Definition encode_symbol (s : MimiSymbol) : list Z :=
  name16 (s_name s) ++ le32 (s_value s) ++ [u8 (s_section s); u8 (s_type s); 0; 0].

End Files.

(** ** mimic_codegen.c *)

Module Codegen.

Definition REG_R7 : Z := 7.





(** [thumb_bl]: the fields are taken after [offset >>= 1]. *)
Definition thumb_bl (offset : Z) : Z :=
  let offset := Z.shiftr offset 1 in
  let s := Z.land (Z.shiftr offset 24) 1 in
  let i1 := Z.land (Z.shiftr offset 23) 1 in
  let i2 := Z.land (Z.shiftr offset 22) 1 in
  let imm10 := Z.land (Z.shiftr offset 11) 0x3FF in
  let imm11 := Z.land offset 0x7FF in
  let j1 := Z.land (Z.lxor (not32 i1) s) 1 in
  let j2 := Z.land (Z.lxor (not32 i2) s) 1 in
  let hi := u16 (Z.lor (Z.lor 0xF000 (Z.shiftl s 10)) imm10) in
  let lo := u16 (Z.lor (Z.lor (Z.lor 0xD000 (Z.shiftl j1 13)) (Z.shiftl j2 11)) imm11) in
  u32 (Z.lor (Z.shiftl hi 16) lo).

Definition thumb_svc (imm8 : Z) : Z := u16 (Z.lor 0xDF00 imm8).

(** [code_size], [data_size], [reloc_count], [sym_count], [label_count] and
    [branch_count] are the lengths of the lists. *)
Record CodeGenState := mkCG {
  code : list Z;
  code_cap : Z;
  data : list Z;
  data_cap : Z;
  relocs : list MimiReloc;
  reloc_cap : Z;
  symbols : list MimiSymbol;
  sym_cap : Z;
  reg_used : Z;
  stack_offset : Z;
  local_size : Z;
  frame_size : Z;
  labels : list Z;
  label_cap : Z;
  branches : list (Z * Z * Z);      (* code_offset, label_id, type *)
  branch_cap : Z;
  func_start : Z
}.

Definition code_size (cg : CodeGenState) : Z := Z.of_nat (length (code cg)).














End Codegen.

(** ** Compiler state shared by the passes *)

Record CompilerState := mkCC {
  cc_error_count : Z;
  cc_error_msg : string;
  cc_code_bytes : Z;
  cc_verbose : bool
}.

(** What a pass reads and writes: the files, the kernel (its heap) and the
    compiler state. *)
Record World := mkWorld {
  w_fs : gmap string (list Z);
  w_kernel : MimicKernel;
  w_cc : CompilerState
}.

Module KHeap.

(** A run of [mimic_kmalloc] calls, one per size, each made whatever the
    earlier ones returned. *)
Fixpoint kmalloc_all (t : Target) (sizes : list Z) (k : MimicKernel) : list Z * MimicKernel :=
  match sizes with
  | [] => ([], k)
  | sz :: rest =>
    let '(p, k) := Arena.mimic_kmalloc t sz k in
    let '(ps, k) := kmalloc_all t rest k in
    (p :: ps, k)
  end.

(** [if (p) mimic_kfree(p);] for each pointer in turn. *)
Definition kfree_all (ptrs : list Z) (k : MimicKernel) : MimicKernel :=
  foldl (fun k p => if p =? NULL then k else Arena.mimic_kfree p k) k ptrs.

Definition any_null (ptrs : list Z) : bool := existsb (fun p => p =? NULL) ptrs.

End KHeap.

Module Compiler.


End Compiler.

(** ** mimic_linker.c *)

Module Linker.

(** [text_size], [rodata_size], [data_size], [reloc_count] and [sym_count]
    are the lengths of the lists. *)
Record LinkerState := mkLnk {
  text : list Z;
  text_cap : Z;
  rodata : list Z;
  rodata_cap : Z;
  data : list Z;
  data_cap : Z;
  bss_size : Z;
  relocs : list MimiReloc;
  reloc_cap : Z;
  symbols : list MimiSymbol;
  sym_cap : Z;
  entry_offset : Z;
  has_entry : bool;
  name : list Z;
  error_msg : string;
  error_count : Z
}.

Definition set_text v (l : LinkerState) := mkLnk v (text_cap l) (rodata l) (rodata_cap l) (data l) (data_cap l) (bss_size l) (relocs l) (reloc_cap l) (symbols l) (sym_cap l) (entry_offset l) (has_entry l) (name l) (error_msg l) (error_count l).
Definition set_data v (l : LinkerState) := mkLnk (text l) (text_cap l) (rodata l) (rodata_cap l) v (data_cap l) (bss_size l) (relocs l) (reloc_cap l) (symbols l) (sym_cap l) (entry_offset l) (has_entry l) (name l) (error_msg l) (error_count l).
Definition set_relocs v (l : LinkerState) := mkLnk (text l) (text_cap l) (rodata l) (rodata_cap l) (data l) (data_cap l) (bss_size l) v (reloc_cap l) (symbols l) (sym_cap l) (entry_offset l) (has_entry l) (name l) (error_msg l) (error_count l).
Definition set_symbols v (l : LinkerState) := mkLnk (text l) (text_cap l) (rodata l) (rodata_cap l) (data l) (data_cap l) (bss_size l) (relocs l) (reloc_cap l) v (sym_cap l) (entry_offset l) (has_entry l) (name l) (error_msg l) (error_count l).
Definition set_entry v (l : LinkerState) := mkLnk (text l) (text_cap l) (rodata l) (rodata_cap l) (data l) (data_cap l) (bss_size l) (relocs l) (reloc_cap l) (symbols l) (sym_cap l) v true (name l) (error_msg l) (error_count l).
Definition set_name v (l : LinkerState) := mkLnk (text l) (text_cap l) (rodata l) (rodata_cap l) (data l) (data_cap l) (bss_size l) (relocs l) (reloc_cap l) (symbols l) (sym_cap l) (entry_offset l) (has_entry l) v (error_msg l) (error_count l).
Definition set_error msg (l : LinkerState) := mkLnk (text l) (text_cap l) (rodata l) (rodata_cap l) (data l) (data_cap l) (bss_size l) (relocs l) (reloc_cap l) (symbols l) (sym_cap l) (entry_offset l) (has_entry l) (name l) msg (u32 (error_count l + 1)).

Definition text_size (l : LinkerState) : Z := Z.of_nat (length (text l)).
Definition data_size (l : LinkerState) : Z := Z.of_nat (length (data l)).
Definition reloc_count (l : LinkerState) : Z := Z.of_nat (length (relocs l)).
Definition sym_count (l : LinkerState) : Z := Z.of_nat (length (symbols l)).

(** [strcmp(a, b) == 0] on character arrays. *)
Definition name_eqb (a b : list Z) : bool :=
  bool_decide (Loader.c_string a = Loader.c_string b).

(** "main" *)
Definition main_name : list Z := [109; 97; 105; 110].

(** The search loop of [linker_add_symbol]: the index of the first symbol of
    that name. *)
Fixpoint find_symbol (syms : list MimiSymbol) (i : nat) (n : list Z) : option nat :=
  match syms with
  | [] => None
  | s :: rest => if name_eqb (s_name s) n then Some i else find_symbol rest (S i) n
  end.

Definition linker_add_symbol (sym : MimiSymbol) (l : LinkerState) : Z * LinkerState :=
  match find_symbol (symbols l) 0 (s_name sym) with
  | Some i =>
    match symbols l !! i with
    | Some old =>
      if (s_type sym =? MIMI_SYM_GLOBAL) && (s_type old =? MIMI_SYM_EXTERN)
      then (Z.of_nat i, set_symbols (<[i := sym]> (symbols l)) l)
      else if (s_type sym =? MIMI_SYM_GLOBAL) && (s_type old =? MIMI_SYM_GLOBAL)
      then (-1, set_error "Multiple definition" l)
      else (Z.of_nat i, l)
    | None => (Z.of_nat i, l)
    end
  | None =>
    if sym_cap l <=? sym_count l then (-1, l)
    else (sym_count l, set_symbols (symbols l ++ [sym]) l)
  end.

(** The relocation loop of [linker_load_object]. *)
Fixpoint load_relocs (n : nat) (f : Loader.FileView) (text_offset data_offset : Z)
    (l : LinkerState) : Z * Loader.FileView * LinkerState :=
  match n with
  | O => (MIMIC_OK, f, l)
  | S n' =>
    let '(rb, f) := Loader.mimic_fread f Loader.sizeof_MimiReloc in
    if negb (Z.of_nat (length rb) =? Loader.sizeof_MimiReloc) then (MIMIC_ERR_CORRUPT, f, l)
    else
      let r := Loader.decode_reloc rb in
      let off :=
        if r_section r =? MIMI_SECT_TEXT then u32 (r_offset r + text_offset)
        else if r_section r =? MIMI_SECT_DATA then u32 (r_offset r + data_offset)
        else r_offset r in
      let r := mkReloc off (r_section r) (r_type r) (r_symbol_idx r) in
      let l := if reloc_count l <? reloc_cap l then set_relocs (relocs l ++ [r]) l else l in
      load_relocs n' f text_offset data_offset l
  end.

(** The symbol loop of [linker_load_object]. *)
Fixpoint load_symbols (n : nat) (f : Loader.FileView) (text_offset data_offset : Z)
    (l : LinkerState) : Z * Loader.FileView * LinkerState :=
  match n with
  | O => (MIMIC_OK, f, l)
  | S n' =>
    let '(sb, f) := Loader.mimic_fread f Loader.sizeof_MimiSymbol in
    if negb (Z.of_nat (length sb) =? Loader.sizeof_MimiSymbol) then (MIMIC_ERR_CORRUPT, f, l)
    else
      let s := Loader.decode_symbol sb in
      let v :=
        if s_section s =? MIMI_SECT_TEXT then u32 (s_value s + text_offset)
        else if s_section s =? MIMI_SECT_DATA then u32 (s_value s + data_offset)
        else s_value s in
      let s := mkSymbol (s_name s) v (s_section s) (s_type s) in
      let l := if name_eqb (s_name s) main_name && (s_type s =? MIMI_SYM_GLOBAL)
               then set_entry (s_value s) l else l in
      let '(_, l) := linker_add_symbol s l in
      load_symbols n' f text_offset data_offset l
  end.

Definition linker_load_object (file : Loader.OpenResult) (l : LinkerState) : Z * LinkerState :=
  match file with
  | Loader.OpenError fd => (fd, l)
  | Loader.Opened bytes =>
    let f := Loader.mkFile bytes 0 in
    let '(hb, f) := Loader.mimic_fread f 16 in
    if negb (Z.of_nat (length hb) =? 16) then (MIMIC_ERR_CORRUPT, l) else
    let code_size := Loader.le32_at hb 0 in
    let dsize := Loader.le32_at hb 4 in
    let nreloc := Loader.le32_at hb 8 in
    let nsym := Loader.le32_at hb 12 in
    let text_offset := text_size l in
    let data_offset := data_size l in
    (* code *)
    if (0 <? code_size) && (text_cap l <? u32 (text_size l + code_size))
    then (MIMIC_ERR_NOMEM, l) else
    let '(cb, f) := if 0 <? code_size then Loader.mimic_fread f code_size else ([], f) in
    if (0 <? code_size) && negb (Z.of_nat (length cb) =? s32 code_size)
    then (MIMIC_ERR_IO, l) else
    let l := set_text (text l ++ cb) l in
    (* data *)
    if (0 <? dsize) && (data_cap l <? u32 (data_size l + dsize))
    then (MIMIC_ERR_NOMEM, l) else
    let '(db, f) := if 0 <? dsize then Loader.mimic_fread f dsize else ([], f) in
    if (0 <? dsize) && negb (Z.of_nat (length db) =? s32 dsize)
    then (MIMIC_ERR_IO, l) else
    let l := set_data (data l ++ db) l in
    let '(err, f, l) := load_relocs (Z.to_nat nreloc) f text_offset data_offset l in
    if negb (err =? MIMIC_OK) then (err, l) else
    let '(err, f, l) := load_symbols (Z.to_nat nsym) f text_offset data_offset l in
    (err, l)
  end.

(** One iteration of [linker_process_relocations]. *)
Definition check_reloc (l : LinkerState) (r : MimiReloc) : LinkerState :=
  if sym_count l <=? r_symbol_idx r
  then set_error "Invalid symbol reference in relocation" l
  else
    match symbols l !! Z.to_nat (r_symbol_idx r) with
    | Some sym =>
      if (s_type sym =? MIMI_SYM_EXTERN) && (s_section sym =? MIMI_SECT_NULL)
      then if negb (s_type sym =? MIMI_SYM_SYSCALL)
           then set_error "Unresolved symbol" l else l
      else l
    | None => l
    end.

Definition linker_process_relocations (l : LinkerState) : Z * LinkerState :=
  let l := foldl check_reloc l (relocs l) in
  ((if 0 <? error_count l then MIMIC_ERR_NOENT else MIMIC_OK), l).

(** The header [linker_write_binary] builds. *)
Definition binary_header (t : Target) (l : LinkerState) : MimiHeader :=
  mkHeader MIMI_MAGIC MIMI_VERSION 0
    (match t with RP2350 => MIMI_ARCH_CORTEX_M33 | RP2040 => MIMI_ARCH_CORTEX_M0P end)
    (entry_offset l) (text_size l) (Z.of_nat (length (rodata l))) (data_size l) (bss_size l)
    (reloc_count l) (sym_count l) 4096 8192
    (Loader.strncpy (replicate 16 0) (name l) 15).

Definition binary_bytes (t : Target) (l : LinkerState) : list Z :=
  Files.encode_header (binary_header t l)
  ++ text l ++ rodata l ++ data l
  ++ concat (map Files.encode_reloc (relocs l))
  ++ concat (map Files.encode_symbol (symbols l)).

Definition linker_write_binary (t : Target) (l : LinkerState) (output : string)
    (fs : gmap string (list Z)) : Z * gmap string (list Z) :=
  match Files.open_write fs output with
  | inl fd => (fd, fs)
  | inr old => (MIMIC_OK, <[output := Files.write_at old 0 (binary_bytes t l)]> fs)
  end.

(** The sizes of the five buffers of [mimic_cc_link]. *)
Definition lnk_buffers : list Z := [64 * 1024; 16 * 1024; 16 * 1024; 512 * 12; 256 * 24].

Definition lnk_init : LinkerState :=
  mkLnk [] (64 * 1024) [] (16 * 1024) [] (16 * 1024) 0 [] 512 [] 256 0 false
    (replicate 16 0) "" 0.

(** The characters of [s] after its last ['/'], up to its last ['.']:
    the output name as [mimic_cc_link] derives it ([strrchr] twice). *)
Fixpoint after_last (c : Z) (s : list Z) : option (list Z) :=
  match s with
  | [] => None
  | x :: rest =>
    match after_last c rest with
    | Some r => Some r
    | None => if x =? c then Some rest else None
    end
  end.

Fixpoint before_last (c : Z) (s : list Z) : option (list Z) :=
  match s with
  | [] => None
  | x :: rest =>
    match before_last c rest with
    | Some r => Some (x :: r)
    | None => if x =? c then Some [] else None
    end
  end.

Definition string_bytes (s : string) : list Z :=
  map (fun a => Z.of_nat (Ascii.nat_of_ascii a)) (String.list_ascii_of_string s).

Definition output_name (output : string) : list Z :=
  let o := string_bytes output in
  let n := default o (after_last 47 o) in
  let n15 := Loader.strncpy (replicate 16 0) n 15 in
  match before_last 46 (Loader.c_string n15) with
  | Some stem => <[length stem := 0]> n15
  | None => n15
  end.

(** The loop over the object files. *)
Fixpoint load_objects (fs : gmap string (list Z)) (objs : list string) (l : LinkerState)
    : Z * LinkerState :=
  match objs with
  | [] => (MIMIC_OK, l)
  | o :: rest =>
    let '(err, l) := linker_load_object (Files.open_read fs o) l in
    if negb (err =? MIMIC_OK) then (err, l) else load_objects fs rest l
  end.

Definition add_error (msg : string) (n : Z) (cc : CompilerState) : CompilerState :=
  mkCC (u32 (cc_error_count cc + n)) msg (cc_code_bytes cc) (cc_verbose cc).

(** [mimic_cc_link].  The five buffers hold what [LinkerState] carries here
    as lists; every path out of the function frees them, and nothing between
    their allocation and release touches the kernel heap, so the release is
    written once, right after the allocation. *)
Definition mimic_cc_link (t : Target) (obj_files : list string) (output : string)
    (w : World) : Z * World :=
  let '(ptrs, k) := KHeap.kmalloc_all t lnk_buffers (w_kernel w) in
  if KHeap.any_null ptrs
  then (MIMIC_ERR_NOMEM, mkWorld (w_fs w) (KHeap.kfree_all ptrs k) (w_cc w)) else
  let k := KHeap.kfree_all ptrs k in
  let l := set_name (output_name output) lnk_init in
  let '(err, l) := load_objects (w_fs w) obj_files l in
  if negb (err =? MIMIC_OK) then (err, mkWorld (w_fs w) k (w_cc w)) else
  if negb (has_entry l)
  then (MIMIC_ERR_NOENT,
        mkWorld (w_fs w) k (add_error "No entry point found (missing 'main')" 1 (w_cc w)))
  else
  let '(err, l) := linker_process_relocations l in
  if negb (err =? MIMIC_OK) && (0 <? error_count l)
  then (err, mkWorld (w_fs w) k (add_error (error_msg l) (error_count l) (w_cc w))) else
  let '(err, fs) := linker_write_binary t l output (w_fs w) in
  (err, mkWorld fs k (w_cc w)).

(** [mimic_cc_compile]: passes 1 and 2 are given as [lex] and [parse]; their
    output files are not read by pass 4. *)
Definition obj_path : string := "/mimic/tmp/temp.o".


End Linker.

(** ** Compiler scenario *)


(** ** Loader scenario: a binary with malformed relocation records *)

(** Twelve bytes of text, one symbol ([main], at text offset 4), three
    relocations of type ABS32 against the words at text offsets 0, 4 and 8: the
    first names section 9, the second symbol index 7 of a table of one, the
    third is well formed. *)
Definition odd_header : MimiHeader :=
  mkHeader MIMI_MAGIC MIMI_VERSION 0 MIMI_ARCH_CORTEX_M0P 0 12 0 0 0 3 1 0 0 [111; 100; 100].
Definition odd_text : list Z := [0xAA; 0xBB; 0xCC; 0xDD; 0x11; 0x22; 0x33; 0x44; 0x55; 0x66; 0x77; 0x88].
Definition odd_symbol : MimiSymbol := mkSymbol [109; 97; 105; 110] 4 MIMI_SECT_TEXT MIMI_SYM_GLOBAL.
Definition odd_relocs : list MimiReloc :=
  [mkReloc 0 9 MIMI_RELOC_ABS32 0;
   mkReloc 4 MIMI_SECT_TEXT MIMI_RELOC_ABS32 7;
   mkReloc 8 MIMI_SECT_TEXT MIMI_RELOC_ABS32 0].
Definition odd_binary : list Z :=
  Files.encode_header odd_header ++ odd_text
  ++ concat (map Files.encode_reloc odd_relocs) ++ Files.encode_symbol odd_symbol.

(** The same text with no symbol table and one relocation. *)
Definition bare_header : MimiHeader :=
  mkHeader MIMI_MAGIC MIMI_VERSION 0 MIMI_ARCH_CORTEX_M0P 0 12 0 0 0 1 0 0 0 [].
Definition bare_binary : list Z :=
  Files.encode_header bare_header ++ odd_text
  ++ Files.encode_reloc (mkReloc 4 MIMI_SECT_TEXT MIMI_RELOC_ABS32 0).

(** The kernel after [mimic_mem_init] and [mimic_task_init], with the user
    heap at [0x20010000], and the task the loader fills. *)
Definition booted (t : Target) : MimicKernel :=
  Sched.task_init t (Arena.mem_init t 0x20001000 0x20010000 kernel_zero).
Definition fresh_task : MimicTCB := Sched.set_tcb_id 1 Sched.tcb_zero.

Definition load_status (r : Z * MimicTCB * MimicKernel * gmap Z Z) : Z := r.1.1.1.
Definition load_task (r : Z * MimicTCB * MimicKernel * gmap Z Z) : MimicTCB := r.1.1.2.
Definition load_memory (r : Z * MimicTCB * MimicKernel * gmap Z Z) : gmap Z Z := r.2.

(** A binary without relocations: the twelve bytes of text, four bytes of
    .rodata, four of .data and eight of .bss, entry at text offset 4. *)
Definition plain_header : MimiHeader :=
  mkHeader MIMI_MAGIC MIMI_VERSION 0 MIMI_ARCH_CORTEX_M0P 4 12 4 4 8 0 0 0 0 [112; 108].
Definition plain_binary : list Z :=
  Files.encode_header plain_header ++ odd_text ++ [1; 2; 3; 4] ++ [5; 6; 7; 8].

(** ** Scheduler scenario on the booted kernel *)

(** After [mimic_kernel_init]: two tasks loaded, A in slot 1 with priority 2
    and B in slot 2 with priority 5, and one tick: A is RUNNING. *)
Definition boot_two_tasks : MimicKernel :=
  let k := set_running true (booted RP2040) in
  let k := Sched.loaded_task 1 2 0 (snd (Sched.task_alloc RP2040 k)) in
  let k := Sched.loaded_task 2 5 0 (snd (Sched.task_alloc RP2040 k)) in
  Sched.scheduler_tick RP2040 1000 k.

(** The same kernel after A allocated 100 bytes and B 64. *)
Definition two_tasks_with_memory : MimicKernel :=
  run_user_ops RP2040 [UAlloc 1 100; UAlloc 2 64] boot_two_tasks.

(** ** mimic_fat32.c: the volume and its one-sector cache *)

Module Fat32.

Definition SD_SECTOR_SIZE : Z := 512.
Definition MIMIC_MAX_FILES : nat := 8.
Definition MIMIC_MAX_PATH : nat := 256.

Definition FAT_ATTR_DIRECTORY : Z := 0x10.
Definition FAT_ATTR_ARCHIVE : Z := 0x20.
Definition FAT_ATTR_LFN : Z := 0x0F.
Definition FAT32_EOC : Z := 0x0FFFFFF8.
Definition FAT32_FREE : Z := 0.

Definition MIMIC_FILE_READ : Z := 0x01.
Definition MIMIC_FILE_WRITE : Z := 0x02.
Definition MIMIC_FILE_APPEND : Z := 0x04.
Definition MIMIC_FILE_CREATE : Z := 0x08.
Definition MIMIC_FILE_TRUNC : Z := 0x10.
Definition MIMIC_SEEK_SET : Z := 0.
Definition MIMIC_SEEK_CUR : Z := 1.
Definition MIMIC_SEEK_END : Z := 2.

(** The fields of [Fat32DirEntry] the code reads. *)
Record Fat32DirEntry := mkDirEntry {
  de_name : list Z;
  de_ext : list Z;
  de_attr : Z;
  de_fst_clus_hi : Z;
  de_fst_clus_lo : Z;
  de_file_size : Z
}.

Record MimicVolume := mkVol {
  vol_initialized : bool;
  vol_sectors_per_cluster : Z;
  vol_bytes_per_cluster : Z;
  vol_fat_start_sector : Z;
  vol_fat_sectors : Z;
  vol_root_cluster : Z;
  vol_data_start_sector : Z;
  vol_total_clusters : Z;
  vol_cached_sector : Z;
  vol_sector_buf : list Z;
  vol_cache_dirty : bool
}.

Record MimicFile := mkHandle {
  fh_open : bool;
  fh_is_dir : bool;
  fh_mode : Z;
  fh_dir_cluster : Z;
  fh_dir_entry_idx : Z;
  fh_first_cluster : Z;
  fh_current_cluster : Z;
  fh_cluster_offset : Z;
  fh_file_size : Z;
  fh_position : Z;
  fh_path : list Z
}.

(** The statics [vol] and [files] of the module, and the card behind them:
    the sectors it holds, and the sectors for which it answers a command with
    an error. *)
Record State := mkState {
  vol : MimicVolume;
  files : list MimicFile;
  sd_sectors : gmap Z (list Z);
  sd_bad : Z -> bool
}.

Definition set_vol v (s : State) := mkState v (files s) (sd_sectors s) (sd_bad s).
Definition set_files v (s : State) := mkState (vol s) v (sd_sectors s) (sd_bad s).
Definition set_sd_sectors v (s : State) := mkState (vol s) (files s) v (sd_bad s).

Definition set_cache (sector : Z) (buf : list Z) (dirty : bool) (v : MimicVolume) :=
  mkVol (vol_initialized v) (vol_sectors_per_cluster v) (vol_bytes_per_cluster v)
    (vol_fat_start_sector v) (vol_fat_sectors v) (vol_root_cluster v)
    (vol_data_start_sector v) (vol_total_clusters v) sector buf dirty.

(** State passing, as the C functions share [vol] and [files]. *)
Definition M (A : Type) : Type := State -> A * State.
Definition ret {A} (a : A) : M A := fun s => (a, s).
Definition bind {A B} (m : M A) (k : A -> M B) : M B :=
  fun s => let '(a, s) := m s in k a s.
Definition get : M State := fun s => (s, s).
Definition modify (f : State -> State) : M unit := fun s => (tt, f s).

Notation "'do' x <- m ; k" := (bind m (fun x => k))
  (at level 10, x name, m at level 100, k at level 200).
Notation "m ;; k" := (bind m (fun _ => k))
  (at level 100, k at level 200, right associativity).

Definition sector_data (s : State) (sector : Z) : list Z :=
  default (replicate 512 0) (sd_sectors s !! sector).

(** [mimic_sd_read_sector]: the error, or the 512 bytes read. *)
Definition mimic_sd_read_sector (sector : Z) : M (Z + list Z) := fun s =>
  if negb (vol_initialized (vol s)) then (inl MIMIC_ERR_IO, s)
  else if sd_bad s sector then (inl MIMIC_ERR_IO, s)
  else (inr (sector_data s sector), s).

Definition mimic_sd_write_sector (sector : Z) (buf : list Z) : M Z := fun s =>
  if negb (vol_initialized (vol s)) then (MIMIC_ERR_IO, s)
  else if sd_bad s sector then (MIMIC_ERR_IO, s)
  else (MIMIC_OK, set_sd_sectors (<[sector := buf]> (sd_sectors s)) s).

Definition fat32_cache_dirty : M unit :=
  modify (fun s => set_vol (set_cache (vol_cached_sector (vol s)) (vol_sector_buf (vol s))
                              true (vol s)) s).

Definition cache_clean : M unit :=
  modify (fun s => set_vol (set_cache (vol_cached_sector (vol s)) (vol_sector_buf (vol s))
                              false (vol s)) s).

Definition fat32_flush_cache : M Z :=
  do s <- get;
  if vol_cache_dirty (vol s) then
    do err <- mimic_sd_write_sector (vol_cached_sector (vol s)) (vol_sector_buf (vol s));
    if negb (err =? MIMIC_OK) then ret err
    else cache_clean ;; ret MIMIC_OK
  else ret MIMIC_OK.

(** [fat32_read_sector] writes a dirty cache back with the statements of
    [fat32_flush_cache]. *)
Definition fat32_read_sector (sector : Z) : M Z :=
  do s <- get;
  if vol_cached_sector (vol s) =? sector then ret MIMIC_OK else
  do err <- fat32_flush_cache;
  if negb (err =? MIMIC_OK) then ret err else
  do r <- mimic_sd_read_sector sector;
  match r with
  | inl err => ret err
  | inr data =>
    modify (fun s => set_vol (set_cache sector data (vol_cache_dirty (vol s)) (vol s)) s) ;;
    ret MIMIC_OK
  end.

(** *** FAT table *)

(** [memcpy] into a buffer. *)
Definition buf_write (buf : list Z) (off : nat) (bs : list Z) : list Z :=
  take off buf ++ bs ++ drop (off + length bs) buf.

Definition set_sector_buf (buf : list Z) : M unit :=
  modify (fun s => set_vol (set_cache (vol_cached_sector (vol s)) buf
                              (vol_cache_dirty (vol s)) (vol s)) s).

Definition fat_sector_of (v : MimicVolume) (cluster : Z) : Z :=
  u32 (vol_fat_start_sector v + u32 (cluster * 4) / 512).
Definition fat_offset_of (cluster : Z) : nat := Z.to_nat (u32 (cluster * 4) mod 512).

Definition fat32_get_fat_entry (cluster : Z) : M Z :=
  do s <- get;
  do err <- fat32_read_sector (fat_sector_of (vol s) cluster);
  if negb (err =? MIMIC_OK) then ret 0xFFFFFFFF else
  do s <- get;
  ret (Z.land (Loader.le32_at (vol_sector_buf (vol s)) (fat_offset_of cluster)) 0x0FFFFFFF).

Definition fat32_set_fat_entry (cluster value : Z) : M Z :=
  do s <- get;
  do err <- fat32_read_sector (fat_sector_of (vol s) cluster);
  if negb (err =? MIMIC_OK) then ret err else
  do s <- get;
  let buf := vol_sector_buf (vol s) in
  let old := Loader.le32_at buf (fat_offset_of cluster) in
  let new := Z.lor (Z.land value 0x0FFFFFFF) (Z.land old 0xF0000000) in
  set_sector_buf (buf_write buf (fat_offset_of cluster) (Files.le32 new)) ;;
  fat32_cache_dirty ;;
  fat32_flush_cache.

Definition fat32_cluster_to_sector (v : MimicVolume) (cluster : Z) : Z :=
  u32 (vol_data_start_sector v + u32 (u32 (cluster - 2) * vol_sectors_per_cluster v)).

(** The scan of [fat32_alloc_cluster], [n] clusters left to look at. *)
Fixpoint alloc_loop (n : nat) (cluster : Z) : M Z :=
  match n with
  | O => ret 0
  | S n' =>
    do e <- fat32_get_fat_entry cluster;
    if e =? FAT32_FREE then fat32_set_fat_entry cluster FAT32_EOC ;; ret cluster
    else alloc_loop n' (cluster + 1)
  end.

Definition fat32_alloc_cluster : M Z :=
  do s <- get;
  alloc_loop (Z.to_nat (u32 (vol_total_clusters (vol s) + 2) - 2)) 2.

(** *** Directories *)

Definition upper (c : Z) : Z := if (97 <=? c) && (c <=? 122) then c - 32 else c.

(** The number of characters the first loop of [fat32_str_to_name] copies,
    with room for [j] more. *)
Fixpoint stem_length (str : list Z) (j : nat) : nat :=
  match str, j with
  | c :: rest, S j' => if c =? 46 then O else S (stem_length rest j')
  | _, _ => O
  end.

Definition pad (n : nat) (cs : list Z) : list Z := cs ++ replicate (n - length cs) 32.

(** A C string is the list of its characters before the NUL. *)
Definition fat32_str_to_name (str : list Z) : list Z * list Z :=
  let i := stem_length str 8 in
  let rest := drop i str in
  let rest := match rest with
              | c :: r => if c =? 46 then r else rest
              | [] => []
              end in
  (pad 8 (map upper (take i str)), pad 3 (map upper (take 3 rest))).

(** Entry [i] of the sector in the cache. *)
Definition dir_entry_at (buf : list Z) (i : nat) : Fat32DirEntry :=
  let e := take 32 (drop (32 * i) buf) in
  mkDirEntry (take 8 e) (take 3 (drop 8 e)) (Loader.byte_at e 11)
    (Loader.le16_at e 20) (Loader.le16_at e 26) (Loader.le32_at e 28).

Inductive Scan :=
| ScanFound (e : Fat32DirEntry) (idx : Z)
| ScanStop (err : Z)
| ScanNext.

Definition bytes_eqb (a b : list Z) : bool := bool_decide (a = b).

(** The 16 entries of a sector, from entry [i], [n] left. *)
Fixpoint scan_sector (n i : nat) (buf name ext : list Z) : Scan :=
  match n with
  | O => ScanNext
  | S n' =>
    let e := dir_entry_at buf i in
    let c0 := Loader.byte_at (de_name e) 0 in
    if c0 =? 0x00 then ScanStop MIMIC_ERR_NOENT
    else if c0 =? 0xE5 then scan_sector n' (S i) buf name ext
    else if de_attr e =? FAT_ATTR_LFN then scan_sector n' (S i) buf name ext
    else if bytes_eqb (de_name e) name && bytes_eqb (de_ext e) ext
         then ScanFound e (Z.of_nat i)
    else scan_sector n' (S i) buf name ext
  end.

(** The sectors of one cluster, from sector [s], [n] left. *)
Fixpoint scan_cluster (n : nat) (s sector : Z) (name ext : list Z) : M Scan :=
  match n with
  | O => ret ScanNext
  | S n' =>
    do err <- fat32_read_sector (u32 (sector + s));
    if negb (err =? MIMIC_OK) then ret (ScanStop MIMIC_ERR_IO) else
    do st <- get;
    match scan_sector 16 0 (vol_sector_buf (vol st)) name ext with
    | ScanFound e i => ret (ScanFound e (u32 (s * 16 + i)))
    | ScanStop err => ret (ScanStop err)
    | ScanNext => scan_cluster n' (s + 1) sector name ext
    end
  end.

Inductive Found :=
| FoundEntry (e : Fat32DirEntry) (cluster idx : Z)
| NotFound (err : Z).

(** The [while] loop of [fat32_find_entry] over the directory's cluster
    chain; [None] when the chain is longer than [fuel] clusters. *)
Fixpoint find_chain (fuel : nat) (cluster : Z) (name ext : list Z) : M (option Found) :=
  match fuel with
  | O => ret None
  | S fuel' =>
    if (cluster =? 0) || (FAT32_EOC <=? cluster) then ret (Some (NotFound MIMIC_ERR_NOENT))
    else
      do s <- get;
      do r <- scan_cluster (Z.to_nat (vol_sectors_per_cluster (vol s))) 0
                (fat32_cluster_to_sector (vol s) cluster) name ext;
      match r with
      | ScanFound e idx => ret (Some (FoundEntry e cluster idx))
      | ScanStop err => ret (Some (NotFound err))
      | ScanNext =>
        do next <- fat32_get_fat_entry cluster;
        find_chain fuel' next name ext
      end
  end.

Definition fat32_find_entry (fuel : nat) (dir_cluster : Z) (name : list Z) : M (option Found) :=
  let '(search_name, search_ext) := fat32_str_to_name name in
  find_chain fuel dir_cluster search_name search_ext.

Fixpoint skip_slashes (path : list Z) : list Z :=
  match path with
  | c :: rest => if c =? 47 then skip_slashes rest else path
  | [] => []
  end.

(** The next component, of at most [n] characters, and what follows it. *)
Fixpoint component (path : list Z) (n : nat) : list Z * list Z :=
  match path, n with
  | c :: rest, S n' =>
    if c =? 47 then ([], path)
    else let '(cs, tail) := component rest n' in (c :: cs, tail)
  | _, _ => ([], path)
  end.

Definition entry_cluster (e : Fat32DirEntry) : Z :=
  Z.lor (u32 (Z.shiftl (de_fst_clus_hi e) 16)) (de_fst_clus_lo e).

(** The loop of [fat32_resolve_path], at most [n] components: the error, the
    cluster and the contents of [*entry]. *)
Fixpoint resolve_loop (n fuel : nat) (path : list Z) (curr_cluster : Z)
    (entry : Fat32DirEntry) : M (option (Z * Z * Fat32DirEntry)) :=
  match n with
  | O => ret None
  | S n' =>
    match skip_slashes path with
    | [] => ret (Some (MIMIC_OK, curr_cluster, entry))
    | path =>
      let '(comp, rest) := component path 255 in
      do r <- fat32_find_entry fuel curr_cluster comp;
      match r with
      | None => ret None
      | Some (NotFound err) => ret (Some (err, curr_cluster, entry))
      | Some (FoundEntry found _ _) =>
        resolve_loop n' fuel rest (entry_cluster found) found
      end
    end
  end.

(** [entry] comes in with what the caller's local variable holds. *)
Definition fat32_resolve_path (fuel : nat) (path : list Z) (entry : Fat32DirEntry)
    : M (option (Z * Z * Fat32DirEntry)) :=
  do s <- get;
  let path := match path with
              | c :: rest => if c =? 47 then rest else path
              | [] => []
              end in
  resolve_loop (S (length path)) fuel path (vol_root_cluster (vol s)) entry.

(** *** File handles *)

Definition handle_zero : MimicFile := mkHandle false false 0 0 0 0 0 0 0 0 [].

Definition set_fh_open v (f : MimicFile) :=
  mkHandle v (fh_is_dir f) (fh_mode f) (fh_dir_cluster f) (fh_dir_entry_idx f)
    (fh_first_cluster f) (fh_current_cluster f) (fh_cluster_offset f) (fh_file_size f)
    (fh_position f) (fh_path f).
Definition set_fh_first_cluster v (f : MimicFile) :=
  mkHandle (fh_open f) (fh_is_dir f) (fh_mode f) (fh_dir_cluster f) (fh_dir_entry_idx f)
    v (fh_current_cluster f) (fh_cluster_offset f) (fh_file_size f)
    (fh_position f) (fh_path f).
Definition set_fh_current cluster offset (f : MimicFile) :=
  mkHandle (fh_open f) (fh_is_dir f) (fh_mode f) (fh_dir_cluster f) (fh_dir_entry_idx f)
    (fh_first_cluster f) cluster offset (fh_file_size f) (fh_position f) (fh_path f).
Definition set_fh_file_size v (f : MimicFile) :=
  mkHandle (fh_open f) (fh_is_dir f) (fh_mode f) (fh_dir_cluster f) (fh_dir_entry_idx f)
    (fh_first_cluster f) (fh_current_cluster f) (fh_cluster_offset f) v
    (fh_position f) (fh_path f).
Definition set_fh_position v (f : MimicFile) :=
  mkHandle (fh_open f) (fh_is_dir f) (fh_mode f) (fh_dir_cluster f) (fh_dir_entry_idx f)
    (fh_first_cluster f) (fh_current_cluster f) (fh_cluster_offset f) (fh_file_size f)
    v (fh_path f).

(** [files[fd]], for [fd] in range. *)
Definition handle (s : State) (fd : nat) : MimicFile := default handle_zero (files s !! fd).
Definition update_handle (fd : nat) (g : MimicFile -> MimicFile) : M unit :=
  modify (fun s => set_files (<[fd := g (handle s fd)]> (files s)) s).

Definition fd_in_range (fd : Z) : bool := negb ((fd <? 0) || (Z.of_nat MIMIC_MAX_FILES <=? fd)).

(** The [for] loop of [mimic_fseek], [n] clusters left to skip. *)
Fixpoint skip_clusters (n fd : nat) : M unit :=
  match n with
  | O => ret tt
  | S n' =>
    do s <- get;
    if fh_current_cluster (handle s fd) <? FAT32_EOC then
      do next <- fat32_get_fat_entry (fh_current_cluster (handle s fd));
      update_handle fd (fun f => set_fh_current next (fh_cluster_offset f) f) ;;
      skip_clusters n' fd
    else ret tt
  end.

Definition mimic_fseek (fd offset whence : Z) : M Z :=
  do s <- get;
  if negb (fd_in_range fd) then ret MIMIC_ERR_INVAL else
  let i := Z.to_nat fd in
  let f := handle s i in
  if negb (fh_open f) then ret MIMIC_ERR_INVAL else
  if negb ((whence =? MIMIC_SEEK_SET) || (whence =? MIMIC_SEEK_CUR) || (whence =? MIMIC_SEEK_END))
  then ret MIMIC_ERR_INVAL else
  let new_pos :=
    if whence =? MIMIC_SEEK_SET then s32 offset
    else if whence =? MIMIC_SEEK_CUR then s32 (fh_position f + offset)
    else s32 (fh_file_size f + offset) in
  let new_pos := if new_pos <? 0 then 0 else new_pos in
  let new_pos := if s32 (fh_file_size f) <? new_pos then s32 (fh_file_size f) else new_pos in
  update_handle i (fun f => set_fh_current (fh_first_cluster f) 0 (set_fh_position (u32 new_pos) f)) ;;
  skip_clusters (Z.to_nat (u32 new_pos / vol_bytes_per_cluster (vol s))) i ;;
  update_handle i (fun f => set_fh_current (fh_current_cluster f)
                              (u32 new_pos mod vol_bytes_per_cluster (vol s)) f) ;;
  ret MIMIC_OK.

Fixpoint free_slot (n i : nat) (fs : list MimicFile) : option nat :=
  match n with
  | O => None
  | S n' => if negb (fh_open (default handle_zero (fs !! i))) then Some i
            else free_slot n' (S i) fs
  end.

(** [mimic_fopen]; [stack_entry] is what the local [entry] holds before
    [fat32_resolve_path] fills it, [None] the result when [fuel] ran out.  The
    handle is cleared and then set from the directory entry: [dir_cluster] and
    [dir_entry_idx] stay 0. *)
Definition mimic_fopen (fuel : nat) (stack_entry : Fat32DirEntry) (path : list Z) (mode : Z)
    : M (option Z) :=
  let mode := u8 mode in
  do s <- get;
  match free_slot MIMIC_MAX_FILES 0 (files s) with
  | None => ret (Some MIMIC_ERR_NOMEM)
  | Some fd =>
    update_handle fd (fun _ => handle_zero) ;;
    do r <- fat32_resolve_path fuel path stack_entry;
    match r with
    | None => ret None
    | Some (err, _, entry) =>
      if (err =? MIMIC_ERR_NOENT) && negb (Z.land mode MIMIC_FILE_CREATE =? 0)
      then ret (Some MIMIC_ERR_NOSYS)
      else if negb (err =? MIMIC_OK) then ret (Some err)
      else if negb (Z.land (de_attr entry) FAT_ATTR_DIRECTORY =? 0)
      then ret (Some MIMIC_ERR_INVAL)
      else
        let first := entry_cluster entry in
        update_handle fd (fun _ =>
          mkHandle true false mode 0 0 first first 0 (de_file_size entry) 0
            (take (MIMIC_MAX_PATH - 1) path)) ;;
        (if negb (Z.land mode MIMIC_FILE_APPEND =? 0)
         then mimic_fseek (Z.of_nat fd) 0 MIMIC_SEEK_END else ret MIMIC_OK) ;;
        ret (Some (Z.of_nat fd))
    end
  end.

(** [mimic_fclose]. *)
Definition mimic_fclose (fd : Z) : M Z :=
  do s <- get;
  if negb (fd_in_range fd) then ret MIMIC_ERR_INVAL else
  if negb (fh_open (handle s (Z.to_nat fd))) then ret MIMIC_ERR_INVAL else
  fat32_flush_cache ;;
  update_handle (Z.to_nat fd) (set_fh_open false) ;;
  ret MIMIC_OK.

Definition written_or (bytes_written err : Z) : Z :=
  if 0 <? bytes_written then s32 bytes_written else err.

(** The end of a pass of the [while] loop of [mimic_fwrite]: the move to
    the next cluster.  [Some r] when the function returns [r] from here. *)
Definition next_cluster (fd : nat) (bytes_written : Z) : M (option Z) :=
  do s <- get;
  let f := handle s fd in
  if vol_bytes_per_cluster (vol s) <=? fh_cluster_offset f then
    do next <- fat32_get_fat_entry (fh_current_cluster f);
    if FAT32_EOC <=? next then
      do next <- fat32_alloc_cluster;
      if next =? 0 then fat32_flush_cache ;; ret (Some (s32 bytes_written))
      else
        fat32_set_fat_entry (fh_current_cluster f) next ;;
        update_handle fd (set_fh_current next 0) ;; ret None
    else update_handle fd (set_fh_current next 0) ;; ret None
  else ret None.

(** The start of a pass: a cluster is allocated when the handle has none. *)
Definition need_cluster (fd : nat) : M bool :=
  do s <- get;
  let f := handle s fd in
  if (fh_current_cluster f =? 0) || (FAT32_EOC <=? fh_current_cluster f) then
    do new_cluster <- fat32_alloc_cluster;
    if new_cluster =? 0 then ret false
    else
      update_handle fd (fun f =>
        set_fh_current new_cluster 0
          (if fh_first_cluster f =? 0 then set_fh_first_cluster new_cluster f else f)) ;;
      ret true
  else ret true.

(** The [while (bytes_written < size)] loop; every pass copies at least one
    byte, so [n] passes are enough for [n] bytes.  A whole sector is copied
    into the cache without [fat32_read_sector]: [cached_sector] stays what it
    was. *)
Fixpoint fwrite_loop (n fd : nat) (inp : list Z) (bytes_written : Z) : M Z :=
  let size := Z.of_nat (length inp) in
  if negb (bytes_written <? size) then fat32_flush_cache ;; ret (s32 bytes_written) else
  match n with
  | O => ret (s32 bytes_written)
  | S n' =>
    do ok <- need_cluster fd;
    if negb ok then ret (written_or bytes_written MIMIC_ERR_NOMEM) else
    do s <- get;
    let f := handle s fd in
    let sector_in_cluster := fh_cluster_offset f / 512 in
    let offset_in_sector := fh_cluster_offset f mod 512 in
    let sector := u32 (fat32_cluster_to_sector (vol s) (fh_current_cluster f)
                       + sector_in_cluster) in
    do err <- (if negb (offset_in_sector =? 0) || (size - bytes_written <? 512)
               then fat32_read_sector sector else ret MIMIC_OK);
    if negb (err =? MIMIC_OK) then ret (written_or bytes_written MIMIC_ERR_IO) else
    let bytes_in_sector := 512 - offset_in_sector in
    let bytes_to_copy := Z.min (size - bytes_written) bytes_in_sector in
    do s <- get;
    set_sector_buf (buf_write (vol_sector_buf (vol s)) (Z.to_nat offset_in_sector)
                      (take (Z.to_nat bytes_to_copy) (drop (Z.to_nat bytes_written) inp))) ;;
    fat32_cache_dirty ;;
    let bytes_written := bytes_written + bytes_to_copy in
    update_handle fd (fun f =>
      let position := u32 (fh_position f + bytes_to_copy) in
      let f := set_fh_current (fh_current_cluster f) (u32 (fh_cluster_offset f + bytes_to_copy))
                 (set_fh_position position f) in
      if fh_file_size f <? position then set_fh_file_size position f else f) ;;
    do r <- next_cluster fd bytes_written;
    match r with
    | Some res => ret res
    | None => fwrite_loop n' fd inp bytes_written
    end
  end.

(** [mimic_fwrite(fd, buf, size)], [inp] the [size] bytes of [buf]. *)
Definition mimic_fwrite (fd : Z) (inp : list Z) : M Z :=
  do s <- get;
  if negb (fd_in_range fd) then ret MIMIC_ERR_INVAL else
  let f := handle s (Z.to_nat fd) in
  if negb (fh_open f) then ret MIMIC_ERR_INVAL else
  if Z.land (fh_mode f) MIMIC_FILE_WRITE =? 0 then ret MIMIC_ERR_PERM else
  fwrite_loop (length inp) (Z.to_nat fd) inp 0.

(** *** Scenario: six bytes written to an empty file

    A mounted volume of one-sector clusters: the FAT in sector 32, the data
    area from sector 33, the root directory in cluster 2.  The root directory
    holds one entry, [OUT.TXT], of size 0 and first cluster 0; clusters 3 and
    up are free. *)
Definition mounted_vol : MimicVolume :=
  mkVol true 1 512 32 1 2 33 64 0xFFFFFFFF (replicate 512 0) false.

Definition fat_sector : list Z :=
  Files.le32 0x0FFFFFF8 ++ Files.le32 0x0FFFFFFF ++ Files.le32 0x0FFFFFFF ++ replicate 500 0.

(** [OUT     TXT], attribute ARCHIVE, the other fields 0. *)
Definition out_txt_entry : list Z :=
  [79; 85; 84; 32; 32; 32; 32; 32; 84; 88; 84; FAT_ATTR_ARCHIVE] ++ replicate 20 0.

Definition root_sector : list Z := out_txt_entry ++ replicate 480 0.

Definition empty_file_volume : State :=
  mkState mounted_vol (replicate MIMIC_MAX_FILES handle_zero)
    (<[32 := fat_sector]> (<[33 := root_sector]> ∅)) (fun _ => false).

(** [/out.txt] and [hello\n]. *)
Definition out_path : list Z := [47; 111; 117; 116; 46; 116; 120; 116].
Definition hello : list Z := [104; 101; 108; 108; 111; 10].

Definition zero_entry : Fat32DirEntry := mkDirEntry [] [] 0 0 0 0.

(** Open for writing, write, close: the three results and the handle as it
    was when [mimic_fclose] was called. *)
Definition write_and_close (path data : list Z) : M (option (Z * Z * Z * MimicFile)) :=
  do fd <- mimic_fopen 8 zero_entry path MIMIC_FILE_WRITE;
  match fd with
  | None => ret None
  | Some fd =>
    do n <- mimic_fwrite fd data;
    do s <- get;
    do r <- mimic_fclose fd;
    ret (Some (fd, n, r, handle s (Z.to_nat fd)))
  end.

(** The directory entry of [OUT.TXT] as the card holds it. *)
Definition out_txt_on_card (s : State) : Fat32DirEntry := dir_entry_at (sector_data s 33) 0.

(** One whole sector of data. *)
Definition whole_sector : list Z := replicate 512 7.

(** *** The volume as the file layer sees it through the cache *)

(** The contents of sector [n]: the cache buffer when it holds [n] and is
    dirty, else what the card holds. *)
Definition view (s : State) (n : Z) : list Z :=
  if vol_cache_dirty (vol s) && (vol_cached_sector (vol s) =? n)
  then vol_sector_buf (vol s) else sector_data s n.

(** A clean cache holds what the card holds for the cached sector. *)
Definition coherent (s : State) : Prop :=
  vol_cache_dirty (vol s) = false ->
  vol_sector_buf (vol s) = sector_data s (vol_cached_sector (vol s)).

(** The card is initialised and answers every command. *)
Definition card_ok (s : State) : Prop :=
  vol_initialized (vol s) = true /\ forall n, sd_bad s n = false.

(** The buffer and the sectors on the card are 512 bytes long. *)
Definition well_sized (s : State) : Prop :=
  length (vol_sector_buf (vol s)) = 512%nat
  /\ forall n sec, sd_sectors s !! n = Some sec -> length sec = 512%nat.

(** A card that answers every command, behind a cache that agrees with it. *)
Definition healthy (s : State) : Prop := card_ok s /\ coherent s /\ well_sized s.

(** [s'] differs from [s] in the cache and, possibly, on the card. *)
Definition same_volume (s s' : State) : Prop :=
  files s' = files s /\ exists c b d, vol s' = set_cache c b d (vol s).

(** The FAT entry of a cluster, read through the cache. *)
Definition fat_entry (s : State) (cluster : Z) : Z :=
  Z.land (Loader.le32_at (view s (fat_sector_of (vol s) cluster)) (fat_offset_of cluster))
    0x0FFFFFFF.

(** *** Scenario: a whole sector written inside a cluster

    A volume of two-sector clusters whose cache holds the FAT sector 32, and
    handle 0 open for writing at the start of cluster 3 (sectors 35 and 36). *)
Definition two_sector_vol : MimicVolume :=
  mkVol true 2 1024 32 1 2 33 64 32 fat_sector false.

Definition open_handle : MimicFile :=
  mkHandle true false MIMIC_FILE_WRITE 0 0 3 3 0 0 0 out_path.

Definition open_file_volume : State :=
  mkState two_sector_vol (<[0%nat := open_handle]> (replicate MIMIC_MAX_FILES handle_zero))
    (<[32 := fat_sector]> ∅) (fun _ => false).

End Fat32.

(** * Properties *)

Ltac split_all := repeat match goal with |- _ /\ _ => split end.

(** ** Little-endian fields *)

Lemma testbit_255 m : Z.testbit 255 m = (0 <=? m) && (m <? 8).
Proof. change 255 with (Z.ones 8). by apply Z.testbit_ones. Qed.

Lemma testbit_above v n m : 0 <= v < 2 ^ n -> 0 <= n <= m -> Z.testbit v m = false.
Proof.
  intros Hv Hn. rewrite <- (Z.mod_small v (2 ^ n)) by done.
  by apply Z.mod_pow2_bits_high.
Qed.

Ltac bits_step :=
  match goal with
  | |- context [Z.testbit (Z.lor _ _) _] => rewrite Z.lor_spec
  | |- context [Z.testbit (Z.land _ _) _] => rewrite Z.land_spec
  | |- context [Z.testbit 255 _] => rewrite testbit_255
  | |- context [Z.testbit (Z.shiftl ?a ?k) ?m] =>
      first [ rewrite (Z.shiftl_spec a k m) by lia
            | rewrite (Z.testbit_neg_r (Z.shiftl a k) m) by lia ]
  | |- context [Z.testbit (Z.shiftr ?a ?k) ?m] =>
      first [ rewrite (Z.shiftr_spec a k m) by lia
            | rewrite (Z.testbit_neg_r (Z.shiftr a k) m) by lia ]
  end.

Ltac bools_step :=
  match goal with
  | |- context [?a <=? ?b] => destruct (Z.leb_spec a b); try lia
  | |- context [?a <? ?b] => destruct (Z.ltb_spec a b); try lia
  end.

Ltac bits_close v w :=
  repeat bits_step; repeat bools_step;
  rewrite ?andb_true_r, ?andb_false_r, ?orb_false_r, ?orb_false_l; cbn [andb orb];
  rewrite ?andb_true_r, ?andb_false_r, ?orb_false_r, ?orb_false_l;
  first [ done | f_equal; lia | symmetry; apply (testbit_above v w); lia ].

Lemma le32_at_le32 v : 0 <= v < 2 ^ 32 -> Loader.le32_at (Files.le32 v) 0 = v.
Proof.
  intros Hv. unfold Loader.le32_at, Loader.le16_at, Loader.byte_at, Files.le32. cbn.
  apply Z.bits_inj'. intros n Hn.
  destruct (Z.ltb_spec n 8); [|destruct (Z.ltb_spec n 16); [|destruct (Z.ltb_spec n 24);
    [|destruct (Z.ltb_spec n 32)]]].
  all: bits_close v 32.
Qed.

Lemma le16_at_le16 v : 0 <= v < 2 ^ 16 -> Loader.le16_at (Files.le16 v) 0 = v.
Proof.
  intros Hv. unfold Loader.le16_at, Loader.byte_at, Files.le16. cbn.
  apply Z.bits_inj'. intros n Hn.
  destruct (Z.ltb_spec n 8); [|destruct (Z.ltb_spec n 16)].
  all: bits_close v 16.
Qed.

Lemma byte_at_app_r l1 l2 i : Loader.byte_at (l1 ++ l2) (length l1 + i) = Loader.byte_at l2 i.
Proof. unfold Loader.byte_at. by rewrite lookup_app_r, Nat.add_comm, Nat.add_sub by lia. Qed.

Lemma byte_at_app_l l1 l2 i : (i < length l1)%nat ->
  Loader.byte_at (l1 ++ l2) i = Loader.byte_at l1 i.
Proof. intros. unfold Loader.byte_at. by rewrite lookup_app_l. Qed.

Lemma le16_at_app_r l1 l2 i : Loader.le16_at (l1 ++ l2) (length l1 + i) = Loader.le16_at l2 i.
Proof. unfold Loader.le16_at. by rewrite <- Nat.add_assoc, !byte_at_app_r. Qed.

Lemma le32_at_app_r l1 l2 i : Loader.le32_at (l1 ++ l2) (length l1 + i) = Loader.le32_at l2 i.
Proof. unfold Loader.le32_at. by rewrite <- Nat.add_assoc, !le16_at_app_r. Qed.

Lemma le16_at_app_l l1 l2 i : (i + 2 <= length l1)%nat ->
  Loader.le16_at (l1 ++ l2) i = Loader.le16_at l1 i.
Proof. intros. unfold Loader.le16_at. rewrite !byte_at_app_l; [done|lia..]. Qed.

Lemma le32_at_app_l l1 l2 i : (i + 4 <= length l1)%nat ->
  Loader.le32_at (l1 ++ l2) i = Loader.le32_at l1 i.
Proof. intros. unfold Loader.le32_at. rewrite !le16_at_app_l; [done|lia..]. Qed.

(** The masks of a FAT32 entry: 28 bits of cluster number, 4 reserved bits. *)
Lemma testbit_low28 n : 0 <= n -> Z.testbit 0x0FFFFFFF n = (n <? 28).
Proof. intros. change 0x0FFFFFFF with (Z.ones 28). by apply Z.testbit_ones_nonneg. Qed.

Lemma testbit_high4 n : 0 <= n -> Z.testbit 0xF0000000 n = (28 <=? n) && (n <? 32).
Proof.
  intros. change 0xF0000000 with (Z.shiftl (Z.ones 4) 28).
  rewrite Z.shiftl_spec, Z.testbit_ones by lia.
  destruct (Z.leb_spec 0 (n - 28)), (Z.leb_spec 28 n), (Z.ltb_spec (n - 28) 4),
    (Z.ltb_spec n 32); simpl; lia.
Qed.

Lemma fat_entry_merge v old :
  let new := Z.lor (Z.land v 0x0FFFFFFF) (Z.land old 0xF0000000) in
  0 <= new < 2 ^ 32
  /\ Z.land new 0x0FFFFFFF = Z.land v 0x0FFFFFFF
  /\ Z.land new 0xF0000000 = Z.land old 0xF0000000.
Proof.
  intros new.
  assert (forall n, 0 <= n -> Z.testbit new n
            = (Z.testbit v n && (n <? 28)) || (Z.testbit old n && ((28 <=? n) && (n <? 32))))
    as Hbits.
  { intros n Hn. unfold new. by rewrite Z.lor_spec, !Z.land_spec, testbit_low28, testbit_high4. }
  split; [|split].
  - assert (new = new mod 2 ^ 32) as ->; [|by apply Z.mod_pos_bound].
    apply Z.bits_inj'. intros n Hn. destruct (Z.ltb_spec n 32).
    + by rewrite Z.mod_pow2_bits_low.
    + rewrite Z.mod_pow2_bits_high, Hbits by lia.
      destruct (Z.ltb_spec n 28), (Z.leb_spec 28 n), (Z.ltb_spec n 32);
        first [lia | by rewrite !andb_false_r].
  - apply Z.bits_inj'. intros n Hn. rewrite !Z.land_spec, Hbits, testbit_low28 by done.
    destruct (Z.ltb_spec n 28), (Z.leb_spec 28 n); try lia;
      rewrite ?andb_true_r, ?andb_false_r, ?orb_false_r; cbn [andb orb]; try done.
  - apply Z.bits_inj'. intros n Hn. rewrite !Z.land_spec, Hbits, testbit_high4 by done.
    destruct (Z.ltb_spec n 28), (Z.leb_spec 28 n), (Z.ltb_spec n 32); try lia;
      rewrite ?andb_true_r, ?andb_false_r, ?orb_false_r, ?orb_false_l; cbn [andb orb];
      rewrite ?andb_true_r, ?andb_false_r, ?orb_false_r, ?orb_false_l; try done.
Qed.

Lemma s32_small x : 0 <= x < 2 ^ 31 -> s32 x = x.
Proof.
  intros Hx. unfold s32, u32. rewrite Z.mod_small by lia.
  destruct (Z.ltb_spec x (2 ^ 31)); lia.
Qed.

Lemma u8_byte x : 0 <= x < 256 -> u8 x = x.
Proof. intros. unfold u8. by apply Z.mod_small. Qed.

(** ** Machine-integer facts *)

Section WordFacts.

Lemma u32_small x : 0 <= x < 2 ^ 32 -> u32 x = x.
Proof. intros H. unfold u32. apply Z.mod_small. lia. Qed.

Lemma u32_range x : 0 <= u32 x < 2 ^ 32.
Proof. unfold u32. apply Z.mod_pos_bound. lia. Qed.

Lemma land_align_mask x :
  0 <= x < 2 ^ 32 -> Z.land x (not32 (MIMIC_MEM_ALIGN - 1)) = 32 * (x / 32).
Proof.
  intros Hx.
  change (not32 (MIMIC_MEM_ALIGN - 1)) with (Z.shiftl (Z.ones 27) 5).
  change 32 with (2 ^ 5) at 1. rewrite Z.mul_comm, <- Z.shiftl_mul_pow2 by lia.
  change 32 with (2 ^ 5). rewrite <- Z.shiftr_div_pow2 by lia.
  apply Z.bits_inj'. intros n Hn.
  rewrite Z.land_spec.
  destruct (Z.ltb_spec n 5).
  - rewrite (Z.shiftl_spec_low (Z.ones 27)), (Z.shiftl_spec_low (Z.shiftr x 5)) by lia.
    apply andb_false_r.
  - rewrite (Z.shiftl_spec (Z.ones 27) 5 n Hn), (Z.shiftl_spec (Z.shiftr x 5) 5 n Hn).
    rewrite Z.shiftr_spec by lia.
    replace (n - 5 + 5) with n by lia.
    destruct (Z.ltb_spec n 32).
    + rewrite Z.ones_spec_low by lia. apply andb_true_r.
    + rewrite Z.ones_spec_high by lia. rewrite andb_false_r.
      symmetry. destruct (Z.eq_dec x 0) as [->|]; [apply Z.bits_0|].
      apply Z.bits_above_log2; [lia|].
      assert (Z.log2 x < 32) by (apply Z.log2_lt_pow2; lia). lia.
Qed.

End WordFacts.

(** ** Arena: sums over a block table *)

Section ArenaSums.

Variable f : MimicMemBlock -> Z.

Lemma sum_with_app l1 l2 : sum_with f (l1 ++ l2) = sum_with f l1 + sum_with f l2.
Proof. induction l1 as [|b l1 IH]; simpl; lia. Qed.

Lemma sum_with_insert l i b x :
  l !! i = Some b -> sum_with f (<[i:=x]> l) = sum_with f l - f b + f x.
Proof.
  revert i. induction l as [|a l IH]; intros [|i] H; simplify_eq/=; try lia.
  rewrite (IH i) by done. lia.
Qed.

Lemma sum_with_perm l1 l2 : l1 ≡ₚ l2 -> sum_with f l1 = sum_with f l2.
Proof. induction 1; simpl; lia. Qed.

Lemma sum_with_nonneg l : Forall (fun b => 0 <= f b) l -> 0 <= sum_with f l.
Proof. induction 1; simpl; lia. Qed.

Lemma sum_with_lookup_le l i b :
  Forall (fun b => 0 <= f b) l -> l !! i = Some b -> f b <= sum_with f l.
Proof.
  intros Hn. revert i. induction Hn as [|a l Ha Hl IH]; intros [|i] H; simplify_eq/=.
  - pose proof (sum_with_nonneg _ Hl). lia.
  - specialize (IH _ H). lia.
Qed.

End ArenaSums.

Section ArenaWeights.

Lemma free_used_split l : sum_with free_weight l + sum_with used_weight l = sum_with blk_size l.
Proof.
  induction l as [|b l IH]; simpl; [done|].
  unfold free_weight, used_weight in *. destruct (blk_free b); lia.
Qed.

Lemma nonneg_free_weight l : nonneg_sizes l -> Forall (fun b => 0 <= free_weight b) l.
Proof.
  intros H. eapply Forall_impl; [exact H|]. simpl.
  intros b Hb. unfold free_weight. destruct (blk_free b); lia.
Qed.

Lemma nonneg_used_weight l : nonneg_sizes l -> Forall (fun b => 0 <= used_weight b) l.
Proof.
  intros H. eapply Forall_impl; [exact H|]. simpl.
  intros b Hb. unfold used_weight. destruct (blk_free b); lia.
Qed.

Lemma all_free_weight l : all_free l -> sum_with free_weight l = sum_with blk_size l.
Proof.
  induction 1 as [|b l Hb _ IH]; simpl; [done|].
  unfold free_weight at 1. rewrite Hb, IH. done.
Qed.

End ArenaWeights.

(** ** Arena: the coalescing pass keeps the bytes of the table *)

Section Coalesce.

Lemma sort_step_perm l j : Arena.sort_step l j ≡ₚ l.
Proof.
  unfold Arena.sort_step.
  destruct (l !! j) as [a|] eqn:Ha; [|done].
  destruct (l !! S j) as [b|] eqn:Hb; [|done].
  destruct (blk_addr b <? blk_addr a); [|done].
  by apply Permutation_insert_swap.
Qed.

Lemma sort_inner_perm n j l : Arena.sort_inner n j l ≡ₚ l.
Proof.
  revert j l. induction n as [|n IH]; intros j l; simpl; [done|].
  rewrite IH. apply sort_step_perm.
Qed.

Lemma sort_outer_perm n i c l : Arena.sort_outer n i c l ≡ₚ l.
Proof.
  revert i l. induction n as [|n IH]; intros i l; simpl; [done|].
  rewrite IH. apply sort_inner_perm.
Qed.

Lemma merge_loop_sum n : forall i w l w' l',
  Arena.merge_loop n i w l = (w', l') ->
  (i + n = length l)%nat -> (w <= i)%nat -> (0 < i -> 0 < w)%nat ->
  nonneg_sizes l ->
  sum_with blk_size (take w l) + sum_with blk_size (drop i l) < 2 ^ 32 ->
  sum_with blk_size (take w' l') = sum_with blk_size (take w l) + sum_with blk_size (drop i l)
  /\ nonneg_sizes l' /\ (all_free l -> all_free l').
Proof.
  induction n as [|n IH]; intros i w l w' l' Hm Hlen Hwi Hpos Hnn Hsum; simpl in Hm.
  - simplify_eq. rewrite drop_ge by lia. simpl. split; [lia|done].
  - destruct (l !! i) as [bi|] eqn:Hbi.
    2:{ apply lookup_ge_None in Hbi. lia. }
    assert (0 <= blk_size bi) as Hbi0 by (eapply (Forall_lookup_1 _ _ _ _ Hnn Hbi)).
    assert (sum_with blk_size (drop i l)
            = blk_size bi + sum_with blk_size (drop (S i) l)) as Hd.
    { by rewrite (drop_S _ _ _ Hbi). }
    assert (Hcopy : forall w' l',
      Arena.merge_loop n (S i) (S w) (if (w =? i)%nat then l else <[w:=bi]> l) = (w', l') ->
      sum_with blk_size (take w' l')
        = sum_with blk_size (take w l) + sum_with blk_size (drop i l)
      /\ nonneg_sizes l' /\ (all_free l -> all_free l')).
    { clear Hm w' l'. intros w' l' Hm.
      set (l1 := if (w =? i)%nat then l else <[w:=bi]> l) in *.
      assert (l1 = <[w:=bi]> l) as Hl1.
      { unfold l1. destruct (Nat.eqb_spec w i) as [->|]; [|done].
        by rewrite list_insert_id. }
      assert (w < length l)%nat as Hwl by (apply lookup_lt_Some in Hbi; lia).
      assert (take (S w) l1 = take w l ++ [bi]) as Htk.
      { rewrite Hl1. rewrite (take_S_r _ _ bi).
        - by rewrite take_insert_ge by lia.
        - by apply list_lookup_insert_eq. }
      assert (drop (S i) l1 = drop (S i) l) as Hdr.
      { rewrite Hl1. destruct (decide (w = i)) as [->|].
        - by rewrite list_insert_id.
        - by rewrite drop_insert_lt by lia. }
      destruct (IH (S i) (S w) l1 w' l' Hm) as (H1 & H2 & H3).
      + rewrite Hl1, length_insert. lia.
      + lia.
      + lia.
      + rewrite Hl1. by apply Forall_insert.
      + rewrite Htk, Hdr, sum_with_app. simpl. lia.
      + split; [|split]; [|done|].
        * rewrite H1, Htk, Hdr, sum_with_app. simpl. lia.
        * intros Hf. apply H3. rewrite Hl1. apply Forall_insert; [done|].
          eapply (Forall_lookup_1 _ _ _ _ Hf Hbi). }
    destruct (0 <? i)%nat eqn:Hi0; [|by apply Hcopy].
    apply Nat.ltb_lt in Hi0.
    destruct (l !! (w - 1)%nat) as [bp|] eqn:Hbp; [|by apply Hcopy].
    destruct (blk_free bp && blk_free bi && (u32 (blk_addr bp + blk_size bp) =? blk_addr bi))
      eqn:Hc; [|by apply Hcopy].
    clear Hcopy.
    assert (0 < w)%nat as Hw by lia.
    assert (0 <= blk_size bp) as Hbp0 by (eapply (Forall_lookup_1 _ _ _ _ Hnn Hbp)).
    assert (take w l !! (w - 1)%nat = Some bp) as Htp.
    { rewrite lookup_take_lt by lia. done. }
    assert (nonneg_sizes (take w l)) as Hnt by (by apply Forall_take).
    assert (nonneg_sizes (drop (S i) l)) as Hnd by (by apply Forall_drop).
    pose proof (sum_with_lookup_le _ _ _ _ Hnt Htp) as Hle.
    pose proof (sum_with_nonneg _ _ Hnd) as Hdn.
    assert (u32 (blk_size bp + blk_size bi) = blk_size bp + blk_size bi) as Hu.
    { apply u32_small. lia. }
    set (bp' := Arena.set_blk_size (u32 (blk_size bp + blk_size bi)) bp) in *.
    assert (blk_size bp' = blk_size bp + blk_size bi) as Hbp' by (unfold bp'; simpl; lia).
    destruct (IH (S i) w (<[(w - 1)%nat:=bp']> l) w' l' Hm) as (H1 & H2 & H3).
    + rewrite length_insert. lia.
    + lia.
    + lia.
    + apply Forall_insert; [done|]. lia.
    + rewrite take_insert_lt by lia. rewrite drop_insert_lt by lia.
      rewrite (sum_with_insert _ _ _ bp) by done. lia.
    + split; [|split]; [|done|].
      * rewrite H1. rewrite take_insert_lt by lia. rewrite drop_insert_lt by lia.
        rewrite (sum_with_insert _ _ _ bp) by done. lia.
      * intros Hf. apply H3. apply Forall_insert; [done|].
        unfold bp'. simpl. eapply (Forall_lookup_1 _ _ _ _ Hf Hbp).
Qed.

(** Sorting and merging an all-free table of non-negative sizes keeps the
    total and leaves every block free. *)
Lemma coalesce_blocks_sum p k :
  nonneg_sizes (pool_blocks p k) ->
  sum_with blk_size (pool_blocks p k) < 2 ^ 32 ->
  let bs' := pool_blocks p (Arena.mem_coalesce_pool p k) in
  sum_with blk_size bs' = sum_with blk_size (pool_blocks p k)
  /\ nonneg_sizes bs'
  /\ (all_free (pool_blocks p k) -> all_free bs').
Proof.
  intros Hnn Hsum. unfold Arena.mem_coalesce_pool.
  set (bs := pool_blocks p k) in *.
  set (sorted := Arena.sort_outer _ _ _ bs).
  assert (sorted ≡ₚ bs) as Hperm by apply sort_outer_perm.
  destruct (Arena.merge_loop (length sorted) 0 0 sorted) as [w l'] eqn:Hm.
  destruct (merge_loop_sum _ _ _ _ _ _ Hm) as (H1 & H2 & H3).
  - lia.
  - lia.
  - lia.
  - unfold nonneg_sizes. by rewrite Hperm.
  - rewrite take_0, drop_0. simpl. rewrite (sum_with_perm _ _ _ Hperm). lia.
  - rewrite take_0, drop_0 in H1. simpl in H1.
    assert (pool_blocks p (set_pool_blocks p (take w l') k) = take w l') as ->.
    { by destruct p. }
    split; [|split].
    + rewrite H1. by apply sum_with_perm.
    + by apply Forall_take.
    + intros Hf. apply Forall_take. apply H3. unfold all_free. by rewrite Hperm.
Qed.

End Coalesce.

(** ** Arena: rounding of the request *)

Section AlignSize.

Lemma align_size_eq s : Arena.align_size s = 32 * (u32 (s + 31) / 32).
Proof.
  unfold Arena.align_size.
  replace (s + MIMIC_MEM_ALIGN - 1) with (s + 31) by (unfold MIMIC_MEM_ALIGN; lia).
  apply land_align_mask. apply u32_range.
Qed.

Lemma align_size_range s : 0 <= Arena.align_size s <= 0xFFFFFFE0.
Proof.
  rewrite align_size_eq. pose proof (u32_range (s + 31)) as H.
  assert (0 <= u32 (s + 31) / 32 < 2 ^ 27).
  { split; [apply Z.div_pos; lia|]. apply Z.div_lt_upper_bound; lia. }
  lia.
Qed.

Lemma align_size_mod s : Arena.align_size s mod 32 = 0.
Proof. rewrite align_size_eq. rewrite Z.mul_comm. apply Z.mod_mul. lia. Qed.

Lemma align_size_round_up s :
  0 <= s <= 2 ^ 32 - 32 -> s <= Arena.align_size s < s + 32.
Proof.
  intros Hs. rewrite align_size_eq. rewrite u32_small by lia.
  pose proof (Z.div_mod (s + 31) 32 ltac:(lia)).
  pose proof (Z.mod_pos_bound (s + 31) 32 ltac:(lia)). lia.
Qed.

End AlignSize.

(** ** Arena: the best-fit search *)

Section BestFit.

Lemma fits_dec size b :
  blk_free b && (size <=? blk_size b) = true <-> fits size b.
Proof. unfold fits. rewrite andb_true_iff, Z.leb_le. done. Qed.

(** Either nothing below the running best fits and the loop returns the
    running best, or it returns the first block of least size among the
    fitting ones. *)
Lemma best_fit_search_spec blocks : forall i size best,
  size < snd best ->
  (Arena.best_fit_search blocks i size best = best
   /\ forall b, b ∈ blocks -> fits size b -> snd best <= blk_size b)
  \/ (exists n b, blocks !! n = Some b /\ fits size b
       /\ Arena.best_fit_search blocks i size best = (i + Z.of_nat n, blk_size b)
       /\ blk_size b < snd best
       /\ forall m b', blocks !! m = Some b' -> fits size b' ->
            blk_size b <= blk_size b' /\ ((m < n)%nat -> blk_size b < blk_size b')).
Proof.
  induction blocks as [|b rest IH]; intros i size best Hbest; simpl.
  { left. split; [done|]. intros b Hb. by apply elem_of_nil in Hb. }
  assert (Hshift : forall best', size < snd best' ->
    (forall b', fits size b' -> b' = b -> snd best' <= blk_size b) ->
    (Arena.best_fit_search rest (i + 1) size best' = best'
       /\ forall b0, b0 ∈ b :: rest -> fits size b0 -> snd best' <= blk_size b0)
    \/ (exists n b1, (b :: rest) !! n = Some b1 /\ fits size b1
         /\ Arena.best_fit_search rest (i + 1) size best' = (i + Z.of_nat n, blk_size b1)
         /\ blk_size b1 < snd best'
         /\ forall m b', (b :: rest) !! m = Some b' -> fits size b' ->
              blk_size b1 <= blk_size b' /\ ((m < n)%nat -> blk_size b1 < blk_size b'))).
  { intros best' Hb' Hhead.
    destruct (IH (i + 1) size best' Hb') as [[Hr Hall]|(n & b1 & Hn & Hf1 & Hr & Hlt1 & Hmin)].
    - left. split; [done|].
      intros b0 [->|Hb0]%elem_of_cons Hf0; [by apply (Hhead b)|by apply Hall].
    - right. exists (S n), b1. split; [done|]. split; [done|].
      split; [rewrite Hr; f_equal; lia|]. split; [done|].
      intros [|m] b' Hm Hf'; simplify_eq/=.
      + specialize (Hhead b' Hf' eq_refl). split; [lia|]. intros _. lia.
      + destruct (Hmin m b' Hm Hf') as [H1 H2]. split; [done|]. intros ?. apply H2. lia. }
  destruct (blk_free b && (size <=? blk_size b)) eqn:Hfit.
  - apply fits_dec in Hfit. destruct (Z.ltb_spec (blk_size b) (snd best)) as [Hlt|Hge].
    + assert (Hpick : forall r, r = (i, blk_size b) ->
        (forall b', b' ∈ rest -> fits size b' -> blk_size b <= blk_size b') ->
        exists n b1, (b :: rest) !! n = Some b1 /\ fits size b1
          /\ r = (i + Z.of_nat n, blk_size b1) /\ blk_size b1 < snd best
          /\ forall m b', (b :: rest) !! m = Some b' -> fits size b' ->
               blk_size b1 <= blk_size b' /\ ((m < n)%nat -> blk_size b1 < blk_size b')).
      { intros r -> Hall. exists 0%nat, b. split; [done|]. split; [done|].
        split; [f_equal; lia|]. split; [done|].
        intros [|m] b' Hm Hf'; simplify_eq/=.
        - split; [lia|]. intros ?. lia.
        - split; [|intros ?; lia]. apply Hall; [|done]. apply list_elem_of_lookup. eauto. }
      destruct (Z.eqb_spec (blk_size b) size) as [Heq|Hne].
      * right. apply Hpick; [done|]. intros b' _ [_ Hf']. lia.
      * assert (size < blk_size b) as Hs by (destruct Hfit; lia).
        destruct (Hshift (i, blk_size b) Hs)
          as [[Hr Hall]|(n & b1 & Hn & Hf1 & Hr & Hlt1 & Hmin)].
        -- intros b' _ ->. simpl. lia.
        -- right. apply Hpick; [done|]. intros b' Hb' Hf'. apply (Hall b'); [|done].
           apply elem_of_cons. by right.
        -- right. exists n, b1. simpl in Hlt1. split; [done|]. split; [done|].
           split; [done|]. split; [lia|done].
    + apply Hshift; [done|]. intros b' _ ->. done.
  - assert (~ fits size b) as Hnf by (rewrite <- fits_dec; congruence).
    apply Hshift; [done|]. intros b' Hf' ->. done.
Qed.

(** An exact match ends the scan: the blocks behind it are not looked at. *)
Lemma best_fit_search_exact_stop pre b post1 post2 i size best :
  size < snd best -> blk_free b = true -> blk_size b = size ->
  Arena.best_fit_search (pre ++ b :: post1) i size best
  = Arena.best_fit_search (pre ++ b :: post2) i size best.
Proof.
  intros Hbest Hfree Hsz. revert i best Hbest.
  induction pre as [|a pre IH]; intros i best Hbest; simpl.
  - rewrite Hfree, Hsz, Z.leb_refl. simpl.
    destruct (Z.ltb_spec size (snd best)); [|lia].
    by rewrite Z.eqb_refl.
  - destruct (blk_free a && (size <=? blk_size a)) eqn:Hfit; [|by apply IH].
    destruct (Z.ltb_spec (blk_size a) (snd best)); [|by apply IH].
    destruct (Z.eqb_spec (blk_size a) size); [done|].
    apply IH. simpl. apply fits_dec in Hfit. destruct Hfit. lia.
Qed.

End BestFit.

(** ** Arena: what an allocation does *)

Section AllocCases.

Lemma pool_blocks_set_blocks p v k : pool_blocks p (set_pool_blocks p v k) = v.
Proof. by destruct p. Qed.

Lemma pool_free_set_blocks p v k :
  pool_free_bytes p (set_pool_blocks p v k) = pool_free_bytes p k.
Proof. by destruct p. Qed.

Lemma mem_alloc_from_pool_zero p task_id max_blocks k :
  Arena.mem_alloc_from_pool p 0 task_id max_blocks k = (NULL, k).
Proof. reflexivity. Qed.

Lemma mem_alloc_from_pool_found p size task_id max_blocks k n b :
  size <> 0 ->
  pool_blocks p k !! n = Some b ->
  Arena.best_fit_search (pool_blocks p k) 0 (Arena.align_size size) (0xFFFFFFFF, 0xFFFFFFFF)
    = (Z.of_nat n, blk_size b) ->
  Z.of_nat n <> 0xFFFFFFFF ->
  Arena.mem_alloc_from_pool p size task_id max_blocks k
  = alloc_result p k n b (Arena.align_size size) task_id
      ((u32 (Arena.align_size size + MIMIC_MIN_BLOCK_SPLIT) <? blk_size b)
       && (Z.of_nat (length (pool_blocks p k)) <? max_blocks)).
Proof.
  intros Hsz Hn Hsearch Hidx. unfold Arena.mem_alloc_from_pool.
  destruct (Z.eqb_spec size 0) as [|_]; [done|].
  cbv zeta. rewrite Hsearch.
  destruct (Z.eqb_spec (Z.of_nat n) 0xFFFFFFFF) as [|_]; [done|].
  cbn [negb]. rewrite Nat2Z.id, Hn.
  unfold alloc_result.
  destruct ((u32 (Arena.align_size size + MIMIC_MIN_BLOCK_SPLIT) <? blk_size b)
            && (Z.of_nat (length (pool_blocks p k)) <? max_blocks));
    destruct p; reflexivity.
Qed.

Lemma mem_alloc_from_pool_none p size task_id max_blocks k :
  size <> 0 ->
  Arena.best_fit_search (pool_blocks p k) 0 (Arena.align_size size) (0xFFFFFFFF, 0xFFFFFFFF)
    = (0xFFFFFFFF, 0xFFFFFFFF) ->
  Arena.mem_alloc_from_pool p size task_id max_blocks k
  = (NULL, set_failed_allocs (u32 (failed_allocs k + 1)) k).
Proof.
  intros Hsz Hsearch. unfold Arena.mem_alloc_from_pool.
  destruct (Z.eqb_spec size 0) as [|_]; [done|].
  cbv zeta. rewrite Hsearch. reflexivity.
Qed.

(** The two outcomes of an allocation of a non-zero size, for a table whose
    block sizes stay below the sentinel [0xFFFFFFFF]. *)
Lemma mem_alloc_from_pool_cases p size task_id max_blocks k :
  size <> 0 ->
  Forall (fun b => blk_size b < 0xFFFFFFFF) (pool_blocks p k) ->
  Z.of_nat (length (pool_blocks p k)) <= 0xFFFFFFFF ->
  let asz := Arena.align_size size in
  ((forall b, b ∈ pool_blocks p k -> ~ fits asz b)
   /\ Arena.mem_alloc_from_pool p size task_id max_blocks k
      = (NULL, set_failed_allocs (u32 (failed_allocs k + 1)) k))
  \/ (exists n b,
       pool_blocks p k !! n = Some b /\ fits asz b
       /\ (forall m b', pool_blocks p k !! m = Some b' -> fits asz b' ->
             blk_size b <= blk_size b' /\ ((m < n)%nat -> blk_size b < blk_size b'))
       /\ Arena.mem_alloc_from_pool p size task_id max_blocks k
          = alloc_result p k n b asz task_id
              ((u32 (asz + MIMIC_MIN_BLOCK_SPLIT) <? blk_size b)
               && (Z.of_nat (length (pool_blocks p k)) <? max_blocks))).
Proof.
  intros Hsz Hbound Hlen asz.
  pose proof (align_size_range size) as Hasz. fold asz in Hasz.
  destruct (best_fit_search_spec (pool_blocks p k) 0 asz (0xFFFFFFFF, 0xFFFFFFFF))
    as [[Hr Hall]|(n & b & Hn & Hfit & Hr & _ & Hmin)].
  - simpl. lia.
  - left. split.
    + intros b Hb Hf. specialize (Hall b Hb Hf). simpl in Hall.
      rewrite Forall_forall in Hbound. specialize (Hbound b Hb). lia.
    + by apply mem_alloc_from_pool_none.
  - right. exists n, b. split; [done|]. split; [done|]. split; [done|].
    rewrite Z.add_0_l in Hr.
    apply mem_alloc_from_pool_found; try done.
    apply lookup_lt_Some in Hn. lia.
Qed.

End AllocCases.

(** ** Arena: the pool invariant *)

Section PoolInvariant.

Variables cap max t : Z.
Hypothesis cap_small : cap + 64 < 2 ^ 32.
Hypothesis max_small : max < 0xFFFFFFFF.

Lemma pool_inv_size_le bs fb i b :
  pool_inv cap max t bs fb -> bs !! i = Some b -> 0 <= blk_size b <= cap.
Proof.
  intros [Hsum Hnn _ _ _] Hb. split.
  - eapply (Forall_lookup_1 _ _ _ _ Hnn Hb).
  - rewrite <- Hsum. by eapply (sum_with_lookup_le blk_size).
Qed.

Lemma pool_inv_free_range bs fb :
  pool_inv cap max t bs fb -> 0 <= fb /\ fb + sum_with used_weight bs = cap.
Proof.
  intros [Hsum Hnn _ _ ->]. split.
  - apply sum_with_nonneg. by apply nonneg_free_weight.
  - rewrite free_used_split. done.
Qed.

Lemma alloc_result_inv p k n b asz sp :
  pool_inv cap max t (pool_blocks p k) (pool_free_bytes p k) ->
  pool_blocks p k !! n = Some b ->
  fits asz b -> 0 <= asz ->
  sp = (u32 (asz + MIMIC_MIN_BLOCK_SPLIT) <? blk_size b)
       && (Z.of_nat (length (pool_blocks p k)) <? max) ->
  let k' := snd (alloc_result p k n b asz t sp) in
  pool_inv cap max t (pool_blocks p k') (pool_free_bytes p k').
Proof.
  intros Hinv Hn [Hfree Hfit] Hasz Hsp k'.
  pose proof (pool_inv_size_le _ _ _ _ Hinv Hn) as Hb.
  pose proof (pool_inv_free_range _ _ Hinv) as [Hfb0 Hfbcap].
  destruct Hinv as [Hsum Hnn Hlen Hown Hfb].
  set (bs := pool_blocks p k) in *.
  assert (sum_with used_weight bs >= 0) as Hused.
  { apply Z.le_ge. apply sum_with_nonneg. by apply nonneg_used_weight. }
  assert (blk_size b <= pool_free_bytes p k) as Hbfree.
  { rewrite Hfb. replace (blk_size b) with (free_weight b)
      by (unfold free_weight; by rewrite Hfree).
    apply (sum_with_lookup_le free_weight _ n); [by apply nonneg_free_weight|done]. }
  set (taken := if sp then asz else blk_size b).
  set (blk' := mkBlock (blk_addr b) taken t false (blk_pinned b)).
  set (bs1 := if sp
              then bs ++ [mkBlock (u32 (blk_addr b + asz)) (u32 (blk_size b - asz)) 0 true false]
              else bs).
  assert (pool_blocks p k' = <[n := blk']> bs1) as Hbs'.
  { unfold k', alloc_result. fold bs. by destruct p. }
  assert (pool_free_bytes p k' = u32 (pool_free_bytes p k - taken)) as Hfb'.
  { unfold k', alloc_result. fold bs. by destruct p. }
  rewrite Hbs', Hfb'.
  assert (u32 (blk_size b - asz) = blk_size b - asz) as Htail by (apply u32_small; lia).
  assert (0 <= taken <= blk_size b) as Htaken by (unfold taken; destruct sp; lia).
  rewrite (u32_small (pool_free_bytes p k - taken)) by lia.
  assert (bs1 !! n = Some b) as Hn1.
  { unfold bs1. destruct sp; [|done]. by apply lookup_app_l_Some. }
  assert (free_weight b = blk_size b) as Hfw by (unfold free_weight; by rewrite Hfree).
  split.
  - rewrite (sum_with_insert _ _ _ b) by done. unfold bs1. simpl.
    destruct sp; [|unfold taken; lia].
    rewrite sum_with_app. simpl. unfold taken. lia.
  - apply Forall_insert; [|simpl; lia]. unfold bs1. destruct sp; [|done].
    apply Forall_app. split; [done|]. apply Forall_singleton. simpl. lia.
  - rewrite length_insert. unfold bs1. destruct sp eqn:Hspv; [|done].
    symmetry in Hsp. apply andb_true_iff in Hsp as [_ Hl%Z.ltb_lt].
    rewrite length_app. simpl. lia.
  - apply Forall_insert; [|done]. unfold bs1. destruct sp; [|done].
    apply Forall_app. split; [done|]. apply Forall_singleton. simpl. done.
  - rewrite (sum_with_insert _ _ _ b) by done. rewrite Hfw. unfold bs1.
    change (free_weight blk') with 0.
    destruct sp; [|unfold taken; lia].
    rewrite sum_with_app. simpl. unfold free_weight at 2. simpl. unfold taken. lia.
Qed.

Lemma mem_alloc_from_pool_inv p size k :
  pool_inv cap max t (pool_blocks p k) (pool_free_bytes p k) ->
  let k' := snd (Arena.mem_alloc_from_pool p size t max k) in
  pool_inv cap max t (pool_blocks p k') (pool_free_bytes p k').
Proof.
  intros Hinv k'. unfold k'. clear k'.
  destruct (Z.eq_dec size 0) as [->|Hsz]; [done|].
  destruct (mem_alloc_from_pool_cases p size t max k Hsz)
    as [[_ ->]|(n & b & Hn & Hfit & _ & ->)].
  - apply Forall_lookup. intros i b Hb.
    pose proof (pool_inv_size_le _ _ _ _ Hinv Hb). lia.
  - destruct Hinv as [_ _ Hlen _ _]. lia.
  - simpl. by destruct p.
  - apply alloc_result_inv; try done. apply align_size_range.
Qed.

(** The loop of [mem_free_in_pool] frees the first in-use block at [ptr],
    unless that block is pinned. *)
Lemma free_search_Some bs ptr bs' sz :
  Arena.free_search bs ptr = Some (bs', sz) ->
  exists n b, bs !! n = Some b /\ blk_addr b = ptr /\ blk_free b = false
    /\ blk_pinned b = false /\ sz = blk_size b
    /\ bs' = <[n := Arena.set_blk_free true b]> bs
    /\ forall m b', (m < n)%nat -> bs !! m = Some b' ->
         ~ (blk_addr b' = ptr /\ blk_free b' = false).
Proof.
  revert bs' sz. induction bs as [|a bs IH]; intros bs' sz H; simpl in H; [done|].
  destruct ((blk_addr a =? ptr) && negb (blk_free a)) eqn:Hc.
  - destruct (blk_pinned a) eqn:Hp; [done|]. simplify_eq.
    apply andb_true_iff in Hc as [Ha%Z.eqb_eq Hf%negb_true_iff].
    exists 0%nat, a. repeat split; try done. intros m b' Hm. lia.
  - destruct (Arena.free_search bs ptr) as [[rest' sz']|] eqn:Hr; [|done].
    simplify_eq. destruct (IH _ _ eq_refl) as (n & b & Hn & Ha & Hf & Hp & Hs & Hbs & Hfirst).
    exists (S n), b. repeat split; try done.
    + simpl. by rewrite Hbs.
    + intros [|m] b' Hm Hb'; simplify_eq/=.
      * intros [Ha' Hf']. rewrite Ha', Hf', Z.eqb_refl in Hc. done.
      * apply (Hfirst m); [lia|done].
Qed.

Lemma mem_free_in_pool_inv p ptr k :
  pool_inv cap max t (pool_blocks p k) (pool_free_bytes p k) ->
  let k' := Arena.mem_free_in_pool p ptr k in
  pool_inv cap max t (pool_blocks p k') (pool_free_bytes p k').
Proof.
  intros Hinv k'. unfold k', Arena.mem_free_in_pool. clear k'.
  destruct (ptr =? NULL); [done|].
  destruct (Arena.free_search (pool_blocks p k) ptr) as [[bs' sz]|] eqn:Hs; [|done].
  destruct (free_search_Some _ _ _ _ Hs) as (n & b & Hn & _ & Hf & _ & -> & -> & _).
  pose proof (pool_inv_size_le _ _ _ _ Hinv Hn) as Hb.
  pose proof (pool_inv_free_range _ _ Hinv) as [Hfb0 Hfbcap].
  destruct Hinv as [Hsum Hnn Hlen Hown Hfb].
  set (bs := pool_blocks p k) in *.
  assert (blk_size b <= sum_with used_weight bs) as Hbused.
  { replace (blk_size b) with (used_weight b) by (unfold used_weight; by rewrite Hf).
    apply (sum_with_lookup_le used_weight _ n); [by apply nonneg_used_weight|done]. }
  assert (pool_blocks p (set_total_frees (u32 (total_frees (set_pool_free_bytes p
            (u32 (pool_free_bytes p (set_pool_blocks p (<[n:=Arena.set_blk_free true b]> bs) k)
                  + blk_size b))
            (set_pool_blocks p (<[n:=Arena.set_blk_free true b]> bs) k)) + 1))
            (set_pool_free_bytes p
              (u32 (pool_free_bytes p (set_pool_blocks p (<[n:=Arena.set_blk_free true b]> bs) k)
                    + blk_size b))
              (set_pool_blocks p (<[n:=Arena.set_blk_free true b]> bs) k)))
          = <[n:=Arena.set_blk_free true b]> bs) as ->.
  { by destruct p. }
  assert (pool_free_bytes p (set_total_frees (u32 (total_frees (set_pool_free_bytes p
            (u32 (pool_free_bytes p (set_pool_blocks p (<[n:=Arena.set_blk_free true b]> bs) k)
                  + blk_size b))
            (set_pool_blocks p (<[n:=Arena.set_blk_free true b]> bs) k)) + 1))
            (set_pool_free_bytes p
              (u32 (pool_free_bytes p (set_pool_blocks p (<[n:=Arena.set_blk_free true b]> bs) k)
                    + blk_size b))
              (set_pool_blocks p (<[n:=Arena.set_blk_free true b]> bs) k)))
          = u32 (pool_free_bytes p k + blk_size b)) as ->.
  { by destruct p. }
  rewrite u32_small by lia.
  split.
  - rewrite (sum_with_insert _ _ _ b) by done. simpl. lia.
  - apply Forall_insert; [done|]. simpl. lia.
  - by rewrite length_insert.
  - apply Forall_insert; [done|]. simpl. done.
  - rewrite (sum_with_insert _ _ _ b) by done.
    unfold free_weight at 2 3. simpl. rewrite Hf. lia.
Qed.

Lemma mimic_ufree_inv ptr k :
  pool_inv cap max t (user_blocks k) (user_free k) ->
  let k' := Arena.mimic_ufree t ptr k in
  pool_inv cap max t (user_blocks k') (user_free k').
Proof.
  intros Hinv. unfold Arena.mimic_ufree.
  destruct (Arena.owns (user_blocks k) t ptr); [|done].
  by apply (mem_free_in_pool_inv UserPool).
Qed.

(** The mass-free loop leaves every block free when no other task holds
    memory, and refunds the bytes that were in use. *)
Lemma free_all_loop_spec bs : forall fb fr bs' fb' fr',
  Arena.free_all_loop bs t (fb, fr) = (bs', (fb', fr')) ->
  owned_by t bs -> nonneg_sizes bs ->
  0 <= fb -> fb + sum_with used_weight bs < 2 ^ 32 ->
  all_free bs' /\ nonneg_sizes bs'
  /\ sum_with blk_size bs' = sum_with blk_size bs
  /\ fb' = fb + sum_with used_weight bs.
Proof.
  induction bs as [|b bs IH]; intros fb fr bs' fb' fr' H Hown Hnn Hfb Hsum; simpl in H.
  { simplify_eq. simpl. split; [constructor|]. split; [constructor|]. lia. }
  apply Forall_cons in Hown as [Hob Hown]. apply Forall_cons in Hnn as [Hnb Hnn].
  simpl in Hsum.
  assert (0 <= sum_with used_weight bs) as Hu.
  { apply sum_with_nonneg. by apply nonneg_used_weight. }
  destruct ((blk_task_id b =? t) && negb (blk_free b)) eqn:Hc.
  - apply andb_true_iff in Hc as [_ Hf%negb_true_iff].
    assert (used_weight b = blk_size b) as Huw by (unfold used_weight; by rewrite Hf).
    destruct (Arena.free_all_loop bs t (u32 (fb + blk_size b), u32 (fr + 1)))
      as [rest' [a1 a2]] eqn:Hr.
    simplify_eq. rewrite u32_small in Hr by lia.
    destruct (IH _ _ _ _ _ Hr) as (H1 & H2 & H3 & H4); try done; try lia.
    split; [by constructor|]. split; [by constructor|]. simpl. lia.
  - destruct (Arena.free_all_loop bs t (fb, fr)) as [rest' [a1 a2]] eqn:Hr.
    simplify_eq.
    assert (blk_free b = true) as Hf.
    { destruct (blk_free b) eqn:Hf; [done|].
      rewrite (Hob eq_refl), Z.eqb_refl in Hc. done. }
    assert (used_weight b = 0) as Huw by (unfold used_weight; by rewrite Hf).
    destruct (IH _ _ _ _ _ Hr) as (H1 & H2 & H3 & H4); try done; try lia.
    split; [by constructor|]. split; [by constructor|]. simpl. lia.
Qed.

Lemma mass_free_from_inv k :
  pool_inv cap max t (user_blocks k) (user_free k) ->
  let k' := Arena.mimic_task_free_all_memory t k in
  free_block_bytes (user_blocks k') = cap /\ user_free k' = cap
  /\ all_free (user_blocks k').
Proof.
  intros Hinv k'. unfold k', Arena.mimic_task_free_all_memory. clear k'.
  pose proof (pool_inv_free_range _ _ Hinv) as [Hfb0 Hfbcap].
  destruct Hinv as [Hsum Hnn Hlen Hown Hfb].
  destruct (Arena.free_all_loop (user_blocks k) t (user_free k, total_frees k))
    as [bs' [fb' fr']] eqn:Hl.
  destruct (free_all_loop_spec _ _ _ _ _ _ Hl) as (H1 & H2 & H3 & H4); try done; try lia.
  set (k1 := set_total_frees fr' (set_user_free fb' (set_user_blocks bs' k))).
  destruct (coalesce_blocks_sum UserPool k1) as (C1 & C2 & C3).
  - done.
  - simpl. lia.
  - simpl in C1, C2, C3. specialize (C3 H1).
    unfold free_block_bytes. rewrite (all_free_weight _ C3).
    split; [lia|]. split; [|done].
    unfold Arena.mem_coalesce_pool.
    destruct (Arena.merge_loop _ _ _ _). simpl. lia.
Qed.

End PoolInvariant.

(** ** Arena: the contract of the allocator *)

Section ArenaContract.

Lemma mem_init_inv target kernel_heap user_heap task_id k :
  let k1 := Arena.mem_init target kernel_heap user_heap k in
  pool_inv (MIMIC_USER_HEAP target) (MIMIC_MAX_MEM_BLOCKS target) task_id
    (user_blocks k1) (user_free k1).
Proof.
  simpl. split; simpl.
  - lia.
  - apply Forall_singleton. simpl. destruct target; simpl; lia.
  - destruct target; simpl; lia.
  - by apply Forall_singleton.
  - unfold free_weight. simpl. lia.
Qed.

Lemma run_ops_inv target task_id ops : forall k,
  pool_inv (MIMIC_USER_HEAP target) (MIMIC_MAX_MEM_BLOCKS target) task_id
    (user_blocks k) (user_free k) ->
  let k' := run_ops target task_id ops k in
  pool_inv (MIMIC_USER_HEAP target) (MIMIC_MAX_MEM_BLOCKS target) task_id
    (user_blocks k') (user_free k').
Proof.
  assert (MIMIC_USER_HEAP target + 64 < 2 ^ 32) as Hcap by (destruct target; simpl; lia).
  assert (MIMIC_MAX_MEM_BLOCKS target < 0xFFFFFFFF) as Hmax by (destruct target; simpl; lia).
  induction ops as [|op ops IH]; intros k Hinv; [done|].
  simpl. apply IH. destruct op as [size|ptr]; simpl.
  - by apply (mem_alloc_from_pool_inv _ _ _ Hcap Hmax UserPool).
  - by apply mimic_ufree_inv.
Qed.

(** C5.  Start from the freshly initialised arena and let task [task_id]
    issue any sequence of user-arena allocations (and frees of its own);
    no other task holds memory.  After [mimic_task_free_all_memory task_id],
    which marks every in-use block of the task free and then coalesces, the
    sizes of the free blocks add up to the capacity of the user pool, and so
    does the pool's free-byte counter. *)
Theorem mass_free_restores_capacity
    (target : Target) (kernel_heap user_heap task_id : Z)
    (ops : list ArenaOp) (k0 : MimicKernel) :
  let k1 := run_ops target task_id ops (Arena.mem_init target kernel_heap user_heap k0) in
  let k2 := Arena.mimic_task_free_all_memory task_id k1 in
  free_block_bytes (user_blocks k2) = MIMIC_USER_HEAP target
  /\ user_free k2 = MIMIC_USER_HEAP target.
Proof.
  intros k1 k2.
  assert (pool_inv (MIMIC_USER_HEAP target) (MIMIC_MAX_MEM_BLOCKS target) task_id
            (user_blocks k1) (user_free k1)) as Hinv.
  { apply run_ops_inv. apply mem_init_inv. }
  assert (MIMIC_USER_HEAP target + 64 < 2 ^ 32) as Hcap by (destruct target; simpl; lia).
  destruct (mass_free_from_inv _ _ _ Hcap k1 Hinv) as (H1 & H2 & _).
  done.
Qed.

(** What [mem_alloc_from_pool] does in a pool whose block sizes are below
    [2^32 - 64]: a request of size 0 returns [NULL] and changes nothing;
    [free(NULL)] changes nothing; the rounded request is a multiple of 32, and
    the least one not below the request for requests up to [2^32 - 32]; the
    scan stops at an exact match; and a non-zero request obeys
    [alloc_contract]: first best fit, split exactly when the chosen block is
    larger than the rounded request by more than [MIMIC_MIN_BLOCK_SPLIT] and
    the table is not full, base address returned, [NULL] and
    [failed_allocs + 1] when nothing fits. *)
Theorem mem_alloc_from_pool_best_fit
    (p : PoolId) (k : MimicKernel) (size task_id max_blocks : Z) :
  Forall (fun b => blk_size b < 2 ^ 32 - 64) (pool_blocks p k) ->
  Z.of_nat (length (pool_blocks p k)) <= 0xFFFFFFFF ->
  Arena.mem_alloc_from_pool p 0 task_id max_blocks k = (NULL, k)
  /\ Arena.mem_free_in_pool p NULL k = k
  /\ Arena.align_size size mod 32 = 0
  /\ (0 <= size <= 2 ^ 32 - 32 -> size <= Arena.align_size size < size + 32)
  /\ (forall pre b post1 post2,
        blk_free b = true -> blk_size b = Arena.align_size size ->
        Arena.best_fit_search (pre ++ b :: post1) 0 (Arena.align_size size)
          (0xFFFFFFFF, 0xFFFFFFFF)
        = Arena.best_fit_search (pre ++ b :: post2) 0 (Arena.align_size size)
            (0xFFFFFFFF, 0xFFFFFFFF))
  /\ (size <> 0 -> alloc_contract p k size task_id max_blocks).
Proof.
  intros Hbound Hlen.
  split; [reflexivity|]. split; [reflexivity|].
  split; [apply align_size_mod|]. split; [apply align_size_round_up|].
  pose proof (align_size_range size) as Hasz.
  split.
  - intros pre b post1 post2 Hf Hs. apply best_fit_search_exact_stop; [simpl; lia|done|done].
  - intros Hsz. unfold alloc_contract.
    destruct (mem_alloc_from_pool_cases p size task_id max_blocks k Hsz)
      as [[Hnone Heq]|(n & b & Hn & Hfit & Hmin & Heq)].
    + eapply Forall_impl; [exact Hbound|]. simpl. intros; lia.
    + done.
    + left. done.
    + right. exists n, b. split; [done|]. split; [done|]. split; [done|].
      rewrite Heq. do 3 f_equal.
      rewrite u32_small; [done|].
      rewrite Forall_forall in Hbound.
      assert (b ∈ pool_blocks p k) as Hb by (apply list_elem_of_lookup; eauto).
      specialize (Hbound b Hb). destruct Hfit. unfold MIMIC_MIN_BLOCK_SPLIT. lia.
Qed.

Lemma mem_alloc_from_pool_best_fit_witness :
  let k := Arena.mem_init RP2040 0x20001000 0x20010000 kernel_zero in
  Forall (fun b => blk_size b < 2 ^ 32 - 64) (pool_blocks UserPool k)
  /\ Z.of_nat (length (pool_blocks UserPool k)) <= 0xFFFFFFFF
  /\ alloc_contract UserPool k 100 1 64.
Proof.
  intros k.
  assert (Forall (fun b => blk_size b < 2 ^ 32 - 64) (pool_blocks UserPool k)) as H1.
  { apply Forall_singleton. simpl. lia. }
  assert (Z.of_nat (length (pool_blocks UserPool k)) <= 0xFFFFFFFF) as H2.
  { simpl. lia. }
  split; [exact H1|]. split; [exact H2|].
  apply (mem_alloc_from_pool_best_fit UserPool k 100 1 64 H1 H2). lia.
Defined.

(** C6, at the failing input.  A free block of 96 bytes is the best fit for
    a request of 32 bytes: it exceeds the request by [MIMIC_MIN_BLOCK_SPLIT],
    the 64 bytes mimic.h calls the minimum block to split off, and the table
    is not full, so the split condition of the specification holds.  The
    comparison of the code is strict: the block is handed out whole, the
    table keeps its length and no 64-byte tail is split off. *)
Theorem alloc_skips_split_at_threshold :
  let k := run_ops RP2040 1 [OpAlloc 96; OpAlloc 32; OpFree 0x20010000]
             (Arena.mem_init RP2040 0x20001000 0x20010000 kernel_zero) in
  let r := Arena.mimic_umalloc RP2040 1 32 k in
  user_blocks k !! 0%nat = Some (mkBlock 0x20010000 96 1 true false)
  /\ fst r = 0x20010000
  /\ spec_split_condition 96 (Arena.align_size 32) (user_block_count k)
       (MIMIC_MAX_MEM_BLOCKS RP2040) = true
  /\ length (user_blocks (snd r)) = length (user_blocks k)
  /\ user_blocks (snd r) !! 0%nat = Some (mkBlock 0x20010000 96 1 false false).
Proof. vm_compute. repeat split; reflexivity. Qed.

(** C7, at the failing input.  Task 1 requests [0xFFFFFFFF] bytes, which
    rounds to 0 on the 32-bit [size_t] and yields a zero-sized block at the
    heap base; task 2 then obtains 32 bytes at the same address.  When task 2
    frees its pointer the ownership check finds task 2's block, but the free
    loop marks the first in-use block at that address free: the one owned
    by task 1.  Task 2's own block stays in use. *)
Theorem ufree_frees_foreign_block :
  let k0 := Arena.mem_init RP2040 0x20001000 0x20010000 kernel_zero in
  let r1 := Arena.mimic_umalloc RP2040 1 0xFFFFFFFF k0 in
  let r2 := Arena.mimic_umalloc RP2040 2 32 (snd r1) in
  let k3 := Arena.mimic_ufree 2 (fst r2) (snd r2) in
  fst r1 = 0x20010000 /\ fst r2 = 0x20010000
  /\ user_blocks (snd r2) !! 0%nat = Some (mkBlock 0x20010000 0 1 false false)
  /\ user_blocks (snd r2) !! 1%nat = Some (mkBlock 0x20010000 32 2 false false)
  /\ user_blocks k3 !! 0%nat = Some (mkBlock 0x20010000 0 1 true false)
  /\ user_blocks k3 !! 1%nat = Some (mkBlock 0x20010000 32 2 false false)
  /\ total_frees k3 = total_frees (snd r2) + 1.
Proof. vm_compute. repeat split; reflexivity. Qed.

End ArenaContract.

(** ** User arena: the ownership check of mimic_ufree *)

Section Ownership.

Variables (task_id ptr : Z).

Lemma owns_none bs :
  (forall j b', bs !! j = Some b' -> blk_addr b' <> ptr) ->
  Arena.owns bs task_id ptr = false.
Proof.
  induction bs as [|a bs IH]; intros Hno; [done|]. simpl.
  destruct (Z.eqb_spec (blk_addr a) ptr) as [He|_]; [by destruct (Hno O a eq_refl)|].
  simpl. apply IH. intros j b' Hj. by apply (Hno (S j)).
Qed.

Lemma free_search_none bs :
  (forall j b', bs !! j = Some b' -> blk_addr b' <> ptr) ->
  Arena.free_search bs ptr = None.
Proof.
  induction bs as [|a bs IH]; intros Hno; [done|]. simpl.
  destruct (Z.eqb_spec (blk_addr a) ptr) as [He|_]; [by destruct (Hno O a eq_refl)|].
  simpl. rewrite IH; [done|]. intros j b' Hj. by apply (Hno (S j)).
Qed.

(** With one block at [ptr], both loops look at that block. *)
Lemma owns_unique bs : forall i b,
  bs !! i = Some b -> blk_addr b = ptr ->
  (forall j b', bs !! j = Some b' -> blk_addr b' = ptr -> j = i) ->
  Arena.owns bs task_id ptr = (blk_task_id b =? task_id).
Proof.
  induction bs as [|a bs IH]; intros i b Hi Hb Huniq; [done|].
  destruct i as [|i]; simpl in Hi.
  - injection Hi as ->. simpl. rewrite Hb, Z.eqb_refl. simpl.
    rewrite owns_none; [by rewrite orb_false_r|].
    intros j b' Hj He. by specialize (Huniq (S j) b' Hj He).
  - simpl. destruct (Z.eqb_spec (blk_addr a) ptr) as [He|_].
    { by specialize (Huniq O a eq_refl He). }
    simpl. apply (IH i b Hi Hb). intros j b' Hj He.
    specialize (Huniq (S j) b' Hj He). congruence.
Qed.

Lemma free_search_unique bs : forall i b,
  bs !! i = Some b -> blk_addr b = ptr ->
  (forall j b', bs !! j = Some b' -> blk_addr b' = ptr -> j = i) ->
  Arena.free_search bs ptr
  = if blk_free b || blk_pinned b then None
    else Some (<[i := Arena.set_blk_free true b]> bs, blk_size b).
Proof.
  induction bs as [|a bs IH]; intros i b Hi Hb Huniq; [done|].
  destruct i as [|i]; simpl in Hi.
  - injection Hi as ->. simpl. rewrite Hb, Z.eqb_refl. simpl.
    destruct (blk_free b); simpl.
    + rewrite free_search_none; [done|].
      intros j b' Hj He. by specialize (Huniq (S j) b' Hj He).
    + by destruct (blk_pinned b).
  - simpl. destruct (Z.eqb_spec (blk_addr a) ptr) as [He|_].
    { by specialize (Huniq O a eq_refl He). }
    simpl. rewrite (IH i b Hi Hb).
    + by destruct (blk_free b || blk_pinned b).
    + intros j b' Hj He. specialize (Huniq (S j) b' Hj He). congruence.
Qed.

End Ownership.

Lemma distinct_addresses_unique (bs : list MimicMemBlock) i b :
  NoDup (blk_addr <$> bs) -> bs !! i = Some b ->
  forall j b', bs !! j = Some b' -> blk_addr b' = blk_addr b -> j = i.
Proof.
  intros Hnd Hi j b' Hj He.
  apply (NoDup_lookup (blk_addr <$> bs) j i (blk_addr b) Hnd).
  - by rewrite list_lookup_fmap, Hj; simpl; rewrite He.
  - by rewrite list_lookup_fmap, Hi.
Qed.

(** While the blocks of the user pool have pairwise distinct addresses,
    [mimic_ufree task_id ptr] on the block at [ptr] changes nothing when that
    block carries another owner tag, is pinned or is free already; otherwise
    it marks that block free, refunds its size and counts one free. *)
Theorem ufree_respects_ownership
    (k : MimicKernel) (task_id ptr : Z) (i : nat) (b : MimicMemBlock) :
  NoDup (blk_addr <$> user_blocks k) ->
  ptr <> NULL ->
  user_blocks k !! i = Some b ->
  blk_addr b = ptr ->
  (blk_task_id b <> task_id \/ blk_pinned b = true \/ blk_free b = true ->
   Arena.mimic_ufree task_id ptr k = k)
  /\ (blk_task_id b = task_id -> blk_pinned b = false -> blk_free b = false ->
      Arena.mimic_ufree task_id ptr k
      = set_total_frees (u32 (total_frees k + 1))
          (set_pool_free_bytes UserPool (u32 (user_free k + blk_size b))
             (set_pool_blocks UserPool (<[i := Arena.set_blk_free true b]> (user_blocks k)) k))).
Proof.
  intros Hnd Hptr Hi Hb.
  assert (forall j b', user_blocks k !! j = Some b' -> blk_addr b' = ptr -> j = i) as Huniq.
  { intros j b' Hj He. apply (distinct_addresses_unique _ i b Hnd Hi j b' Hj). congruence. }
  unfold Arena.mimic_ufree, Arena.mem_free_in_pool.
  rewrite (owns_unique task_id ptr _ i b Hi Hb Huniq).
  destruct (Z.eqb_spec ptr NULL) as [|_]; [done|].
  change (pool_blocks UserPool k) with (user_blocks k).
  rewrite (free_search_unique ptr _ i b Hi Hb Huniq).
  split.
  - intros [Ht|[Hp|Hf]].
    + by destruct (Z.eqb_spec (blk_task_id b) task_id).
    + rewrite Hp, orb_true_r. by destruct (blk_task_id b =? task_id).
    + rewrite Hf. by destruct (blk_task_id b =? task_id).
  - intros Ht Hp Hf. rewrite Ht, Z.eqb_refl, Hp, Hf. reflexivity.
Qed.

Lemma ufree_respects_ownership_witness :
  let r := Arena.mimic_umalloc RP2040 1 32
             (Arena.mem_init RP2040 0x20001000 0x20010000 kernel_zero) in
  NoDup (blk_addr <$> user_blocks (snd r))
  /\ fst r <> NULL
  /\ user_blocks (snd r) !! 0%nat = Some (mkBlock (fst r) 32 1 false false)
  /\ Arena.mimic_ufree 2 (fst r) (snd r) = snd r
  /\ user_blocks (Arena.mimic_ufree 1 (fst r) (snd r)) !! 0%nat
     = Some (mkBlock (fst r) 32 1 true false).
Proof.
  intros r.
  assert (NoDup (blk_addr <$> user_blocks (snd r))) as Hnd.
  { vm_compute. apply NoDup_cons. split; [|apply NoDup_singleton].
    intros H%list_elem_of_singleton. discriminate. }
  assert (fst r <> NULL) as Hptr by (vm_compute; discriminate).
  assert (user_blocks (snd r) !! 0%nat = Some (mkBlock (fst r) 32 1 false false)) as Hi
    by reflexivity.
  split; [exact Hnd|]. split; [exact Hptr|]. split; [exact Hi|].
  split.
  - apply (ufree_respects_ownership (snd r) 2 (fst r) 0 _ Hnd Hptr Hi eq_refl).
    left. simpl. discriminate.
  - rewrite (proj2 (ufree_respects_ownership (snd r) 1 (fst r) 0 _ Hnd Hptr Hi eq_refl));
      reflexivity.
Defined.

(** ** Arena: blocks stay inside the heap and apart *)

Section Layout.

Lemma sep_sym a b : sep a b -> sep b a.
Proof. intros H x Hb Ha. by apply (H x). Qed.

Lemma disjoint_blocks_app l1 l2 :
  disjoint_blocks (l1 ++ l2)
  <-> disjoint_blocks l1 /\ disjoint_blocks l2
      /\ Forall (fun a => Forall (sep a) l2) l1.
Proof.
  induction l1 as [|a l1 IH]; simpl.
  - split; [intros H; by repeat split|by intros (_ & H & _)].
  - rewrite Forall_app, IH, Forall_cons. tauto.
Qed.

Lemma disjoint_blocks_perm l1 l2 : l1 ≡ₚ l2 -> disjoint_blocks l1 -> disjoint_blocks l2.
Proof.
  induction 1 as [|x l l' Hp IH|x y l|l l' l'' _ IH1 _ IH2]; simpl.
  - done.
  - intros [Hx Hl]. split; [by rewrite <- Hp|by apply IH].
  - intros [Hy [Hx Hl]]. apply Forall_cons in Hy as [Hyx Hy].
    split; [apply Forall_cons; split; [by apply sep_sym|done]|]. by split.
  - intros H. by apply IH2, IH1.
Qed.

Lemma sep_inside c b b' : sep c b -> inside b' b -> sep c b'.
Proof. intros H [H1 H2] x Hc Hb'. apply (H x); [done|lia]. Qed.

Lemma disjoint_blocks_lookup l : forall i j a b,
  disjoint_blocks l -> i <> j -> l !! i = Some a -> l !! j = Some b -> sep a b.
Proof.
  induction l as [|c l IH]; intros i j a b Hd Hne Hi Hj; [done|].
  destruct Hd as [Hc Hl]. destruct i as [|i], j as [|j]; simpl in *; try done.
  - injection Hi as ->. by eapply (Forall_lookup_1 _ _ _ _ Hc Hj).
  - injection Hj as ->. apply sep_sym. by eapply (Forall_lookup_1 _ _ _ _ Hc Hi).
  - eapply (IH i j); [done|congruence|done|done].
Qed.

Lemma disjoint_blocks_insert l : forall n b b',
  l !! n = Some b -> inside b' b ->
  disjoint_blocks l -> disjoint_blocks (<[n := b']> l).
Proof.
  induction l as [|a l IH]; intros n b b' Hn Hin Hd; [done|].
  destruct Hd as [Ha Hl]. destruct n as [|n]; simpl in *.
  - injection Hn as ->. split; [|done].
    eapply Forall_impl; [exact Ha|]. intros c Hc.
    apply sep_sym. eapply sep_inside; [by apply sep_sym|done].
  - split; [|by eapply IH].
    apply Forall_insert; [done|].
    eapply sep_inside; [|exact Hin]. by eapply (Forall_lookup_1 _ _ _ _ Ha Hn).
Qed.

Variables heap cap max : Z.
Hypothesis heap_pos : 0 <= heap.
Hypothesis heap_end : heap + cap + 64 < 2 ^ 32.
Hypothesis max_pos : 0 < max.

Lemma layout_inv_size bs i b :
  layout_inv heap cap max bs -> bs !! i = Some b ->
  0 <= blk_addr b /\ 0 <= blk_size b /\ block_end b < 2 ^ 32 - 64.
Proof.
  intros [Hh _ _] Hb. pose proof (Forall_lookup_1 _ _ _ _ Hh Hb) as (H1 & H2 & H3).
  unfold block_end in *. lia.
Qed.

Lemma alloc_result_layout p k n b asz task_id sp :
  layout_inv heap cap max (pool_blocks p k) ->
  pool_blocks p k !! n = Some b ->
  fits asz b -> 0 <= asz ->
  sp = (u32 (asz + MIMIC_MIN_BLOCK_SPLIT) <? blk_size b)
       && (Z.of_nat (length (pool_blocks p k)) <? max) ->
  layout_inv heap cap max (pool_blocks p (snd (alloc_result p k n b asz task_id sp))).
Proof.
  intros Hinv Hn [Hfree Hfit] Hasz Hsp.
  pose proof (layout_inv_size _ _ _ Hinv Hn) as (Hb0 & Hb1 & Hb2). unfold block_end in Hb2.
  pose proof (Forall_lookup_1 _ _ _ _ (li_heap _ _ _ _ Hinv) Hn) as (Hh1 & _ & Hh3).
  unfold block_end in Hh3.
  set (bs := pool_blocks p k) in *.
  set (taken := if sp then asz else blk_size b).
  set (blk' := mkBlock (blk_addr b) taken task_id false (blk_pinned b)).
  set (new := mkBlock (u32 (blk_addr b + asz)) (u32 (blk_size b - asz)) 0 true false).
  set (bs1 := if sp then bs ++ [new] else bs).
  assert (pool_blocks p (snd (alloc_result p k n b asz task_id sp)) = <[n := blk']> bs1) as ->.
  { unfold alloc_result. fold bs. by destruct p. }
  assert (0 <= taken <= blk_size b) as Htaken by (unfold taken; destruct sp; lia).
  assert (inside blk' b) as Hin by (unfold inside, block_end; simpl; lia).
  assert (in_heap heap cap blk') as Hheap' by (unfold in_heap, block_end; simpl; lia).
  destruct Hinv as [Hh Hd Hlen]. fold bs in Hh, Hd, Hlen.
  assert (n < length bs)%nat as Hnlen by (by eapply lookup_lt_Some).
  unfold bs1. destruct sp eqn:Hspv.
  - symmetry in Hsp. apply andb_true_iff in Hsp as [Hgt%Z.ltb_lt Hl%Z.ltb_lt].
    unfold MIMIC_MIN_BLOCK_SPLIT in Hgt. rewrite u32_small in Hgt by lia.
    assert (blk_addr new = blk_addr b + asz) as Hna by (simpl; apply u32_small; lia).
    assert (blk_size new = blk_size b - asz) as Hns by (simpl; apply u32_small; lia).
    assert (inside new b) as Hinn by (unfold inside, block_end; rewrite Hna, Hns; lia).
    rewrite insert_app_l by done. split.
    + apply Forall_app. split; [by apply Forall_insert|].
      apply Forall_singleton. unfold in_heap, block_end. rewrite Hna, Hns. lia.
    + apply disjoint_blocks_app. split; [by eapply disjoint_blocks_insert|].
      split; [simpl; by split|].
      apply Forall_lookup_2. intros i c Hc. apply Forall_singleton.
      apply list_lookup_insert_Some in Hc as [(-> & <- & _)|[Hne Hc]].
      * intros x Hx1 Hx2. unfold block_end in *. rewrite Hna, Hns in Hx2.
        simpl in Hx1. unfold taken in Hx1. lia.
      * eapply sep_inside; [|exact Hinn].
        by eapply (disjoint_blocks_lookup bs i n).
    + rewrite length_app, length_insert. simpl. lia.
  - split.
    + by apply Forall_insert.
    + by eapply disjoint_blocks_insert.
    + by rewrite length_insert.
Qed.

Hypothesis max_small : max < 0xFFFFFFFF.

Lemma mem_alloc_from_pool_layout p size task_id k :
  layout_inv heap cap max (pool_blocks p k) ->
  layout_inv heap cap max
    (pool_blocks p (snd (Arena.mem_alloc_from_pool p size task_id max k))).
Proof.
  intros Hinv. destruct (Z.eq_dec size 0) as [->|Hsz]; [done|].
  destruct (mem_alloc_from_pool_cases p size task_id max k Hsz)
    as [[_ ->]|(n & b & Hn & Hfit & _ & ->)].
  - apply Forall_lookup_2. intros i b Hb.
    pose proof (layout_inv_size _ _ _ Hinv Hb). unfold block_end in *. lia.
  - pose proof (li_len _ _ _ _ Hinv). lia.
  - simpl. by destruct p.
  - apply alloc_result_layout; try done. apply align_size_range.
Qed.

Lemma mem_free_in_pool_layout p ptr k :
  layout_inv heap cap max (pool_blocks p k) ->
  layout_inv heap cap max (pool_blocks p (Arena.mem_free_in_pool p ptr k)).
Proof.
  intros Hinv. unfold Arena.mem_free_in_pool.
  destruct (ptr =? NULL); [done|].
  destruct (Arena.free_search (pool_blocks p k) ptr) as [[bs' sz]|] eqn:Hs; [|done].
  destruct (free_search_Some _ _ _ _ Hs) as (n & b & Hn & _ & _ & _ & _ & -> & _).
  assert (forall v1 v2 bs, pool_blocks p (set_total_frees v1
            (set_pool_free_bytes p v2 (set_pool_blocks p bs k))) = bs) as ->
    by (intros; by destruct p).
  destruct Hinv as [Hh Hd Hlen]. split.
  - apply Forall_insert; [done|]. by eapply (Forall_lookup_1 _ _ _ _ Hh Hn).
  - eapply disjoint_blocks_insert; [exact Hn| |done]. unfold inside, block_end. simpl. lia.
  - by rewrite length_insert.
Qed.

(** Blocks that keep their address and size keep the layout. *)
Lemma layout_inv_same_extent bs bs' :
  Forall2 (fun a b => blk_addr b = blk_addr a /\ blk_size b = blk_size a) bs bs' ->
  layout_inv heap cap max bs -> layout_inv heap cap max bs'.
Proof.
  intros H2 [Hh Hd Hlen]. split.
  - clear Hd Hlen. induction H2 as [|a b l l' [Ha Hs] _ IH]; [done|].
    apply Forall_cons in Hh as [Hah Hl]. apply Forall_cons. split; [|by apply IH].
    unfold in_heap, block_end in *. rewrite Ha, Hs. done.
  - clear Hh Hlen. induction H2 as [|a b l l' [Ha Hs] Hl2 IH]; [done|].
    destruct Hd as [Hal Hl]. split; [|by apply IH].
    clear IH Hl. induction Hl2 as [|c d l l' [Hc Hcs] _ IH]; [done|].
    apply Forall_cons in Hal as [Hac Hal]. apply Forall_cons. split; [|by apply IH].
    intros x Hx1 Hx2. apply (Hac x); unfold block_end in *; lia.
  - by rewrite <- (Forall2_length _ _ _ H2).
Qed.

Lemma free_all_loop_extent task_id bs : forall acc,
  Forall2 (fun a b => blk_addr b = blk_addr a /\ blk_size b = blk_size a) bs
    (Arena.free_all_loop bs task_id acc).1.
Proof.
  induction bs as [|b bs IH]; intros acc; simpl; [done|].
  destruct (_ && _).
  - specialize (IH (u32 (acc.1 + blk_size b), u32 (acc.2 + 1))).
    destruct (Arena.free_all_loop bs task_id _) as [rest acc']. simpl in *.
    by apply Forall2_cons.
  - specialize (IH acc). destruct (Arena.free_all_loop bs task_id acc) as [rest acc'].
    simpl in *. by apply Forall2_cons.
Qed.

End Layout.

(** ** Arena: the merge loop as a pass over the list *)

Section MergeView.

(** The in-place loop with its read index [i] and write index [w] computes
    [merge_rev] of the blocks written so far and the blocks still to read. *)
Lemma merge_loop_view n : forall i w l,
  (i + n = length l)%nat -> (w <= i)%nat -> (0 < i -> 0 < w)%nat ->
  take (Arena.merge_loop n i w l).1 (Arena.merge_loop n i w l).2
  = merge_rev (rev (take w l)) (drop i l).
Proof.
  induction n as [|n IH]; intros i w l Hlen Hwi Hpos; cbn [Arena.merge_loop].
  { rewrite drop_ge by lia. simpl. by rewrite rev_involutive. }
  destruct (l !! i) as [bi|] eqn:Hbi.
  2:{ apply lookup_ge_None in Hbi. lia. }
  rewrite (drop_S _ _ _ Hbi).
  assert (w < length l)%nat as Hwl by (apply lookup_lt_Some in Hbi; lia).
  assert (Hcopy :
    take (Arena.merge_loop n (S i) (S w) (if (w =? i)%nat then l else <[w:=bi]> l)).1
         (Arena.merge_loop n (S i) (S w) (if (w =? i)%nat then l else <[w:=bi]> l)).2
    = merge_rev (bi :: rev (take w l)) (drop (S i) l)).
  { set (l1 := if (w =? i)%nat then l else <[w:=bi]> l).
    assert (l1 = <[w:=bi]> l) as Hl1.
    { unfold l1. destruct (Nat.eqb_spec w i) as [->|]; [|done]. by rewrite list_insert_id. }
    rewrite IH; [|rewrite Hl1, length_insert; lia|lia|lia].
    f_equal.
    - rewrite Hl1, (take_S_r _ _ bi) by (by apply list_lookup_insert_eq).
      rewrite take_insert_ge by lia. by rewrite rev_app_distr.
    - rewrite Hl1. destruct (decide (w = i)) as [->|].
      + by rewrite list_insert_id.
      + by rewrite drop_insert_lt by lia. }
  destruct (Nat.ltb_spec 0 i) as [Hi0|Hi0].
  - assert (0 < w)%nat as Hw0 by lia.
    destruct (l !! (w - 1)%nat) as [bp|] eqn:Hbp.
    2:{ apply lookup_ge_None in Hbp. lia. }
    assert (take w l = take (w - 1) l ++ [bp]) as Htw.
    { replace w with (S (w - 1)) at 1 by lia. by apply take_S_r. }
    rewrite Htw, rev_app_distr in *. cbn [rev app merge_rev] in *.
    destruct (blk_free bp && blk_free bi && (u32 (blk_addr bp + blk_size bp) =? blk_addr bi)).
    + rewrite IH; [|rewrite length_insert; lia|lia|lia].
      f_equal.
      * replace w with (S (w - 1)) at 1 by lia.
        rewrite (take_S_r _ _ (Arena.set_blk_size (u32 (blk_size bp + blk_size bi)) bp))
          by (apply list_lookup_insert_eq; lia).
        rewrite take_insert_ge by lia. by rewrite rev_app_distr.
      * by rewrite drop_insert_lt by lia.
    + exact Hcopy.
  - assert (i = O) as -> by lia. assert (w = O) as -> by lia.
    simpl in *. exact Hcopy.
Qed.

Lemma coalesce_blocks_view p k :
  pool_blocks p (Arena.mem_coalesce_pool p k)
  = merge_rev []
      (Arena.sort_outer (Z.to_nat (u32 (Z.of_nat (length (pool_blocks p k)) - 1))) 0
         (Z.of_nat (length (pool_blocks p k))) (pool_blocks p k)).
Proof.
  unfold Arena.mem_coalesce_pool.
  set (sorted := Arena.sort_outer _ _ _ _).
  pose proof (merge_loop_view (length sorted) 0 0 sorted eq_refl (le_n 0)
                ltac:(intros; lia)) as H.
  destruct (Arena.merge_loop (length sorted) 0 0 sorted) as [w l']. simpl in H.
  rewrite pool_blocks_set_blocks. by rewrite drop_0 in H.
Qed.

(** Merging drops no block in use and changes none. *)
Lemma merge_rev_in_use rest : forall acc,
  filter (fun b => in_use b = true) (merge_rev acc rest)
  = filter (fun b => in_use b = true) (rev acc ++ rest).
Proof.
  induction rest as [|bi rest IH]; intros acc; cbn [merge_rev].
  { by rewrite app_nil_r. }
  destruct acc as [|bp acc].
  - rewrite IH. done.
  - destruct (blk_free bp) eqn:Hp, (blk_free bi) eqn:Hi; cbn [andb];
      try (rewrite IH; simpl; by rewrite <- !app_assoc).
    destruct (_ =? _).
    + rewrite IH. simpl. rewrite <- !app_assoc. simpl.
      rewrite !filter_app, !filter_cons. unfold in_use. simpl. rewrite Hp, Hi. simpl.
      repeat (destruct (decide _); [done|]). done.
    + rewrite IH. simpl. by rewrite <- !app_assoc.
Qed.

End MergeView.

(** ** Arena: the layout under every operation *)

Section LayoutOps.

Variables heap cap max : Z.
Hypothesis heap_pos : 0 <= heap.
Hypothesis heap_end : heap + cap + 64 < 2 ^ 32.
Hypothesis max_pos : 0 < max.
Hypothesis max_small : max < 0xFFFFFFFF.

(** The block that replaces two adjacent free blocks covers the bytes of
    both and no other. *)
Lemma sep_merged c bp bi :
  in_heap heap cap bp -> in_heap heap cap bi ->
  u32 (blk_addr bp + blk_size bp) = blk_addr bi ->
  sep c bp -> sep c bi ->
  sep c (Arena.set_blk_size (u32 (blk_size bp + blk_size bi)) bp).
Proof.
  intros (Hp1 & Hp2 & Hp3) (Hi1 & Hi2 & Hi3) Hadj Hcp Hci x Hx1 Hx2.
  unfold block_end in *. rewrite u32_small in Hadj by lia.
  simpl in Hx2. rewrite u32_small in Hx2 by lia.
  destruct (Z.lt_ge_cases x (blk_addr bi)).
  - apply (Hcp x); [done|unfold block_end; lia].
  - apply (Hci x); [done|unfold block_end; lia].
Qed.

Lemma merge_rev_layout rest : forall acc,
  Forall (in_heap heap cap) (rev acc ++ rest) ->
  disjoint_blocks (rev acc ++ rest) ->
  Forall (in_heap heap cap) (merge_rev acc rest)
  /\ disjoint_blocks (merge_rev acc rest)
  /\ (length (merge_rev acc rest) <= length acc + length rest)%nat.
Proof.
  induction rest as [|bi rest IH]; intros acc Hh Hd; cbn [merge_rev].
  { rewrite app_nil_r in *. rewrite length_rev. simpl. split; [done|]. split; [done|lia]. }
  assert (Hcopy :
    Forall (in_heap heap cap) (merge_rev (bi :: acc) rest)
    /\ disjoint_blocks (merge_rev (bi :: acc) rest)
    /\ (length (merge_rev (bi :: acc) rest) <= length acc + length (bi :: rest))%nat).
  { destruct (IH (bi :: acc)) as (H1 & H2 & H3).
    - simpl. by rewrite <- app_assoc.
    - simpl. by rewrite <- app_assoc.
    - simpl in *. split; [done|]. split; [done|lia]. }
  destruct acc as [|bp acc]; [exact Hcopy|].
  destruct (blk_free bp && blk_free bi && (u32 (blk_addr bp + blk_size bp) =? blk_addr bi))
    eqn:Hm; [|exact Hcopy].
  apply andb_true_iff in Hm as [_ Hadj%Z.eqb_eq].
  simpl in Hh, Hd. rewrite <- app_assoc in Hh, Hd. simpl in Hh, Hd.
  apply Forall_app in Hh as [Hh1 Hh2].
  apply Forall_cons in Hh2 as [Hbp Hh2]. apply Forall_cons in Hh2 as [Hbi Hh2].
  apply disjoint_blocks_app in Hd as (Hd1 & Hd2 & Hcross).
  destruct Hd2 as [Hbp_sep [Hbi_sep Hd2]].
  apply Forall_cons in Hbp_sep as [_ Hbp_sep].
  set (bp' := Arena.set_blk_size (u32 (blk_size bp + blk_size bi)) bp).
  assert (in_heap heap cap bp') as Hbp'.
  { destruct Hbp as (Hp1 & Hp2 & Hp3), Hbi as (Hi1 & Hi2 & Hi3).
    unfold in_heap, block_end in *. rewrite u32_small in Hadj by lia.
    simpl. rewrite u32_small by lia. lia. }
  destruct (IH (bp' :: acc)) as (H1 & H2 & H3).
  - simpl. rewrite <- app_assoc. simpl. apply Forall_app. split; [done|].
    by apply Forall_cons.
  - simpl. rewrite <- app_assoc. simpl. apply disjoint_blocks_app.
    split; [done|]. split.
    + split; [|done].
      apply Forall_lookup_2. intros i c Hc. apply sep_sym.
      apply (sep_merged c bp bi); try done; apply sep_sym.
      * by eapply (Forall_lookup_1 _ _ _ _ Hbp_sep Hc).
      * by eapply (Forall_lookup_1 _ _ _ _ Hbi_sep Hc).
    + eapply Forall_impl; [exact Hcross|]. intros a Ha.
      apply Forall_cons in Ha as [Hap Ha]. apply Forall_cons in Ha as [Hai Ha].
      apply Forall_cons. split; [|done]. by apply sep_merged.
  - simpl in *. split; [done|]. split; [done|lia].
Qed.

Lemma mem_coalesce_pool_layout p k :
  layout_inv heap cap max (pool_blocks p k) ->
  layout_inv heap cap max (pool_blocks p (Arena.mem_coalesce_pool p k)).
Proof.
  intros [Hh Hd Hlen]. rewrite coalesce_blocks_view.
  set (sorted := Arena.sort_outer _ _ _ _).
  assert (sorted ≡ₚ pool_blocks p k) as Hperm by apply sort_outer_perm.
  destruct (merge_rev_layout sorted []) as (H1 & H2 & H3).
  - simpl. by rewrite Hperm.
  - simpl. eapply disjoint_blocks_perm; [symmetry; exact Hperm|done].
  - split; [done|done|]. pose proof (Permutation_length Hperm) as Hl. simpl in H3. lia.
Qed.

Lemma free_all_memory_layout task_id k :
  layout_inv heap cap max (user_blocks k) ->
  layout_inv heap cap max (user_blocks (Arena.mimic_task_free_all_memory task_id k)).
Proof.
  intros Hinv. unfold Arena.mimic_task_free_all_memory.
  pose proof (free_all_loop_extent task_id (user_blocks k) (user_free k, total_frees k)) as He.
  destruct (Arena.free_all_loop _ _ _) as [blocks [ufree frees]]. simpl in He.
  apply (mem_coalesce_pool_layout UserPool). simpl.
  by eapply layout_inv_same_extent.
Qed.

End LayoutOps.

Lemma run_user_ops_layout (t : Target) (user_heap : Z) (ops : list UserOp) :
  0 <= user_heap ->
  user_heap + MIMIC_USER_HEAP t + 64 < 2 ^ 32 ->
  forall k,
  layout_inv user_heap (MIMIC_USER_HEAP t) (MIMIC_MAX_MEM_BLOCKS t) (user_blocks k) ->
  layout_inv user_heap (MIMIC_USER_HEAP t) (MIMIC_MAX_MEM_BLOCKS t)
    (user_blocks (run_user_ops t ops k)).
Proof.
  intros Hpos Hend.
  assert (MIMIC_MAX_MEM_BLOCKS t < 0xFFFFFFFF) as Hmax2 by (destruct t; simpl; lia).
  induction ops as [|op ops IH]; intros k Hinv; [done|].
  simpl. apply IH. destruct op as [task_id size|task_id ptr|task_id]; simpl.
  - by apply (mem_alloc_from_pool_layout _ _ _ Hpos Hend Hmax2 UserPool).
  - unfold Arena.mimic_ufree. destruct (Arena.owns _ _ _); [|done].
    by apply (mem_free_in_pool_layout _ _ _ UserPool).
  - by apply (free_all_memory_layout _ _ _ Hpos Hend).
Qed.

(** Whatever the tasks ask of the user arena after [mem_init]
    (allocations of any size, frees of any pointer, mass frees with their
    coalescing pass), every block of the table lies inside the user heap, no
    byte belongs to two blocks, and the table holds at most
    [MIMIC_MAX_MEM_BLOCKS] blocks. *)
Theorem user_arena_blocks_never_overlap
    (t : Target) (kernel_heap user_heap : Z) (ops : list UserOp) (k0 : MimicKernel) :
  0 <= user_heap ->
  user_heap + MIMIC_USER_HEAP t + 64 < 2 ^ 32 ->
  let k := run_user_ops t ops (Arena.mem_init t kernel_heap user_heap k0) in
  (forall i b, user_blocks k !! i = Some b ->
     user_heap <= blk_addr b /\ 0 <= blk_size b
     /\ blk_addr b + blk_size b <= user_heap + MIMIC_USER_HEAP t)
  /\ (forall i j a b x,
        i <> j -> user_blocks k !! i = Some a -> user_blocks k !! j = Some b ->
        blk_addr a <= x < blk_addr a + blk_size a ->
        blk_addr b <= x < blk_addr b + blk_size b -> False)
  /\ Z.of_nat (length (user_blocks k)) <= MIMIC_MAX_MEM_BLOCKS t.
Proof.
  intros Hpos Hend k.
  assert (layout_inv user_heap (MIMIC_USER_HEAP t) (MIMIC_MAX_MEM_BLOCKS t) (user_blocks k))
    as [Hh Hd Hlen].
  { apply run_user_ops_layout; [done|done|]. simpl. split.
    - apply Forall_singleton. unfold in_heap, block_end. simpl. destruct t; simpl; lia.
    - simpl. by split.
    - destruct t; simpl; lia. }
  split; [|split; [|done]].
  - intros i b Hb. apply (Forall_lookup_1 _ _ _ _ Hh Hb).
  - intros i j a b x Hne Ha Hb Hxa Hxb.
    by apply (disjoint_blocks_lookup _ i j a b Hd Hne Ha Hb x).
Qed.

Lemma user_arena_blocks_never_overlap_witness :
  let k := run_user_ops RP2040
             [UAlloc 1 100; UAlloc 2 0xFFFFFFFF; UAlloc 2 64; UFree 1 0x20010000;
              UFreeAll 2]
             (Arena.mem_init RP2040 0x20001000 0x20010000 kernel_zero) in
  0 <= 0x20010000
  /\ 0x20010000 + MIMIC_USER_HEAP RP2040 + 64 < 2 ^ 32
  /\ Z.of_nat (length (user_blocks k)) <= MIMIC_MAX_MEM_BLOCKS RP2040.
Proof.
  intros k.
  assert (0 <= 0x20010000) as H1 by lia.
  assert (0x20010000 + MIMIC_USER_HEAP RP2040 + 64 < 2 ^ 32) as H2 by (simpl; lia).
  split; [exact H1|]. split; [exact H2|].
  apply (user_arena_blocks_never_overlap RP2040 0x20001000 0x20010000 _ kernel_zero H1 H2).
Defined.

(** ** Scheduler and syscall dispatch *)

Section SchedDispatch.

(** C4, at the failing input.  With A (priority 2) and B (priority 5) both
    READY, the first tick runs A.  The second tick, with A neither asleep,
    yielding nor gone, finds A in state RUNNING, which the priority scan
    skips: it picks B, puts A back to READY and B into RUNNING. *)
Theorem second_tick_runs_lower_priority_task :
  let k1 := Sched.scheduler_tick RP2040 1000 two_tasks in
  let k2 := Sched.scheduler_tick RP2040 2000 k1 in
  task_state two_tasks 1 = Some TASK_STATE_READY
  /\ task_state two_tasks 2 = Some TASK_STATE_READY
  /\ current_task k1 = 1
  /\ task_state k1 1 = Some TASK_STATE_RUNNING
  /\ task_state k1 2 = Some TASK_STATE_READY
  /\ current_task k2 = 2
  /\ task_state k2 1 = Some TASK_STATE_READY
  /\ task_state k2 2 = Some TASK_STATE_RUNNING.
Proof. vm_compute. repeat split; reflexivity. Qed.

(** Numbers without a [case] fall through to [default]. *)
Lemma syscall_default (t : Target) (pf : Syscall.Platform) (num a0 a1 a2 a3 : Z)
    (k : MimicKernel) :
  num ∉ Syscall.dispatched ->
  Syscall.mimic_syscall t pf num a0 a1 a2 a3 k
  = (MIMIC_ERR_NOSYS, set_syscalls_handled (u32 (syscalls_handled k + 1)) k).
Proof.
  intros Hout. unfold Syscall.mimic_syscall. cbv zeta.
  repeat lazymatch goal with
  | |- context [if num =? ?c then _ else _] =>
    destruct (Z.eqb_spec num c) as [->|_];
      [exfalso; apply Hout; unfold Syscall.dispatched; set_solver|]
  end.
  reflexivity.
Qed.

(** C8, at the failing input.  REALLOC (12) is in the specification's table
    and has no case in the dispatcher: the call counts the syscall and
    returns [MIMIC_ERR_NOSYS].  The same holds of every PWM, ADC, SPI and
    I2C number of the table. *)
Theorem syscall_realloc_not_implemented
    (t : Target) (pf : Syscall.Platform) (a0 a1 a2 a3 : Z) (k : MimicKernel) :
  MIMIC_SYS_REALLOC ∈ Syscall.spec_syscall_table
  /\ Syscall.mimic_syscall t pf MIMIC_SYS_REALLOC a0 a1 a2 a3 k
     = (MIMIC_ERR_NOSYS, set_syscalls_handled (u32 (syscalls_handled k + 1)) k)
  /\ Forall (fun num =>
               num ∈ Syscall.spec_syscall_table
               /\ Syscall.mimic_syscall t pf num a0 a1 a2 a3 k
                  = (MIMIC_ERR_NOSYS,
                     set_syscalls_handled (u32 (syscalls_handled k + 1)) k))
       [12; 50; 51; 52; 53; 60; 61; 62; 63; 70; 71; 72; 73; 80; 81; 82].
Proof.
  split; [unfold Syscall.spec_syscall_table, MIMIC_SYS_REALLOC; set_solver|].
  split; [reflexivity|].
  repeat (apply Forall_cons; split;
          [split; [unfold Syscall.spec_syscall_table; set_solver|reflexivity]|]).
  apply Forall_nil_2.
Qed.

End SchedDispatch.

(** ** Scheduler: the priority scan *)

Section PriorityScan.

Variable ts : list MimicTCB.

Lemma ready_at_inj j p q : ready_at ts j p -> ready_at ts j q -> p = q.
Proof. intros (tk & H1 & _ & <-) (tk' & H2 & _ & <-). congruence. Qed.

Lemma MimicTaskState_eqb_eq a b : MimicTaskState_eqb a b = true <-> a = b.
Proof. destruct a, b; simpl; split; congruence. Qed.

(** The scan over the slots [i .. i + n - 1]: it keeps [next] when no READY
    task there has a priority below [best_prio], and otherwise ends on the
    first READY slot of least priority. *)
Lemma pick_loop_spec n : forall i next best_prio,
  let r := Sched.pick_loop n i ts next best_prio in
  (r = next
   /\ forall j q, (i <= j < i + n)%nat -> ready_at ts j q -> best_prio <= q)
  \/ (exists p, (i <= r < i + n)%nat /\ ready_at ts r p /\ p < best_prio
      /\ forall j q, (i <= j < i + n)%nat -> ready_at ts j q ->
           p <= q /\ ((j < r)%nat -> p < q)).
Proof.
  induction n as [|n IH]; intros i next best_prio; [left; split; [done|]; intros; lia|].
  cbn [Sched.pick_loop].
  assert (forall q, ~ (exists tk, ts !! i = Some tk
                         /\ MimicTaskState_eqb (tcb_state tk) TASK_STATE_READY = true
                         /\ tcb_priority tk < best_prio) ->
          ready_at ts i q -> best_prio <= q) as Hskip.
  { intros q Hno (tk & Hi & Hst & <-).
    destruct (Z.le_gt_cases best_prio (tcb_priority tk)); [done|].
    destruct Hno. exists tk. rewrite MimicTaskState_eqb_eq. split; [done|]. split; [done|lia]. }
  assert (forall next' best',
            (best' = best_prio -> forall q, ready_at ts i q -> best_prio <= q) ->
            (best' <> best_prio -> ready_at ts i best' /\ best' < best_prio /\ next' = i) ->
            (best' = best_prio -> next' = next) ->
            let r := Sched.pick_loop n (S i) ts next' best' in
            (r = next
             /\ forall j q, (i <= j < i + S n)%nat -> ready_at ts j q -> best_prio <= q)
            \/ (exists p, (i <= r < i + S n)%nat /\ ready_at ts r p /\ p < best_prio
                /\ forall j q, (i <= j < i + S n)%nat -> ready_at ts j q ->
                     p <= q /\ ((j < r)%nat -> p < q))) as Hstep.
  { intros next' best' Hsame Hnew Hnext r.
    destruct (IH (S i) next' best') as [[Hr Hall]|(p & Hrange & Hready & Hlt & Hmin)];
      fold r in Hr || fold r in Hrange, Hready, Hmin.
    - destruct (Z.eq_dec best' best_prio) as [He|Hn].
      + left. split; [by rewrite Hr, Hnext|]. intros j q Hj Hq.
        destruct (Nat.eq_dec j i) as [->|Hji]; [by apply Hsame|].
        rewrite <- He. apply (Hall j q); [lia|done].
      + destruct (Hnew Hn) as (Hi & Hlt & ->). right. exists best'.
        split; [lia|]. split; [by rewrite Hr|]. split; [done|].
        intros j q Hj Hq. destruct (Nat.eq_dec j i) as [->|Hji].
        * rewrite (ready_at_inj _ _ _ Hq Hi). split; [lia|]. rewrite Hr. lia.
        * split; [apply (Hall j q); [lia|done]|]. rewrite Hr. lia.
    - right. exists p. split; [lia|]. split; [done|].
      destruct (Z.eq_dec best' best_prio) as [He|Hn].
      + split; [lia|]. intros j q Hj Hq.
        destruct (Nat.eq_dec j i) as [->|Hji].
        * specialize (Hsame He q Hq). lia.
        * apply (Hmin j q); [lia|done].
      + destruct (Hnew Hn) as (Hi & Hlt' & ->). split; [lia|].
        intros j q Hj Hq. destruct (Nat.eq_dec j i) as [->|Hji].
        * rewrite (ready_at_inj _ _ _ Hq Hi). lia.
        * apply (Hmin j q); [lia|done]. }
  destruct (ts !! i) as [tk|] eqn:Hi.
  - destruct (MimicTaskState_eqb (tcb_state tk) TASK_STATE_READY) eqn:Hst; simpl.
    + destruct (Z.ltb_spec (tcb_priority tk) best_prio) as [Hlt|Hge].
      * apply Hstep; [lia| |lia]. intros _. split; [|done].
        exists tk. by rewrite <- MimicTaskState_eqb_eq.
      * apply Hstep; [|done|done]. intros _ q. apply Hskip.
        intros (tk' & Hi' & _ & Hlt). simplify_eq. lia.
    + apply Hstep; [|done|done]. intros _ q. apply Hskip.
      intros (tk' & Hi' & Hst' & _). simplify_eq. congruence.
  - apply Hstep; [|done|done]. intros _ q. apply Hskip.
    intros (tk' & Hi' & _). congruence.
Qed.

End PriorityScan.

(** The priority scan of [scheduler_tick] over the slots 1 to
    [MIMIC_MAX_TASKS - 1], starting from the idle slot 0 and priority 255:
    it ends on the idle slot when no READY task has a priority below 255,
    and otherwise on the READY slot of numerically lowest priority, the first
    such slot among equals. *)
Theorem scheduler_scan_picks_first_lowest_priority (t : Target) (ts : list MimicTCB) :
  let slots := (Z.to_nat (MIMIC_MAX_TASKS t) - 1)%nat in
  let next := Sched.pick_loop slots 1 ts 0 255 in
  (next = O
   /\ forall j q, (1 <= j <= slots)%nat -> ready_at ts j q -> 255 <= q)
  \/ (exists p, (1 <= next <= slots)%nat /\ ready_at ts next p /\ p < 255
      /\ forall j q, (1 <= j <= slots)%nat -> ready_at ts j q ->
           p <= q /\ ((j < next)%nat -> p < q)).
Proof.
  intros slots next.
  destruct (pick_loop_spec ts slots 1 0 255) as [[Hr Hall]|(p & Hrange & Hready & Hlt & Hmin)].
  - left. split; [done|]. intros j q Hj. apply Hall. lia.
  - right. exists p. fold next in Hrange, Hready, Hmin.
    split; [lia|]. split; [done|]. split; [done|].
    intros j q Hj. apply Hmin. lia.
Qed.

(** ** Scheduler: what a tick does to the task that was running *)

Section Tick.

Lemma update_task_lookup i upd ts j :
  Sched.update_task i upd ts !! j
  = if decide (i = j) then upd <$> ts !! j else ts !! j.
Proof.
  unfold Sched.update_task. destruct (ts !! i) as [tk|] eqn:Hi.
  - destruct (decide (i = j)) as [->|Hne].
    + rewrite list_lookup_insert_eq; [by rewrite Hi|]. by eapply lookup_lt_Some.
    + by rewrite list_lookup_insert_ne.
  - destruct (decide (i = j)) as [->|Hne]; [by rewrite Hi|done].
Qed.

Lemma wake_loop_lookup now_ms n : forall i ts j,
  Sched.wake_loop n i now_ms ts !! j
  = (if decide (i <= j < i + n)%nat then woken now_ms else id) <$> ts !! j.
Proof.
  induction n as [|n IH]; intros i ts j; cbn [Sched.wake_loop].
  { destruct (decide _); [exfalso; lia|]. by destruct (ts !! j). }
  rewrite IH. destruct (decide (j = i)) as [->|Hne].
  - destruct (decide (S i <= i < S i + n)%nat); [exfalso; lia|].
    destruct (decide (i <= i < i + S n)%nat); [|exfalso; lia].
    destruct (ts !! i) as [tk|] eqn:Hi; [|by rewrite Hi].
    simpl. unfold woken. destruct (_ && _).
    + rewrite list_lookup_insert_eq; [done|]. by eapply lookup_lt_Some.
    + by rewrite Hi.
  - assert ((match ts !! i with
             | Some t =>
               if MimicTaskState_eqb (tcb_state t) TASK_STATE_SLEEPING
                  && (tcb_wake_time t <=? now_ms)
               then <[i := Sched.set_tcb_state TASK_STATE_READY t]> ts else ts
             | None => ts
             end) !! j = ts !! j) as ->.
    { destruct (ts !! i); [|done]. destruct (_ && _); [|done].
      by rewrite list_lookup_insert_ne. }
    destruct (decide (S i <= j < S i + n)%nat), (decide (i <= j < i + S n)%nat);
      try done; exfalso; lia.
Qed.

Lemma woken_id now_ms tk : tcb_id (woken now_ms tk) = tcb_id tk.
Proof. unfold woken. by destruct (_ && _). Qed.

Lemma wake_loop_names_own_slot now_ms n i ts c :
  names_own_slot ts c -> names_own_slot (Sched.wake_loop n i now_ms ts) c.
Proof.
  intros H j tk. rewrite wake_loop_lookup. destruct (ts !! j) as [tk0|] eqn:Hj; [|done].
  simpl. intros [= <-]. rewrite <- (H j tk0 Hj).
  destruct (decide _); [by rewrite woken_id|done].
Qed.

(** The slot the scan ends on is the slot it started from or a READY one. *)
Lemma pick_loop_ready ts n i next best_prio :
  let r := Sched.pick_loop n i ts next best_prio in
  r = next \/ exists p, ready_at ts r p.
Proof.
  intros r. destruct (pick_loop_spec ts n i next best_prio) as [[H _]|(p & _ & H & _)];
    [by left|right; by exists p].
Qed.

(** The task table and the current task after a tick of the running
    kernel. *)
Lemma scheduler_tick_tasks t now_us k :
  running k = true ->
  let ts1 := Sched.wake_loop (Z.to_nat (MIMIC_MAX_TASKS t) - 1) 1 (now_us / 1000) (tasks k) in
  let next := Sched.pick_loop (Z.to_nat (MIMIC_MAX_TASKS t) - 1) 1 ts1 0 255 in
  let next_id := match ts1 !! next with Some tk => tcb_id tk | None => 0 end in
  tasks (Sched.scheduler_tick t now_us k)
  = (if next_id =? current_task k then ts1
     else Sched.update_task next (Sched.set_tcb_state TASK_STATE_RUNNING)
            (Sched.update_task (Z.to_nat (current_task k))
               (Sched.set_tcb_state TASK_STATE_READY) ts1))
  /\ current_task (Sched.scheduler_tick t now_us k)
     = (if next_id =? current_task k then current_task k else u8 next_id).
Proof.
  intros Hrun ts1 next next_id. unfold Sched.scheduler_tick. rewrite Hrun.
  destruct k. cbn -[Sched.wake_loop Sched.pick_loop Z.div Z.to_nat] in *.
  fold ts1. fold next. fold next_id. by destruct (next_id =? _).
Qed.

(** A tick of the running kernel leaves the task that was current, when it
    is not the idle task, in state READY: the scan picks it only if it is
    READY, and the context switch to any other slot sets it READY. *)
Lemma tick_previous_task_ready t now_us k tc :
  running k = true ->
  0 < current_task k ->
  tasks k !! Z.to_nat (current_task k) = Some tc ->
  names_own_slot (tasks k) (current_task k) ->
  task_state (Sched.scheduler_tick t now_us k) (Z.to_nat (current_task k))
  = Some TASK_STATE_READY.
Proof.
  intros Hrun Hc Htc Hown. unfold task_state.
  destruct (scheduler_tick_tasks t now_us k Hrun) as [-> _].
  set (c := current_task k) in *. set (ci := Z.to_nat c) in *.
  set (slots := (Z.to_nat (MIMIC_MAX_TASKS t) - 1)%nat).
  set (ts1 := Sched.wake_loop slots 1 (now_us / 1000) (tasks k)).
  set (next := Sched.pick_loop slots 1 ts1 0 255).
  assert (names_own_slot ts1 c) as Hown1 by (by apply wake_loop_names_own_slot).
  assert (exists tc1, ts1 !! ci = Some tc1) as [tc1 Htc1].
  { unfold ts1. rewrite wake_loop_lookup, Htc. by eexists. }
  assert (ci <> O) as Hci by (unfold ci; lia).
  destruct (decide (next = ci)) as [Heq|Hne].
  - (* the scan ended on the caller's slot: it is READY, and there is no switch *)
    rewrite Heq, Htc1.
    assert (tcb_id tc1 = c) as -> by (by apply (Hown1 ci tc1 Htc1)).
    rewrite Z.eqb_refl, Htc1. simpl. f_equal.
    destruct (pick_loop_ready ts1 slots 1 0 255) as [H0|(p & tk & Hl & Hst & _)];
      fold next in H0 || fold next in Hl; [lia|].
    rewrite Heq in Hl. congruence.
  - assert (((match ts1 !! next with Some tk => tcb_id tk | None => 0 end) =? c) = false) as ->.
    { apply Z.eqb_neq. destruct (ts1 !! next) as [tk|] eqn:Hn; [|lia].
      intros Hid. apply Hne. by apply (Hown1 next tk Hn). }
    rewrite !update_task_lookup.
    destruct (decide (next = ci)); [done|]. destruct (decide (ci = ci)); [|done].
    by rewrite Htc1.
Qed.

Lemma update_task_names_own_slot i upd ts c :
  (forall tk, tcb_id (upd tk) = tcb_id tk) ->
  names_own_slot ts c -> names_own_slot (Sched.update_task i upd ts) c.
Proof.
  intros Hid H j tk. rewrite update_task_lookup.
  destruct (decide (i = j)) as [->|_]; [|apply H].
  destruct (ts !! j) as [tk0|] eqn:Hj; [|done]. simpl. intros [= <-].
  rewrite Hid. by apply H.
Qed.

(** [mimic_task_free_all_memory] touches the user pool and the free
    counter only. *)
Lemma free_all_memory_frame task_id k :
  let k' := Arena.mimic_task_free_all_memory task_id k in
  tasks k' = tasks k /\ current_task k' = current_task k /\ running k' = running k
  /\ task_count k' = task_count k /\ mem_blocks k' = mem_blocks k
  /\ kernel_free k' = kernel_free k.
Proof.
  unfold Arena.mimic_task_free_all_memory.
  destruct (Arena.free_all_loop _ _ _) as [blocks [ufree frees]].
  unfold Arena.mem_coalesce_pool. destruct (Arena.merge_loop _ _ _ _) as [w bs].
  done.
Qed.

End Tick.

(** [mimic_task_sleep] never leaves its caller asleep while the kernel
    runs.  The caller is marked SLEEPING, but the tick that ends the call
    either picks another slot, and its context switch sets the slot that was
    current to READY, or finds the caller due already; with the kernel not
    running the tick returns at once and the caller stays SLEEPING. *)
Theorem sleep_leaves_caller_ready
    (t : Target) (ms now_us tick_us : Z) (k : MimicKernel) (tc : MimicTCB) :
  0 < current_task k ->
  tasks k !! Z.to_nat (current_task k) = Some tc ->
  names_own_slot (tasks k) (current_task k) ->
  let k' := Sched.mimic_task_sleep t ms now_us tick_us k in
  (running k = true ->
   task_state k' (Z.to_nat (current_task k)) = Some TASK_STATE_READY)
  /\ (running k = false ->
      task_state k' (Z.to_nat (current_task k)) = Some TASK_STATE_SLEEPING).
Proof.
  intros Hc Htc Hown k'. unfold k', Sched.mimic_task_sleep.
  destruct (Z.eqb_spec (current_task k) 0) as [H0|_]; [lia|].
  set (upd := fun tk => Sched.set_tcb_state TASK_STATE_SLEEPING
                          (Sched.set_tcb_wake_time (u32 (now_us / 1000 + ms)) tk)).
  set (k1 := set_tasks (Sched.update_task (Z.to_nat (current_task k)) upd (tasks k)) k).
  assert (tasks k1 !! Z.to_nat (current_task k) = Some (upd tc)) as Htc1.
  { unfold k1. cbn [tasks set_tasks]. rewrite update_task_lookup.
    destruct (decide _); [by rewrite Htc|done]. }
  split; intros Hrun.
  - apply (tick_previous_task_ready t tick_us k1 (upd tc)); try done.
    by apply update_task_names_own_slot.
  - unfold Sched.scheduler_tick. change (running k1) with (running k). rewrite Hrun.
    cbn [negb]. unfold task_state. by rewrite Htc1.
Qed.

(** EXIT by the current task, then the next tick.  [mimic_task_kill] frees
    the slot but leaves [current_task] pointing at it; the tick that follows
    picks another slot and its context switch sets the freed slot to READY. *)
Theorem exit_then_tick_revives_task
    (t : Target) (pf : Syscall.Platform) (a0 a1 a2 a3 now_us : Z)
    (k : MimicKernel) (tc : MimicTCB) :
  running k = true ->
  0 < current_task k < MIMIC_MAX_TASKS t ->
  tasks k !! Z.to_nat (current_task k) = Some tc ->
  tcb_state tc <> TASK_STATE_FREE ->
  names_own_slot (tasks k) (current_task k) ->
  let r := Syscall.mimic_syscall t pf MIMIC_SYS_EXIT a0 a1 a2 a3 k in
  r.1 = 0
  /\ current_task r.2 = current_task k
  /\ task_state r.2 (Z.to_nat (current_task k)) = Some TASK_STATE_FREE
  /\ task_count r.2 = u8 (task_count k - 1)
  /\ task_state (Sched.scheduler_tick t now_us r.2) (Z.to_nat (current_task k))
     = Some TASK_STATE_READY.
Proof.
  intros Hrun Hc Htc Hst Hown r. unfold r, Syscall.mimic_syscall.
  cbv zeta. change (MIMIC_SYS_EXIT =? MIMIC_SYS_EXIT) with true. cbv iota. cbn [fst snd].
  set (k0 := set_syscalls_handled (u32 (syscalls_handled k + 1)) k).
  change (current_task k0) with (current_task k).
  unfold Sched.mimic_task_kill.
  destruct (Z.eqb_spec (current_task k) 0) as [H0|_]; [lia|].
  destruct (Z.leb_spec (MIMIC_MAX_TASKS t) (current_task k)) as [Hle|_]; [lia|].
  cbn [orb]. change (tasks k0) with (tasks k). rewrite Htc.
  assert (MimicTaskState_eqb (tcb_state tc) TASK_STATE_FREE = false) as ->.
  { destruct (MimicTaskState_eqb _ _) eqn:He; [|done]. by apply MimicTaskState_eqb_eq in He. }
  cbn [negb]. cbv zeta.
  set (ci := Z.to_nat (current_task k)) in *.
  set (k1 := set_tasks (Sched.update_task ci (Sched.set_tcb_state TASK_STATE_ZOMBIE) (tasks k)) k0).
  destruct (free_all_memory_frame (current_task k) k1) as (Hts & Hcur & Hrun2 & Hcnt & _).
  set (k2 := Arena.mimic_task_free_all_memory (current_task k) k1) in *.
  set (k2' := set_tasks (Sched.update_task ci (Sched.set_tcb_state TASK_STATE_FREE)
                           (tasks k2)) k2).
  set (k3 := set_task_count (u8 (task_count k2' - 1)) k2').
  assert (tasks k3 = Sched.update_task ci (Sched.set_tcb_state TASK_STATE_FREE)
                       (Sched.update_task ci (Sched.set_tcb_state TASK_STATE_ZOMBIE) (tasks k)))
    as Hts3 by (unfold k3, k2'; cbn [tasks set_tasks set_task_count]; by rewrite Hts).
  assert (tasks k3 !! ci = Some (Sched.set_tcb_state TASK_STATE_FREE
                                   (Sched.set_tcb_state TASK_STATE_ZOMBIE tc))) as Hl3.
  { rewrite Hts3, !update_task_lookup. destruct (decide (ci = ci)); [|done]. by rewrite Htc. }
  assert (current_task k3 = current_task k) as Hcur3.
  { unfold k3, k2'. cbn [current_task set_task_count set_tasks]. by rewrite Hcur. }
  split; [done|]. split; [done|].
  split; [unfold task_state; by rewrite Hl3|].
  split; [unfold k3, k2'; cbn [task_count set_task_count set_tasks]; by rewrite Hcnt|].
  fold ci. unfold ci at 1. rewrite <- Hcur3.
  eapply tick_previous_task_ready.
  - unfold k3, k2'. cbn [running set_task_count set_tasks]. by rewrite Hrun2.
  - lia.
  - rewrite Hcur3. exact Hl3.
  - rewrite Hcur3, Hts3. do 2 (apply update_task_names_own_slot; [done|]). exact Hown.
Qed.

Lemma boot_two_tasks_names_own_slot : names_own_slot (tasks boot_two_tasks) 1.
Proof.
  intros j tk Hj.
  do 8 (destruct j as [|j];
        [vm_compute in Hj; injection Hj as <-; vm_compute; split; intros H;
         (discriminate H || reflexivity)|]).
  vm_compute in Hj. discriminate.
Qed.

Lemma sleep_leaves_caller_ready_witness :
  current_task boot_two_tasks = 1
  /\ task_state boot_two_tasks 1 = Some TASK_STATE_RUNNING
  /\ running boot_two_tasks = true
  /\ task_state (Sched.mimic_task_sleep RP2040 100 2000 2000 boot_two_tasks) 1
     = Some TASK_STATE_READY.
Proof.
  split; [reflexivity|]. split; [reflexivity|]. split; [reflexivity|].
  apply (sleep_leaves_caller_ready RP2040 100 2000 2000 boot_two_tasks
           (default Sched.tcb_zero (tasks boot_two_tasks !! 1%nat))).
  - vm_compute. reflexivity.
  - reflexivity.
  - exact boot_two_tasks_names_own_slot.
  - reflexivity.
Defined.

Lemma exit_then_tick_revives_task_witness :
  let pf := Syscall.mkPlatform 3000 0 (fun _ => false) (fun _ _ => 0) (fun _ => 0)
              (fun _ _ _ => 0) (fun _ _ _ => 0) (fun _ _ _ => 0) in
  let r := Syscall.mimic_syscall RP2040 pf MIMIC_SYS_EXIT 0 0 0 0 boot_two_tasks in
  task_state boot_two_tasks 1 = Some TASK_STATE_RUNNING
  /\ task_state r.2 1 = Some TASK_STATE_FREE
  /\ task_state (Sched.scheduler_tick RP2040 3000 r.2) 1 = Some TASK_STATE_READY.
Proof.
  intros pf r. split; [reflexivity|].
  pose proof (exit_then_tick_revives_task RP2040 pf 0 0 0 0 3000 boot_two_tasks
                (default Sched.tcb_zero (tasks boot_two_tasks !! 1%nat))
                eq_refl ltac:(vm_compute; split; reflexivity) eq_refl
                ltac:(vm_compute; discriminate) boot_two_tasks_names_own_slot)
    as (_ & _ & Hfree & _ & Hready).
  split; [exact Hfree|exact Hready].
Defined.

(** ** Task table: slot allocation *)

Section TaskAlloc.

Lemma task_alloc_loop_spec ts n : forall i,
  match Sched.task_alloc_loop n i ts with
  | Some r =>
    (i <= r < i + n)%nat
    /\ task_state_of ts r = Some TASK_STATE_FREE
    /\ forall j, (i <= j < r)%nat -> task_state_of ts j <> Some TASK_STATE_FREE
  | None =>
    forall j, (i <= j < i + n)%nat -> task_state_of ts j <> Some TASK_STATE_FREE
  end.
Proof.
  unfold task_state_of.
  induction n as [|n IH]; intros i; cbn [Sched.task_alloc_loop]; [intros; lia|].
  destruct (ts !! i) as [tk|] eqn:Hi.
  - destruct (MimicTaskState_eqb (tcb_state tk) TASK_STATE_FREE) eqn:Hst.
    + apply MimicTaskState_eqb_eq in Hst. split; [lia|]. split; [by rewrite Hi; simpl; f_equal|].
      intros; lia.
    + assert (tcb_state tk <> TASK_STATE_FREE) as Hne.
      { intros He. apply MimicTaskState_eqb_eq in He. congruence. }
      specialize (IH (S i)). destruct (Sched.task_alloc_loop n (S i) ts) as [r|].
      * destruct IH as (Hr & Hfree & Hbefore). split; [lia|]. split; [done|].
        intros j Hj. destruct (decide (j = i)) as [->|Hji].
        -- rewrite Hi. simpl. congruence.
        -- apply Hbefore. lia.
      * intros j Hj. destruct (decide (j = i)) as [->|Hji].
        -- rewrite Hi. simpl. congruence.
        -- apply IH. lia.
  - intros j Hj. assert (ts !! j = None) as ->; [|done].
    apply lookup_ge_None. apply lookup_ge_None in Hi. lia.
Qed.

End TaskAlloc.

(** [task_alloc] claims the first FREE slot among the slots 1 to
    [MIMIC_MAX_TASKS - 1], never the idle slot 0: the slot becomes BLOCKED,
    carries its index as id, the task count goes up by one and the other
    slots stay as they are.  With no FREE slot there it returns no task and
    changes nothing. *)
Theorem task_alloc_claims_first_free_slot (t : Target) (k : MimicKernel) :
  match Sched.task_alloc t k with
  | (Some i, k') =>
    (1 <= i)%nat /\ Z.of_nat i < MIMIC_MAX_TASKS t
    /\ task_state k i = Some TASK_STATE_FREE
    /\ (forall j, (1 <= j < i)%nat -> task_state k j <> Some TASK_STATE_FREE)
    /\ task_state k' i = Some TASK_STATE_BLOCKED
    /\ (tcb_id <$> tasks k' !! i) = Some (Z.of_nat i)
    /\ task_count k' = u8 (task_count k + 1)
    /\ (forall j, j <> i -> tasks k' !! j = tasks k !! j)
  | (None, k') =>
    k' = k
    /\ forall j, (1 <= j)%nat -> Z.of_nat j < MIMIC_MAX_TASKS t ->
         task_state k j <> Some TASK_STATE_FREE
  end.
Proof.
  unfold Sched.task_alloc.
  pose proof (task_alloc_loop_spec (tasks k) (Z.to_nat (MIMIC_MAX_TASKS t) - 1) 1) as H.
  assert (0 < MIMIC_MAX_TASKS t) as Hmax by (destruct t; simpl; lia).
  destruct (Sched.task_alloc_loop _ _ _) as [i|].
  - destruct H as (Hr & Hfree & Hbefore).
    split; [lia|]. split; [lia|]. split; [done|]. split; [done|].
    unfold task_state, task_state_of in *. cbn [tasks set_tasks set_task_count task_count].
    rewrite update_task_lookup. destruct (decide (i = i)); [|done].
    destruct (tasks k !! i) as [tk|]; [|done].
    split; [done|]. split; [done|]. split; [done|].
    intros j Hj. rewrite update_task_lookup. by destruct (decide (i = j)).
  - split; [done|]. intros j Hj1 Hj2. apply H. lia.
Qed.

(** ** Task kill: what is freed *)

Section TaskKill.

Lemma free_all_loop_map task_id bs : forall acc,
  (Arena.free_all_loop bs task_id acc).1
  = map (fun b => if (blk_task_id b =? task_id) && negb (blk_free b)
                  then Arena.set_blk_free true b else b) bs.
Proof.
  induction bs as [|b bs IH]; intros acc; simpl; [done|].
  destruct (_ && _).
  - specialize (IH (u32 (acc.1 + blk_size b), u32 (acc.2 + 1))).
    destruct (Arena.free_all_loop bs task_id _) as [rest acc']. simpl in *. by rewrite IH.
  - specialize (IH acc). destruct (Arena.free_all_loop bs task_id acc) as [rest acc'].
    simpl in *. by rewrite IH.
Qed.

Lemma free_all_loop_in_use task_id bs acc :
  filter (fun b => in_use b = true) (Arena.free_all_loop bs task_id acc).1
  = filter (fun b => kept_by_others task_id b = true) bs.
Proof.
  rewrite free_all_loop_map. induction bs as [|b bs IH]; [done|].
  cbn [map]. rewrite !filter_cons, IH. unfold kept_by_others, in_use.
  destruct (blk_task_id b =? task_id), (blk_free b) eqn:Hf; simpl; rewrite ?Hf; simpl;
    repeat case_decide; done.
Qed.

Lemma free_all_memory_in_use task_id k :
  filter (fun b => in_use b = true)
    (user_blocks (Arena.mimic_task_free_all_memory task_id k))
  ≡ₚ filter (fun b => kept_by_others task_id b = true) (user_blocks k).
Proof.
  unfold Arena.mimic_task_free_all_memory.
  pose proof (free_all_loop_in_use task_id (user_blocks k) (user_free k, total_frees k)) as Hl.
  destruct (Arena.free_all_loop _ _ _) as [blocks [ufree frees]]. simpl in Hl.
  rewrite <- Hl.
  pose proof (coalesce_blocks_view UserPool
                (set_total_frees frees (set_user_free ufree (set_user_blocks blocks k)))) as Hv.
  simpl in Hv. rewrite Hv. rewrite merge_rev_in_use. simpl.
  apply filter_Permutation. apply sort_outer_perm.
Qed.

End TaskKill.

(** [mimic_task_kill] of a task in a slot 1 to [MIMIC_MAX_TASKS - 1] that
    is not FREE: the slot becomes FREE and the task count goes down by one;
    the blocks of the user pool still in use are the blocks that were in use
    under another task's tag, each unchanged; the kernel pool and the other
    slots are left alone.  For task 0 and for ids past the table the call
    does nothing. *)
Theorem task_kill_frees_own_memory_only
    (t : Target) (task_id : Z) (k : MimicKernel) (tk : MimicTCB) :
  0 < task_id < MIMIC_MAX_TASKS t ->
  tasks k !! Z.to_nat task_id = Some tk ->
  tcb_state tk <> TASK_STATE_FREE ->
  let k' := Sched.mimic_task_kill t task_id k in
  task_state k' (Z.to_nat task_id) = Some TASK_STATE_FREE
  /\ task_count k' = u8 (task_count k - 1)
  /\ filter (fun b => in_use b = true) (user_blocks k')
     ≡ₚ filter (fun b => kept_by_others task_id b = true) (user_blocks k)
  /\ mem_blocks k' = mem_blocks k
  /\ (forall j, j <> Z.to_nat task_id -> tasks k' !! j = tasks k !! j)
  /\ (forall id, id = 0 \/ MIMIC_MAX_TASKS t <= id -> Sched.mimic_task_kill t id k = k).
Proof.
  intros Hid Htk Hst k'. unfold k', Sched.mimic_task_kill.
  destruct (Z.eqb_spec task_id 0) as [|_]; [lia|].
  destruct (Z.leb_spec (MIMIC_MAX_TASKS t) task_id) as [|_]; [lia|].
  cbn [orb]. rewrite Htk.
  assert (MimicTaskState_eqb (tcb_state tk) TASK_STATE_FREE = false) as ->.
  { destruct (MimicTaskState_eqb _ _) eqn:He; [|done]. by apply MimicTaskState_eqb_eq in He. }
  cbn [negb]. cbv zeta.
  set (ci := Z.to_nat task_id) in *.
  set (k1 := set_tasks (Sched.update_task ci (Sched.set_tcb_state TASK_STATE_ZOMBIE) (tasks k)) k).
  destruct (free_all_memory_frame task_id k1) as (Hts & _ & _ & Hcnt & Hmem & _).
  pose proof (free_all_memory_in_use task_id k1) as Huse.
  set (k2 := Arena.mimic_task_free_all_memory task_id k1) in *.
  cbn [task_state tasks set_tasks set_task_count task_count user_blocks mem_blocks].
  unfold task_state. cbn [tasks set_tasks set_task_count].
  rewrite Hts. unfold k1 at 1 2. cbn [tasks set_tasks].
  rewrite !update_task_lookup. destruct (decide (ci = ci)); [|done]. rewrite Htk.
  split; [done|]. split; [by rewrite Hcnt|]. split; [exact Huse|]. split; [exact Hmem|].
  split.
  - intros j Hj. rewrite !update_task_lookup. by destruct (decide (ci = j)).
  - intros id [->|Hge]; [done|].
    destruct (Z.eqb_spec id 0); [done|].
    by destruct (Z.leb_spec (MIMIC_MAX_TASKS t) id); [|lia].
Qed.

Lemma task_kill_frees_own_memory_only_witness :
  0 < 1 < MIMIC_MAX_TASKS RP2040
  /\ task_state two_tasks_with_memory 1 = Some TASK_STATE_RUNNING
  /\ filter (fun b => in_use b = true)
       (user_blocks (Sched.mimic_task_kill RP2040 1 two_tasks_with_memory))
     ≡ₚ filter (fun b => kept_by_others 1 b = true) (user_blocks two_tasks_with_memory).
Proof.
  assert (0 < 1 < MIMIC_MAX_TASKS RP2040) as H1 by (simpl; lia).
  split; [exact H1|]. split; [reflexivity|].
  assert (tasks two_tasks_with_memory !! Z.to_nat 1
          = Some (default Sched.tcb_zero (tasks two_tasks_with_memory !! 1%nat))) as H2
    by (vm_compute; reflexivity).
  apply (task_kill_frees_own_memory_only RP2040 1 two_tasks_with_memory _ H1 H2).
  vm_compute. discriminate.
Defined.

(** ** Loader: header validation *)

Section HeaderValidation.

(** C3 (amended).  For a header whose [text_size] is an unsigned value,
    [mimic_validate_header] returns [MIMIC_OK] exactly when the magic is
    "MIMI", the version is 1, the architecture matches the target, [text_size]
    is positive and [entry_offset < text_size].  The magic is tested first and
    the version second: a bad magic yields [MIMIC_ERR_CORRUPT] and a bad
    version under a good magic yields [MIMIC_ERR_INVAL], whatever the other
    fields hold.  A failing header yields [MIMIC_ERR_CORRUPT] (magic),
    [MIMIC_ERR_INVAL] (version, empty text, entry outside the text) or
    [MIMIC_ERR_NOEXEC] (architecture), never [MIMIC_OK]; a header with
    [entry_offset = text_size] is rejected. *)
Theorem validate_header_accepts_iff (t : Target) (hdr : MimiHeader) :
  0 <= text_size hdr ->
  (Loader.mimic_validate_header t hdr = MIMIC_OK <-> header_acceptable t hdr)
  /\ (magic hdr <> MIMI_MAGIC -> Loader.mimic_validate_header t hdr = MIMIC_ERR_CORRUPT)
  /\ (magic hdr = MIMI_MAGIC -> version hdr <> MIMI_VERSION ->
      Loader.mimic_validate_header t hdr = MIMIC_ERR_INVAL)
  /\ (magic hdr = MIMI_MAGIC -> version hdr = MIMI_VERSION ->
      arch_matches t (arch hdr) = false ->
      Loader.mimic_validate_header t hdr = MIMIC_ERR_NOEXEC)
  /\ (magic hdr = MIMI_MAGIC -> version hdr = MIMI_VERSION ->
      arch_matches t (arch hdr) = true ->
      text_size hdr = 0 \/ text_size hdr <= entry_offset hdr ->
      Loader.mimic_validate_header t hdr = MIMIC_ERR_INVAL)
  /\ (entry_offset hdr = text_size hdr -> Loader.mimic_validate_header t hdr <> MIMIC_OK).
Proof.
  intros Htext. unfold Loader.mimic_validate_header, header_acceptable.
  assert (Harch : (match t with
                   | RP2350 => negb (arch hdr =? MIMI_ARCH_CORTEX_M33)
                               && negb (arch hdr =? MIMI_ARCH_RISCV)
                   | RP2040 => negb (arch hdr =? MIMI_ARCH_CORTEX_M0P)
                   end) = negb (arch_matches t (arch hdr))).
  { destruct t; simpl; [done|]. by rewrite negb_orb. }
  rewrite Harch. clear Harch.
  destruct (Z.eqb_spec (magic hdr) MIMI_MAGIC) as [Hm|Hm];
    destruct (Z.eqb_spec (version hdr) MIMI_VERSION) as [Hv|Hv];
    destruct (arch_matches t (arch hdr)) eqn:Ha;
    destruct (Z.eqb_spec (text_size hdr) 0) as [Ht|Ht];
    destruct (Z.leb_spec (text_size hdr) (entry_offset hdr)) as [He|He];
    cbn [negb];
    unfold MIMIC_OK, MIMIC_ERR_CORRUPT, MIMIC_ERR_INVAL, MIMIC_ERR_NOEXEC;
    repeat split; intros; try done; try lia;
    repeat match goal with H : _ /\ _ |- _ => destruct H end;
    try done; try lia.
Qed.

Lemma validate_header_accepts_iff_witness :
  let hdr := mkHeader MIMI_MAGIC MIMI_VERSION 0 MIMI_ARCH_CORTEX_M0P 0 6 0 0 0 0 1 4096 8192 [] in
  0 <= text_size hdr
  /\ Loader.mimic_validate_header RP2040 hdr = MIMIC_OK.
Proof.
  intros hdr.
  assert (0 <= text_size hdr) as H by (simpl; lia).
  split; [exact H|].
  apply (proj1 (validate_header_accepts_iff RP2040 hdr H)).
  unfold header_acceptable. simpl. repeat split; lia.
Defined.

(** C3 as stated fails: a header with a wrong magic does not yield the
    NOT_EXECUTABLE error but [MIMIC_ERR_CORRUPT], and one with a wrong version
    or an entry at [text_size] yields [MIMIC_ERR_INVAL]. *)
Lemma validate_header_error_codes_differ :
  Loader.mimic_validate_header RP2040
    (mkHeader 0 MIMI_VERSION 0 MIMI_ARCH_CORTEX_M0P 0 6 0 0 0 0 1 4096 8192 [])
  = MIMIC_ERR_CORRUPT
  /\ Loader.mimic_validate_header RP2040
       (mkHeader MIMI_MAGIC 2 0 MIMI_ARCH_CORTEX_M0P 0 6 0 0 0 0 1 4096 8192 [])
     = MIMIC_ERR_INVAL
  /\ Loader.mimic_validate_header RP2040
       (mkHeader MIMI_MAGIC MIMI_VERSION 0 MIMI_ARCH_CORTEX_M0P 6 6 0 0 0 0 1 4096 8192 [])
     = MIMIC_ERR_INVAL
  /\ MIMIC_ERR_CORRUPT <> MIMIC_ERR_NOEXEC
  /\ MIMIC_ERR_INVAL <> MIMIC_ERR_NOEXEC.
Proof. repeat split; done. Qed.

End HeaderValidation.

(** ** Loader: the THUMB_CALL patch *)

Section ThumbCall.

Lemma land_1_testbit o n : 0 <= n -> Z.land (Z.shiftr o n) 1 = Z.b2z (Z.testbit o n).
Proof.
  intros Hn. change 1 with (Z.ones 1). rewrite Z.land_ones by lia.
  change (2 ^ 1) with 2. rewrite <- Z.bit0_mod. f_equal.
  rewrite Z.shiftr_spec by lia. f_equal.
Qed.

Lemma land_ones_bits o lo w :
  0 <= lo -> 0 <= w -> Z.land (Z.shiftr o lo) (Z.ones w) = Loader.spec_bits o lo w.
Proof.
  intros Hlo Hw. rewrite Z.land_ones by lia. rewrite Z.shiftr_div_pow2 by lia. done.
Qed.

Lemma lor_range a b n :
  0 <= n -> 0 <= a < 2 ^ n -> 0 <= b < 2 ^ n -> 0 <= Z.lor a b < 2 ^ n.
Proof.
  intros Hn Ha Hb. split; [apply Z.lor_nonneg; lia|].
  destruct (Z.eq_dec (Z.lor a b) 0) as [->|Hne]; [lia|].
  assert (0 <= Z.lor a b) by (apply Z.lor_nonneg; lia).
  apply Z.log2_lt_pow2; [lia|].
  rewrite Z.log2_lor by lia.
  assert (forall x, 0 <= x < 2 ^ n -> 0 < n -> Z.log2 x < n) as Hlog.
  { intros x Hx Hpos. destruct (Z.eq_dec x 0) as [->|]; [simpl; lia|].
    apply Z.log2_lt_pow2; lia. }
  assert (0 < n).
  { destruct (Z.eq_dec n 0) as [->|]; [|lia].
    assert (a = 0) by lia. assert (b = 0) by lia. subst. done. }
  apply Z.max_lub_lt; by apply Hlog.
Qed.

Lemma spec_bits_range o lo w : 0 <= w -> 0 <= Loader.spec_bits o lo w < 2 ^ w.
Proof. intros Hw. unfold Loader.spec_bits. apply Z.mod_pos_bound. lia. Qed.

Lemma u16_small x : 0 <= x < 2 ^ 16 -> u16 x = x.
Proof. intros H. unfold u16. apply Z.mod_small. lia. Qed.

(** The loader's shifts and masks extract the fields the specification
    names. *)
Lemma thumb_call_hi_spec o : Loader.thumb_call_hi o = Loader.spec_bl_hi o.
Proof.
  unfold Loader.thumb_call_hi, Loader.spec_bl_hi, Loader.spec_bit. cbv zeta.
  rewrite land_1_testbit by lia.
  change 0x3FF with (Z.ones 10). rewrite land_ones_bits by lia.
  pose proof (spec_bits_range o 12 10 ltac:(lia)) as Hr.
  apply u16_small.
  destruct (Z.testbit o 24); cbn [Z.b2z].
  - change (Z.lor 61440 (Z.shiftl 1 10)) with 62464. apply lor_range; lia.
  - change (Z.lor 61440 (Z.shiftl 0 10)) with 61440. apply lor_range; lia.
Qed.

Lemma thumb_call_lo_spec o : Loader.thumb_call_lo o = Loader.spec_bl_lo o.
Proof.
  unfold Loader.thumb_call_lo, Loader.spec_bl_lo, Loader.spec_bit. cbv zeta.
  rewrite !land_1_testbit by lia.
  change 0x7FF with (Z.ones 11). rewrite land_ones_bits by lia.
  pose proof (spec_bits_range o 1 11 ltac:(lia)) as Hr.
  set (imm11 := Loader.spec_bits o 1 11) in *.
  destruct (Z.testbit o 24), (Z.testbit o 23), (Z.testbit o 22); cbn [Z.b2z xorb negb].
  all: match goal with
       | |- u16 (Z.lor ?c ?i) = Z.lor ?d ?i =>
         let c' := eval vm_compute in c in
         let d' := eval vm_compute in d in
         change c with c'; change d with d'
       end.
  all: apply u16_small; apply lor_range; lia.
Qed.

(** C2.  For a THUMB_CALL relocation against a valid section the loader
    computes [offset = symbol_value - patch_addr - 4] as a signed 32-bit value
    and stores, at [patch_addr] and [patch_addr + 2], the two halfwords of the
    specification's BL formula.  With the symbol at text offset [0x200], the
    call site at text offset [0x100] and the task loaded at [0x20000000], the
    halfwords in memory at [0x20000100] are [0xF000] and [0xF87E]. *)
Theorem thumb_call_patch_matches_spec
    (addr : Z) (tm : MimicTaskMem) (hdr : MimiHeader)
    (symtab : option (list MimiSymbol)) (reloc : MimiReloc) (m : gmap Z Z)
    (patch_addr : Z) :
  r_type reloc = MIMI_RELOC_THUMB_CALL ->
  Loader.reloc_patch_addr addr tm reloc = Some patch_addr ->
  let sym_value := Loader.reloc_sym_value addr tm hdr symtab reloc in
  let offset := s32 (sym_value - patch_addr - 4) in
  Loader.apply_reloc addr tm hdr symtab reloc m
  = Loader.store16 (Loader.store16 m patch_addr (Loader.spec_bl_hi offset))
      (patch_addr + 2) (Loader.spec_bl_lo offset)
  /\ (let m' := Loader.apply_reloc 0x20000000 bl_layout bl_header (Some [bl_symbol])
                  bl_reloc ∅ in
      Loader.reloc_sym_value 0x20000000 bl_layout bl_header (Some [bl_symbol]) bl_reloc
        - 0x20000100 - 4 = 0xFC
      /\ Loader.load16 m' 0x20000100 = 0xF000
      /\ Loader.load16 m' 0x20000102 = 0xF87E).
Proof.
  intros Htype Hpatch sym_value offset. split.
  - unfold Loader.apply_reloc. rewrite Hpatch. unfold Loader.patch. rewrite Htype.
    cbn [Z.eqb MIMI_RELOC_THUMB_CALL MIMI_RELOC_ABS32 MIMI_RELOC_REL32 Pos.eqb].
    fold sym_value. fold offset.
    by rewrite thumb_call_hi_spec, thumb_call_lo_spec.
  - vm_compute. repeat split; reflexivity.
Qed.

Lemma thumb_call_patch_matches_spec_witness :
  Loader.load16
    (Loader.apply_reloc 0x20000000 bl_layout bl_header (Some [bl_symbol]) bl_reloc ∅)
    0x20000100 = Loader.spec_bl_hi 0xFC
  /\ Loader.load16
       (Loader.apply_reloc 0x20000000 bl_layout bl_header (Some [bl_symbol]) bl_reloc ∅)
       0x20000102 = Loader.spec_bl_lo 0xFC.
Proof.
  pose proof (thumb_call_patch_matches_spec 0x20000000 bl_layout bl_header
                (Some [bl_symbol]) bl_reloc ∅ 0x20000100 eq_refl eq_refl) as [H _].
  cbv zeta in H. rewrite H. vm_compute. split; reflexivity.
Defined.

End ThumbCall.

(** ** Compiler back end: code generation and linking *)

Section CompilePipeline.

Lemma mimic_fread_enough bytes pos n :
  0 <= pos -> 0 <= n -> pos + n <= Z.of_nat (length bytes) ->
  Loader.mimic_fread (Loader.mkFile bytes pos) n
  = (take (Z.to_nat n) (drop (Z.to_nat pos) bytes), Loader.mkFile bytes (pos + n)).
Proof.
  intros Hp Hn Hle. unfold Loader.mimic_fread, Loader.file_size. simpl.
  replace (Z.max 0 (Z.min n (Z.of_nat (length bytes) - pos))) with n by lia. done.
Qed.






End CompilePipeline.

(** ** Loader: the relocation loop *)

Section RelocLoop.

Variables (addr : Z) (tm : MimicTaskMem) (hdr : MimiHeader).
Variable symtab : option (list MimiSymbol).

Lemma mimic_fread_length f n :
  0 <= Loader.f_pos f ->
  Z.of_nat (length (Loader.mimic_fread f n).1)
  = Z.max 0 (Z.min n (Loader.file_size f - Loader.f_pos f)).
Proof.
  intros Hpos. unfold Loader.mimic_fread, Loader.file_size. cbn [fst].
  rewrite length_take, length_drop. lia.
Qed.

Lemma mimic_fread_pos f n :
  Loader.f_pos (Loader.mimic_fread f n).2
  = Loader.f_pos f + Z.max 0 (Z.min n (Loader.file_size f - Loader.f_pos f))
  /\ Loader.file_size (Loader.mimic_fread f n).2 = Loader.file_size f.
Proof. done. Qed.

(** Whether the loop runs to its end depends on the length of the file
    alone: every record must be there in full. *)
Lemma reloc_loop_completes_iff n : forall f m,
  0 <= Loader.f_pos f ->
  (Loader.reloc_loop n f addr tm hdr symtab m).1 = true
  <-> (n = O \/ Loader.f_pos f + Loader.sizeof_MimiReloc * Z.of_nat n <= Loader.file_size f).
Proof.
  unfold Loader.sizeof_MimiReloc.
  induction n as [|n IH]; intros f m Hpos; [by split; [left|]|].
  cbn [Loader.reloc_loop].
  pose proof (mimic_fread_length f Loader.sizeof_MimiReloc Hpos) as Hlen.
  pose proof (mimic_fread_pos f Loader.sizeof_MimiReloc) as [Hp Hs].
  destruct (Loader.mimic_fread f Loader.sizeof_MimiReloc) as [rb f'].
  cbn [fst snd] in Hlen, Hp, Hs. unfold Loader.sizeof_MimiReloc in *.
  destruct (Z.eqb_spec (Z.of_nat (length rb)) 12) as [He|He]; cbn [negb].
  - rewrite IH by lia. rewrite Hp, Hs. split; intros H; right; lia.
  - cbn [fst]. split; [done|]. intros [H|H]; [done|lia].
Qed.

Lemma apply_reloc_bad_section reloc m :
  r_section reloc <> MIMI_SECT_TEXT -> r_section reloc <> MIMI_SECT_RODATA ->
  r_section reloc <> MIMI_SECT_DATA ->
  Loader.apply_reloc addr tm hdr symtab reloc m = m.
Proof.
  intros H1 H2 H3. unfold Loader.apply_reloc, Loader.reloc_patch_addr.
  destruct (Z.eqb_spec (r_section reloc) MIMI_SECT_TEXT); [done|].
  destruct (Z.eqb_spec (r_section reloc) MIMI_SECT_RODATA); [done|].
  by destruct (Z.eqb_spec (r_section reloc) MIMI_SECT_DATA).
Qed.

Lemma reloc_sym_value_bad_index reloc :
  symbol_count hdr <= r_symbol_idx reloc \/ symtab = None ->
  Loader.reloc_sym_value addr tm hdr symtab reloc = 0.
Proof.
  intros H. unfold Loader.reloc_sym_value. destruct symtab as [syms|]; [|done].
  destruct H as [H|H]; [|done].
  by destruct (Z.ltb_spec (r_symbol_idx reloc) (symbol_count hdr)); [lia|].
Qed.

End RelocLoop.

(** C10.  A relocation record whose section is none of TEXT, RODATA and
    DATA leaves the task memory as it is; one whose symbol index is not below
    the header's symbol count, or that is read when no symbol table was loaded,
    is applied with symbol value 0; the relocation loop runs to its end
    exactly when the file holds every record in full, whatever the records
    say; and two binaries with such records load with [MIMIC_OK]: in the
    first, the word at text offset 0 keeps its bytes (record skipped), the
    word at offset 4 becomes 0 (symbol index 7 of 1) and the word at offset 8
    the address of [main]; in the second, without a symbol table, the word
    at offset 4 becomes 0. *)
Theorem malformed_reloc_does_not_fail_load
    (addr : Z) (tm : MimicTaskMem) (hdr : MimiHeader)
    (symtab : option (list MimiSymbol)) (reloc : MimiReloc) (m : gmap Z Z) :
  (r_section reloc <> MIMI_SECT_TEXT -> r_section reloc <> MIMI_SECT_RODATA ->
   r_section reloc <> MIMI_SECT_DATA ->
   Loader.apply_reloc addr tm hdr symtab reloc m = m)
  /\ (symbol_count hdr <= r_symbol_idx reloc \/ symtab = None ->
      Loader.reloc_sym_value addr tm hdr symtab reloc = 0
      /\ forall patch_addr, Loader.reloc_patch_addr addr tm reloc = Some patch_addr ->
           Loader.apply_reloc addr tm hdr symtab reloc m
           = Loader.patch m (r_type reloc) patch_addr 0)
  /\ (forall n f, 0 <= Loader.f_pos f ->
        (Loader.reloc_loop n f addr tm hdr symtab m).1 = true
        <-> (n = O \/ Loader.f_pos f + Loader.sizeof_MimiReloc * Z.of_nat n
                      <= Loader.file_size f))
  /\ (let r := Loader.mimic_load_binary RP2040 (Loader.Opened odd_binary)
                 fresh_task (booted RP2040) ∅ in
      let base := mem_base (tcb_mem (load_task r)) in
      load_status r = MIMIC_OK /\ base = 0x20010000
      /\ Loader.load32 (load_memory r) base = 0xDDCCBBAA
      /\ Loader.load32 (load_memory r) (base + 4) = 0
      /\ Loader.load32 (load_memory r) (base + 8) = base + 4)
  /\ (let r := Loader.mimic_load_binary RP2040 (Loader.Opened bare_binary)
                 fresh_task (booted RP2040) ∅ in
      let base := mem_base (tcb_mem (load_task r)) in
      load_status r = MIMIC_OK
      /\ Loader.load32 (load_memory r) (base + 4) = 0).
Proof.
  split; [apply apply_reloc_bad_section|].
  split.
  { intros H. pose proof (reloc_sym_value_bad_index addr tm hdr symtab reloc H) as Hv.
    split; [done|]. intros pa Hpa. unfold Loader.apply_reloc. by rewrite Hpa, Hv. }
  split; [intros n f; apply reloc_loop_completes_iff|].
  split; vm_compute; repeat split; reflexivity.
Qed.

(** ** Code generator: the BL encoder *)

Section CodegenBL.

Lemma shiftr_sign (offset n : Z) :
  22 <= n <= 25 -> - 2 ^ 22 <= offset < 2 ^ 22 ->
  Z.shiftr offset n = if offset <? 0 then -1 else 0.
Proof.
  intros Hn Hr. rewrite Z.shiftr_div_pow2 by lia.
  assert (2 ^ 22 <= 2 ^ n) as Hpow by (apply Z.pow_le_mono_r; lia).
  destruct (Z.ltb_spec offset 0).
  - symmetry. apply (Z.div_unique_pos offset (2 ^ n) (-1) (offset + 2 ^ n)); lia.
  - apply Z.div_small. lia.
Qed.

(** [thumb_bl] takes S, I1 and I2 from the halved offset, one bit too high;
    for a call within 4 MB these bits all equal the sign, and the two
    halfwords are the ones the loader stores for the same offset.  At
    [offset = 0x400000] they are not. *)
Theorem thumb_bl_matches_loader (offset : Z) :
  - 2 ^ 22 <= offset < 2 ^ 22 ->
  Codegen.thumb_bl offset
  = u32 (Z.lor (Z.shiftl (Loader.thumb_call_hi offset) 16) (Loader.thumb_call_lo offset))
  /\ Codegen.thumb_bl 0x400000
     <> u32 (Z.lor (Z.shiftl (Loader.thumb_call_hi 0x400000) 16)
                   (Loader.thumb_call_lo 0x400000)).
Proof.
  intros Hr. split; [|vm_compute; discriminate].
  unfold Codegen.thumb_bl, Loader.thumb_call_hi, Loader.thumb_call_lo. cbv zeta.
  rewrite !(Z.shiftr_shiftr offset 1) by lia.
  change (1 + 24) with 25. change (1 + 23) with 24. change (1 + 22) with 23.
  change (1 + 11) with 12.
  rewrite (shiftr_sign offset 25), (shiftr_sign offset 24), (shiftr_sign offset 23),
    (shiftr_sign offset 22) by lia.
  reflexivity.
Qed.

Lemma thumb_bl_matches_loader_witness :
  - 2 ^ 22 <= 0xFC < 2 ^ 22 /\ Codegen.thumb_bl 0xFC = 0xF000F87E.
Proof.
  split; [lia|].
  rewrite (proj1 (thumb_bl_matches_loader 0xFC ltac:(lia))). reflexivity.
Defined.

End CodegenBL.

(** ** Loader: the image of a loaded binary *)

Section LoadImage.

Lemma byte_at_range bs i : Forall is_byte bs -> 0 <= Loader.byte_at bs i < 2 ^ 8.
Proof.
  intros Hb. unfold Loader.byte_at. destruct (bs !! i) as [b|] eqn:Hi; simpl; [|lia].
  apply (Forall_lookup_1 _ _ _ _ Hb Hi).
Qed.

Lemma shiftl_range a n m : 0 <= n -> 0 <= m -> 0 <= a < 2 ^ n -> 0 <= Z.shiftl a m < 2 ^ (n + m).
Proof.
  intros Hn Hm Ha. rewrite Z.shiftl_mul_pow2, Z.pow_add_r by lia.
  assert (0 < 2 ^ m) by (apply Z.pow_pos_nonneg; lia). nia.
Qed.

Lemma le16_at_range bs i : Forall is_byte bs -> 0 <= Loader.le16_at bs i < 2 ^ 16.
Proof.
  intros Hb. unfold Loader.le16_at. apply lor_range; [lia| |].
  - pose proof (byte_at_range bs i Hb). lia.
  - apply (shiftl_range _ 8 8); [lia..|]. by apply byte_at_range.
Qed.

Lemma le32_at_range bs i : Forall is_byte bs -> 0 <= Loader.le32_at bs i < 2 ^ 32.
Proof.
  intros Hb. unfold Loader.le32_at. apply lor_range; [lia| |].
  - pose proof (le16_at_range bs i Hb). lia.
  - apply (shiftl_range _ 16 16); [lia..|]. by apply le16_at_range.
Qed.

Lemma load8_store8 m a v x :
  Loader.load8 (Loader.store8 m a v) x = if decide (x = a) then u8 v else Loader.load8 m x.
Proof.
  unfold Loader.load8, Loader.store8. destruct (decide (x = a)) as [->|Hne].
  - by rewrite lookup_insert_eq.
  - by rewrite lookup_insert_ne.
Qed.

Lemma lookup_store8_ne m a v x : x <> a -> Loader.store8 m a v !! x = m !! x.
Proof. intros. unfold Loader.store8. by rewrite lookup_insert_ne. Qed.

Lemma store_bytes_outside bs : forall m a x,
  x < a \/ a + Z.of_nat (length bs) <= x -> Loader.store_bytes m a bs !! x = m !! x.
Proof.
  induction bs as [|b bs IH]; intros m a x Hx; [done|].
  cbn [Loader.store_bytes]. rewrite IH by (simpl in Hx; lia).
  apply lookup_store8_ne. simpl in Hx. lia.
Qed.

Lemma store_bytes_inside bs : forall m a i b,
  bs !! i = Some b -> Loader.load8 (Loader.store_bytes m a bs) (a + Z.of_nat i) = u8 b.
Proof.
  induction bs as [|b0 bs IH]; intros m a i b Hi; [done|].
  cbn [Loader.store_bytes]. destruct i as [|i].
  - injection Hi as ->. unfold Loader.load8. rewrite store_bytes_outside by lia.
    rewrite Z.add_0_r. unfold Loader.store8. by rewrite lookup_insert_eq.
  - replace (a + Z.of_nat (S i)) with (a + 1 + Z.of_nat i) by lia. by apply IH.
Qed.

Lemma header_fields_range bytes :
  Forall is_byte bytes ->
  let hdr := Loader.decode_header (take 68 bytes) in
  0 <= text_size hdr < 2 ^ 32 /\ 0 <= rodata_size hdr < 2 ^ 32
  /\ 0 <= data_size hdr < 2 ^ 32 /\ 0 <= bss_size hdr < 2 ^ 32
  /\ 0 <= stack_request hdr < 2 ^ 32 /\ 0 <= heap_request hdr < 2 ^ 32
  /\ 0 <= entry_offset hdr < 2 ^ 32 /\ 0 <= reloc_count hdr < 2 ^ 32.
Proof.
  intros Hb hdr. assert (Forall is_byte (take 68 bytes)) as Hb' by by apply Forall_take.
  unfold hdr, Loader.decode_header. cbn [text_size rodata_size data_size bss_size
    stack_request heap_request entry_offset reloc_count].
  repeat split; by apply le32_at_range.
Qed.

Lemma request_size_fits hdr :
  0 <= text_size hdr -> 0 <= rodata_size hdr -> 0 <= data_size hdr -> 0 <= bss_size hdr ->
  0 <= stack_request hdr -> 0 <= heap_request hdr ->
  file_sections hdr + bss_size hdr + stack_size_of hdr + heap_size_of hdr + 31 < 2 ^ 31 ->
  request_size hdr
  = 32 * ((file_sections hdr + bss_size hdr + stack_size_of hdr + heap_size_of hdr + 31) / 32).
Proof.
  intros Ht Hr Hd Hb Hs Hh Hsum. unfold request_size.
  assert (0 <= stack_size_of hdr) by (unfold stack_size_of; destruct (_ =? _); lia).
  assert (0 <= heap_size_of hdr) by (unfold heap_size_of; destruct (_ =? _); lia).
  unfold file_sections in *.
  rewrite (u32_small (text_size hdr + _ + _ + _)) by lia.
  rewrite (u32_small (stack_size_of hdr + _)) by lia.
  rewrite (u32_small (_ + (stack_size_of hdr + _))) by lia.
  pose proof (align_size_eq (text_size hdr + rodata_size hdr + data_size hdr + bss_size hdr
                             + (stack_size_of hdr + heap_size_of hdr))) as Ha.
  unfold Arena.align_size, MIMIC_MEM_ALIGN in Ha.
  replace (_ + 32 - 1) with (text_size hdr + rodata_size hdr + data_size hdr + bss_size hdr
                             + (stack_size_of hdr + heap_size_of hdr) + 31) in Ha by lia.
  change (32 - 1) with 31 in Ha. rewrite Ha. rewrite u32_small by lia. f_equal. f_equal. lia.
Qed.

Lemma fread_or_skip (bytes : list Z) pos n :
  0 <= pos -> 0 <= n -> pos + n <= Z.of_nat (length bytes) ->
  (if 0 <? n then Loader.mimic_fread (Loader.mkFile bytes pos) n
   else (@nil Z, Loader.mkFile bytes pos))
  = (take (Z.to_nat n) (drop (Z.to_nat pos) bytes), Loader.mkFile bytes (pos + n)).
Proof.
  intros Hp Hn Hle. destruct (Z.ltb_spec 0 n); [by apply mimic_fread_enough|].
  replace n with 0 by lia. by rewrite Z.add_0_r.
Qed.

Lemma length_section (bytes : list Z) pos n :
  0 <= pos -> 0 <= n -> pos + n <= Z.of_nat (length bytes) ->
  Z.of_nat (length (take (Z.to_nat n) (drop (Z.to_nat pos) bytes))) = n.
Proof. intros. rewrite length_take, length_drop. lia. Qed.

Lemma store_bytes_app l1 : forall m a l2,
  Loader.store_bytes m a (l1 ++ l2)
  = Loader.store_bytes (Loader.store_bytes m a l1) (a + Z.of_nat (length l1)) l2.
Proof.
  induction l1 as [|b l1 IH]; intros m a l2.
  - cbn [app Loader.store_bytes length]. by rewrite Z.add_0_r.
  - cbn [app Loader.store_bytes length]. rewrite IH. f_equal. lia.
Qed.

Lemma take_sections (bytes : list Z) pos n1 n2 :
  0 <= pos -> 0 <= n1 -> 0 <= n2 ->
  take (Z.to_nat (n1 + n2)) (drop (Z.to_nat pos) bytes)
  = take (Z.to_nat n1) (drop (Z.to_nat pos) bytes)
    ++ take (Z.to_nat n2) (drop (Z.to_nat (pos + n1)) bytes).
Proof.
  intros Hp H1 H2. rewrite !Z2Nat.inj_add by lia. rewrite <- drop_drop.
  generalize (drop (Z.to_nat pos) bytes) as l. generalize (Z.to_nat n1) as a.
  induction a as [|a IH]; intros [|x l]; cbn [take drop app Nat.add]; try done.
  - by rewrite take_nil.
  - by rewrite IH.
Qed.

(** The path of [mimic_load_binary] through a well-formed binary without
    relocations. *)
Lemma load_binary_image t bytes task k k1 m base :
  let hdr := Loader.decode_header (take 68 bytes) in
  Forall is_byte bytes ->
  Loader.sizeof_MimiHeader + file_sections hdr <= Z.of_nat (length bytes) ->
  Loader.mimic_validate_header t hdr = MIMIC_OK ->
  reloc_count hdr = 0 ->
  file_sections hdr < 2 ^ 31 ->
  Arena.mimic_umalloc t (tcb_id task) (request_size hdr) k = (base, k1) ->
  base <> NULL ->
  Loader.mimic_load_binary t (Loader.Opened bytes) task k m
  = (MIMIC_OK,
     let tm := Loader.set_tcb_layout base (request_size hdr) (stack_size_of hdr)
                 (heap_size_of hdr) hdr in
     let task := Sched.set_tcb_sp (u32 (base + request_size hdr))
                   (Sched.set_tcb_entry (u32 (base + entry_offset hdr))
                      (Sched.set_tcb_mem tm task)) in
     Sched.set_tcb_name (Loader.strncpy (tcb_name task) (name hdr) 15) task,
     set_programs_loaded (u32 (programs_loaded k1 + 1)) k1,
     Loader.store_bytes m base (task_image hdr bytes)).
Proof.
  intros hdr Hbytes Hlen Hvalid Hnrel Hsum Halloc Hbase.
  destruct (header_fields_range bytes Hbytes) as (Hts & Hrs & Hds & Hbs & Hsr & Hhr & Heo & Hrc).
  fold hdr in Hts, Hrs, Hds, Hbs, Hsr, Hhr, Heo, Hrc.
  unfold task_image.
  unfold file_sections, Loader.sizeof_MimiHeader in *.
  unfold Loader.mimic_load_binary.
  assert (0 + 68 <= Z.of_nat (length bytes)) by lia.
  rewrite (mimic_fread_enough bytes 0 Loader.sizeof_MimiHeader);
    [| lia | done | by unfold Loader.sizeof_MimiHeader ].
  change (Z.to_nat 0) with 0%nat. rewrite drop_0.
  change (Z.to_nat Loader.sizeof_MimiHeader) with 68%nat. fold hdr.
  rewrite length_take, Nat.min_l by lia.
  change (Z.of_nat 68 =? Loader.sizeof_MimiHeader) with true. cbn [negb].
  rewrite Hvalid. change (MIMIC_OK =? MIMIC_OK) with true. cbn [negb].
  unfold request_size, stack_size_of, heap_size_of in Halloc |- *.
  rewrite Halloc. destruct (Z.eqb_spec base NULL) as [|_]; [done|].
  change (0 + Loader.sizeof_MimiHeader) with 68.
  rewrite (mimic_fread_enough bytes 68 (text_size hdr)) by lia.
  rewrite length_section, s32_small, Z.eqb_refl by lia. cbn [negb].
  rewrite (fread_or_skip bytes (68 + text_size hdr) (rodata_size hdr)) by lia.
  rewrite length_section, s32_small, Z.eqb_refl by lia. cbn [negb]. rewrite andb_false_r.
  rewrite (fread_or_skip bytes (68 + text_size hdr + rodata_size hdr) (data_size hdr)) by lia.
  rewrite length_section, s32_small, Z.eqb_refl by lia. cbn [negb]. rewrite andb_false_r.
  rewrite Hnrel. change (0 <? 0) with false. cbv iota.
  cbn [Loader.set_tcb_layout mem_text_start mem_rodata_start mem_data_start mem_bss_start
       mem_stack_top].
  rewrite !Z.add_0_r. f_equal.
  rewrite (u32_small (text_size hdr + rodata_size hdr)) by lia.
  rewrite (u32_small (text_size hdr + rodata_size hdr + data_size hdr)) by lia.
  rewrite 2!take_sections by lia. rewrite !store_bytes_app.
  rewrite !length_app. rewrite !Nat2Z.inj_add, !length_section by lia.
  repeat (f_equal; try lia).
Qed.

Lemma is_byte_forallb bs :
  forallb (fun b => (0 <=? b) && (b <? 256)) bs = true -> Forall is_byte bs.
Proof.
  intros H. apply Forall_forall. intros b Hb%list_elem_of_In.
  rewrite forallb_forall in H. specialize (H b Hb). unfold is_byte. lia.
Qed.

End LoadImage.

Ltac simpl_layout :=
  cbn [tcb_mem Sched.set_tcb_name Sched.set_tcb_sp Sched.set_tcb_entry Sched.set_tcb_mem
       Loader.set_tcb_layout mem_data_start mem_bss_start mem_heap_start].

(** [mimic_load_binary] on a well-formed binary without relocations, when
    the arena grants the request: the call returns [MIMIC_OK]; the sections
    lie in file order from the block's base, .bss zeroed behind them, and no
    byte outside the image is written; the entry point is the base plus the
    header's entry offset and the stack pointer the end of the block; the
    request covers sections, stack and heap and is a multiple of 32. *)
Theorem load_binary_places_sections
    (t : Target) (bytes : list Z) (task : MimicTCB) (k k1 : MimicKernel) (m : gmap Z Z)
    (base : Z) :
  let hdr := Loader.decode_header (take 68 bytes) in
  Forall is_byte bytes ->
  Loader.sizeof_MimiHeader + file_sections hdr <= Z.of_nat (length bytes) ->
  Loader.mimic_validate_header t hdr = MIMIC_OK ->
  reloc_count hdr = 0 ->
  file_sections hdr + bss_size hdr + stack_size_of hdr + heap_size_of hdr + 31 < 2 ^ 31 ->
  Arena.mimic_umalloc t (tcb_id task) (request_size hdr) k = (base, k1) ->
  base <> NULL ->
  let r := Loader.mimic_load_binary t (Loader.Opened bytes) task k m in
  let tm := tcb_mem (load_task r) in
  load_status r = MIMIC_OK
  /\ r.1.2 = set_programs_loaded (u32 (programs_loaded k1 + 1)) k1
  /\ (forall i b, task_image hdr bytes !! i = Some b ->
        Loader.load8 (load_memory r) (base + Z.of_nat i) = b)
  /\ (forall a, a < base \/ base + file_sections hdr + bss_size hdr <= a ->
        load_memory r !! a = m !! a)
  /\ tcb_entry (load_task r) = u32 (base + entry_offset hdr)
  /\ tcb_sp (load_task r) = u32 (base + request_size hdr)
  /\ tcb_id (load_task r) = tcb_id task
  /\ tcb_state (load_task r) = tcb_state task
  /\ mem_base tm = base /\ mem_total_size tm = request_size hdr
  /\ mem_text_start tm = 0 /\ mem_rodata_start tm = text_size hdr
  /\ mem_data_start tm = text_size hdr + rodata_size hdr
  /\ mem_bss_start tm = file_sections hdr
  /\ mem_heap_start tm = file_sections hdr + bss_size hdr
  /\ mem_stack_top tm = request_size hdr
  /\ request_size hdr mod 32 = 0
  /\ file_sections hdr + bss_size hdr + stack_size_of hdr + heap_size_of hdr
     <= request_size hdr.
Proof.
  intros hdr Hbytes Hlen Hvalid Hnrel Hsum Halloc Hbase r tm.
  destruct (header_fields_range bytes Hbytes) as (Hts & Hrs & Hds & Hbs & Hsr & Hhr & Heo & Hrc).
  fold hdr in Hts, Hrs, Hds, Hbs, Hsr, Hhr, Heo, Hrc.
  assert (0 < stack_size_of hdr) as Hst
    by (unfold stack_size_of; destruct (Z.eqb_spec (stack_request hdr) 0); lia).
  assert (0 < heap_size_of hdr) as Hhp
    by (unfold heap_size_of; destruct (Z.eqb_spec (heap_request hdr) 0); lia).
  assert (file_sections hdr < 2 ^ 31) as Hfs by (unfold file_sections in *; lia).
  pose proof (load_binary_image t bytes task k k1 m base Hbytes Hlen Hvalid Hnrel Hfs
                Halloc Hbase) as Hr.
  fold hdr in Hr. cbv zeta in Hr.
  assert (Z.of_nat (length (task_image hdr bytes)) = file_sections hdr + bss_size hdr) as Hil.
  { unfold task_image. rewrite length_app, length_replicate, Nat2Z.inj_add.
    unfold file_sections, Loader.sizeof_MimiHeader in *.
    rewrite length_section by lia. lia. }
  assert (Forall is_byte (task_image hdr bytes)) as Hib.
  { unfold task_image. apply Forall_app. split.
    - by apply Forall_take, Forall_drop.
    - apply Forall_replicate. unfold is_byte. lia. }
  assert (request_size hdr
          = 32 * ((file_sections hdr + bss_size hdr + stack_size_of hdr + heap_size_of hdr + 31)
                  / 32)) as Hreq by (apply request_size_fits; lia).
  unfold tm, r, load_status, load_task, load_memory. rewrite Hr. cbn [fst snd].
  split_all; try done.
  - intros i b Hi. rewrite (store_bytes_inside _ _ _ _ _ Hi).
    apply u8_byte. apply (Forall_lookup_1 _ _ _ _ Hib Hi).
  - intros a Ha. apply store_bytes_outside. lia.
  - simpl_layout. clear Hreq. unfold file_sections in *. rewrite u32_small; lia.
  - simpl_layout. clear Hreq. unfold file_sections in *.
    rewrite (u32_small (text_size hdr + rodata_size hdr)) by lia.
    rewrite u32_small by lia. lia.
  - simpl_layout. clear Hreq. unfold file_sections in *.
    rewrite (u32_small (text_size hdr + rodata_size hdr)) by lia.
    rewrite (u32_small (text_size hdr + rodata_size hdr + data_size hdr)) by lia.
    rewrite u32_small by lia. lia.
  - rewrite Hreq, Z.mul_comm. apply Z.mod_mul. lia.
  - rewrite Hreq. Z.div_mod_to_equations. lia.
Qed.

Lemma load_binary_places_sections_witness :
  let r := Loader.mimic_load_binary RP2040 (Loader.Opened plain_binary) fresh_task
             (booted RP2040) ∅ in
  load_status r = MIMIC_OK
  /\ Loader.load8 (load_memory r) 0x20010000 = 0xAA
  /\ Loader.load8 (load_memory r) 0x2001000C = 1
  /\ tcb_entry (load_task r) = 0x20010004.
Proof.
  pose (hdr := Loader.decode_header (take 68 plain_binary)).
  pose (a := Arena.mimic_umalloc RP2040 (tcb_id fresh_task) (request_size hdr) (booted RP2040)).
  destruct (load_binary_places_sections RP2040 plain_binary fresh_task (booted RP2040)
              a.2 ∅ 0x20010000) as (Hs & _ & Hm & _ & He & _).
  - apply is_byte_forallb. vm_compute. reflexivity.
  - vm_compute. discriminate.
  - vm_compute. reflexivity.
  - vm_compute. reflexivity.
  - vm_compute. reflexivity.
  - vm_compute. reflexivity.
  - vm_compute. discriminate.
  - cbv zeta. split; [exact Hs|]. split; [|split].
    + apply (Hm 0%nat). vm_compute. reflexivity.
    + apply (Hm 12%nat). vm_compute. reflexivity.
    + rewrite He. vm_compute. reflexivity.
Defined.

(** ** Linker: the buffers and the kernel heap *)

Section LinkerHeap.

Variable t : Target.

Lemma kernel_heap_small : MIMIC_KERNEL_HEAP t + 64 < 2 ^ 32.
Proof. destruct t; simpl; lia. Qed.

Lemma max_blocks_small : MIMIC_MAX_MEM_BLOCKS t < 0xFFFFFFFF.
Proof. destruct t; simpl; lia. Qed.

(** An allocation that does not return [NULL] takes at least the
    requested bytes from the free-byte counter. *)
Lemma mimic_kmalloc_takes k size :
  kernel_pool_inv t k -> 0 < size <= 2 ^ 32 - 32 ->
  let r := Arena.mimic_kmalloc t size k in
  kernel_pool_inv t r.2 /\ (r.1 <> NULL -> kernel_free r.2 + size <= kernel_free k).
Proof.
  intros Hinv Hsz r. split.
  { apply (mem_alloc_from_pool_inv _ _ _ kernel_heap_small max_blocks_small KernelPool
             size k Hinv). }
  pose proof kernel_heap_small as Hcap.
  assert (Forall (fun b => blk_size b < 0xFFFFFFFF) (pool_blocks KernelPool k)) as Hbound.
  { apply Forall_lookup_2. intros i b Hb.
    pose proof (pool_inv_size_le _ _ _ _ _ i b Hinv Hb). lia. }
  assert (Z.of_nat (length (pool_blocks KernelPool k)) <= 0xFFFFFFFF) as Hlen.
  { pose proof (pi_len _ _ _ _ _ Hinv). pose proof max_blocks_small. simpl. lia. }
  unfold r, Arena.mimic_kmalloc.
  destruct (mem_alloc_from_pool_cases KernelPool size 0 (MIMIC_MAX_MEM_BLOCKS t) k
              ltac:(lia) Hbound Hlen) as [[_ ->]|(n & b & Hn & [Hfree Hfit] & _ & ->)];
    [done|].
  intros _. pose proof (align_size_round_up size ltac:(lia)) as Hup.
  pose proof (pool_inv_size_le _ _ _ _ _ n b Hinv Hn) as Hb.
  assert (blk_size b <= kernel_free k) as Hfb.
  { rewrite (pi_free _ _ _ _ _ Hinv).
    pose proof (sum_with_lookup_le free_weight (mem_blocks k) n b
                  (nonneg_free_weight _ (pi_nonneg _ _ _ _ _ Hinv)) Hn) as Hle.
    unfold free_weight at 1 in Hle. by rewrite Hfree in Hle. }
  pose proof (pool_inv_free_range _ _ _ _ _ Hinv) as [Hfb0 Hfbcap].
  assert (0 <= sum_with used_weight (mem_blocks k)) as Hused.
  { apply sum_with_nonneg. apply nonneg_used_weight. apply (pi_nonneg _ _ _ _ _ Hinv). }
  unfold alloc_result. cbn [snd fst pool_free_bytes kernel_free set_total_allocs
    set_pool_free_bytes set_pool_blocks set_kernel_free set_mem_blocks].
  destruct (_ && _); rewrite u32_small; lia.
Qed.

Lemma kmalloc_all_takes sizes : forall k,
  kernel_pool_inv t k -> Forall (fun s => 0 < s <= 2 ^ 32 - 32) sizes ->
  let r := KHeap.kmalloc_all t sizes k in
  kernel_pool_inv t r.2
  /\ (KHeap.any_null r.1 = false -> kernel_free r.2 + foldr Z.add 0 sizes <= kernel_free k).
Proof.
  induction sizes as [|s sizes IH]; intros k Hinv Hs; [by split; [|simpl; lia]|].
  apply Forall_cons in Hs as [Hs0 Hs]. cbn [KHeap.kmalloc_all].
  pose proof (mimic_kmalloc_takes k s Hinv Hs0) as [Hinv1 Htake].
  destruct (Arena.mimic_kmalloc t s k) as [p k1]. cbn [fst snd] in *.
  specialize (IH k1 Hinv1 Hs) as [Hinv2 Hrest].
  destruct (KHeap.kmalloc_all t sizes k1) as [ps k2]. cbn [fst snd] in *.
  split; [done|]. simpl. intros Hnn. apply orb_false_iff in Hnn as [Hp Hps].
  apply Z.eqb_neq in Hp. specialize (Htake Hp). specialize (Hrest Hps). lia.
Qed.

End LinkerHeap.

(** The five buffers of [mimic_cc_link] take 110592 bytes; the kernel heap
    has 51200 (RP2040) or 81920 (RP2350).  Whatever the kernel heap holds,
    one of the allocations gives [NULL] and the linker returns
    [MIMIC_ERR_NOMEM], the files untouched. *)
Theorem link_buffers_exceed_kernel_heap
    (t : Target) (obj_files : list string) (output : string) (w : World) :
  pool_inv (MIMIC_KERNEL_HEAP t) (MIMIC_MAX_MEM_BLOCKS t) 0
    (mem_blocks (w_kernel w)) (kernel_free (w_kernel w)) ->
  (Linker.mimic_cc_link t obj_files output w).1 = MIMIC_ERR_NOMEM
  /\ w_fs (Linker.mimic_cc_link t obj_files output w).2 = w_fs w.
Proof.
  intros Hinv. unfold Linker.mimic_cc_link.
  assert (Forall (fun s => 0 < s <= 2 ^ 32 - 32) Linker.lnk_buffers) as Hs.
  { unfold Linker.lnk_buffers. repeat (apply Forall_cons; split; [lia|]). apply Forall_nil_2. }
  pose proof (kmalloc_all_takes t Linker.lnk_buffers (w_kernel w) Hinv Hs) as [Hinv1 Htake].
  destruct (KHeap.kmalloc_all t Linker.lnk_buffers (w_kernel w)) as [ptrs k].
  cbn [fst snd] in *.
  destruct (KHeap.any_null ptrs); [done|]. exfalso.
  specialize (Htake eq_refl).
  pose proof (pool_inv_free_range _ _ _ _ _ Hinv) as [_ Hle].
  pose proof (pool_inv_free_range _ _ _ _ _ Hinv1) as [Hge _].
  assert (0 <= sum_with used_weight (mem_blocks (w_kernel w))) as Hused.
  { apply sum_with_nonneg. apply nonneg_used_weight. apply (pi_nonneg _ _ _ _ _ Hinv). }
  unfold Linker.lnk_buffers in Htake. simpl in Htake. destruct t; simpl in Hle; lia.
Qed.

Lemma link_buffers_exceed_kernel_heap_witness :
  let w := mkWorld ∅ (booted RP2350) (mkCC 0 EmptyString 0 false) in
  pool_inv (MIMIC_KERNEL_HEAP RP2350) (MIMIC_MAX_MEM_BLOCKS RP2350) 0
    (mem_blocks (w_kernel w)) (kernel_free (w_kernel w))
  /\ (Linker.mimic_cc_link RP2350 [Linker.obj_path] "/out.mimi" w).1 = MIMIC_ERR_NOMEM.
Proof.
  intros w.
  assert (pool_inv (MIMIC_KERNEL_HEAP RP2350) (MIMIC_MAX_MEM_BLOCKS RP2350) 0
            (mem_blocks (w_kernel w)) (kernel_free (w_kernel w))) as Hinv.
  { split; simpl.
    - lia.
    - apply Forall_singleton. simpl. lia.
    - lia.
    - by apply Forall_singleton.
    - unfold free_weight. simpl. lia. }
  split; [exact Hinv|].
  apply (link_buffers_exceed_kernel_heap RP2350 [Linker.obj_path] "/out.mimi" w Hinv).
Defined.

(** ** FAT32: what closing a file writes *)

Section FileClose.

Import Fat32.

(** A flush leaves the cache buffer and the handles as they are, and writes
    at most the cached sector, with the bytes the buffer holds. *)
Lemma fat32_flush_cache_effect s :
  let s' := (fat32_flush_cache s).2 in
  vol_sector_buf (vol s') = vol_sector_buf (vol s)
  /\ vol_cached_sector (vol s') = vol_cached_sector (vol s)
  /\ files s' = files s
  /\ (sd_sectors s' = sd_sectors s
      \/ sd_sectors s'
         = <[vol_cached_sector (vol s) := vol_sector_buf (vol s)]> (sd_sectors s)).
Proof.
  unfold fat32_flush_cache, bind, get, ret, cache_clean, modify, mimic_sd_write_sector.
  destruct (vol_cache_dirty (vol s)); [|by repeat split; try left].
  destruct (vol_initialized (vol s)); [|by repeat split; try left].
  destruct (sd_bad s (vol_cached_sector (vol s))); [by repeat split; try left|].
  cbn. by repeat split; try right.
Qed.

Lemma mimic_fclose_effect fd s :
  let s' := (mimic_fclose fd s).2 in
  vol_sector_buf (vol s') = vol_sector_buf (vol s)
  /\ (sd_sectors s' = sd_sectors s
      \/ sd_sectors s'
         = <[vol_cached_sector (vol s) := vol_sector_buf (vol s)]> (sd_sectors s)).
Proof.
  pose proof (fat32_flush_cache_effect s) as (Hbuf & _ & _ & Hsd).
  unfold mimic_fclose, bind, get, ret, update_handle, modify.
  destruct (fd_in_range fd); cbn [negb]; [|by split; [|left]].
  destruct (fh_open (handle s (Z.to_nat fd))); cbn [negb]; [|by split; [|left]].
  destruct (fat32_flush_cache s) as [err s1]. cbn [snd] in *. by split.
Qed.

End FileClose.

(** C9, at the failing input.  [mimic_fclose] leaves the cache buffer as it
    is and writes to the card at most the cached sector, with the bytes the
    buffer already holds: it reads no directory sector and patches no entry.
    On a volume whose root directory holds the empty file [OUT.TXT], opening
    [/out.txt] for writing, writing the 6 bytes of [hello] and closing all
    succeed (descriptor 0, 6 bytes, [MIMIC_OK]); the handle that was closed
    had first cluster 3, the allocated cluster, and file size 6; the 6 bytes
    are in the sector of cluster 3 and the FAT marks cluster 3 as the end of a
    chain; and the directory entry on the card still has [file_size] 0 and
    [fst_clus_lo] 0, so that the file opened again has size 0. *)
Theorem fclose_leaves_directory_entry_stale :
  (forall fd s,
     let s' := (Fat32.mimic_fclose fd s).2 in
     Fat32.vol_sector_buf (Fat32.vol s') = Fat32.vol_sector_buf (Fat32.vol s)
     /\ (Fat32.sd_sectors s' = Fat32.sd_sectors s
         \/ Fat32.sd_sectors s'
            = <[Fat32.vol_cached_sector (Fat32.vol s) := Fat32.vol_sector_buf (Fat32.vol s)]>
                (Fat32.sd_sectors s)))
  /\ (let r := Fat32.write_and_close Fat32.out_path Fat32.hello Fat32.empty_file_volume in
      let closed := snd <$> r.1 in
      (fst <$> r.1) = Some (0, 6, MIMIC_OK)
      /\ (Fat32.fh_first_cluster <$> closed) = Some 3
      /\ (Fat32.fh_file_size <$> closed) = Some 6
      /\ (Fat32.fh_mode <$> closed) = Some Fat32.MIMIC_FILE_WRITE
      /\ take 6 (Fat32.sector_data r.2 (Fat32.fat32_cluster_to_sector Fat32.mounted_vol 3))
         = Fat32.hello
      /\ Loader.le32_at (Fat32.sector_data r.2 32) 12 = Fat32.FAT32_EOC
      /\ Fat32.vol_cache_dirty (Fat32.vol r.2) = false
      /\ Fat32.de_file_size (Fat32.out_txt_on_card r.2) = 0
      /\ Fat32.de_fst_clus_lo (Fat32.out_txt_on_card r.2) = 0
      /\ Fat32.de_fst_clus_hi (Fat32.out_txt_on_card r.2) = 0
      /\ let again := Fat32.mimic_fopen 8 Fat32.zero_entry Fat32.out_path
                        Fat32.MIMIC_FILE_READ r.2 in
         again.1 = Some 0
         /\ Fat32.fh_file_size (Fat32.handle again.2 0) = 0).
Proof.
  split; [intros fd s; apply mimic_fclose_effect|].
  vm_compute. repeat split; reflexivity.
Qed.

(** ** FAT32: the one-sector cache *)

Section SectorCache.

Import Fat32.

Lemma sector_data_insert s c buf n :
  sector_data (set_sd_sectors (<[c := buf]> (sd_sectors s)) s) n
  = if c =? n then buf else sector_data s n.
Proof.
  unfold sector_data. simpl. destruct (Z.eqb_spec c n) as [->|Hne].
  - by rewrite lookup_insert_eq.
  - by rewrite lookup_insert_ne.
Qed.

(** The three ways [fat32_flush_cache] ends. *)
Lemma fat32_flush_cache_cases s :
  (vol_cache_dirty (vol s) = false /\ fat32_flush_cache s = (MIMIC_OK, s))
  \/ (vol_cache_dirty (vol s) = true
      /\ (vol_initialized (vol s) = false \/ sd_bad s (vol_cached_sector (vol s)) = true)
      /\ fat32_flush_cache s = (MIMIC_ERR_IO, s))
  \/ (vol_cache_dirty (vol s) = true /\ vol_initialized (vol s) = true
      /\ sd_bad s (vol_cached_sector (vol s)) = false
      /\ fat32_flush_cache s
         = (MIMIC_OK,
            set_vol (set_cache (vol_cached_sector (vol s)) (vol_sector_buf (vol s)) false (vol s))
              (set_sd_sectors (<[vol_cached_sector (vol s) := vol_sector_buf (vol s)]>
                                 (sd_sectors s)) s))).
Proof.
  unfold fat32_flush_cache, bind, get, ret, cache_clean, modify, mimic_sd_write_sector.
  destruct (vol_cache_dirty (vol s)); [|by left].
  right. destruct (vol_initialized (vol s)); [|left; by repeat split; try left].
  destruct (sd_bad s (vol_cached_sector (vol s))); [left; by repeat split; try right|].
  right. by repeat split.
Qed.

Lemma fat32_flush_cache_view s :
  let r := fat32_flush_cache s in
  (forall m, view r.2 m = view s m)
  /\ (coherent s -> coherent r.2)
  /\ files r.2 = files s
  /\ vol_cached_sector (vol r.2) = vol_cached_sector (vol s)
  /\ vol_sector_buf (vol r.2) = vol_sector_buf (vol s)
  /\ (r.1 = MIMIC_OK -> vol_cache_dirty (vol r.2) = false)
  /\ (card_ok s -> r.1 = MIMIC_OK /\ card_ok r.2)
  /\ (well_sized s -> well_sized r.2).
Proof.
  destruct (fat32_flush_cache_cases s) as [[Hd ->]|[(Hd & Hx & ->)|(Hd & Hi & Hb & ->)]];
    cbn [fst snd].
  - repeat match goal with |- _ /\ _ => split end; auto.
  - repeat match goal with |- _ /\ _ => split end; auto; [discriminate|].
    intros [Hi Hb]. destruct Hx as [H|H]; [congruence|]. by rewrite Hb in H.
  - split; [|split; [|split; [done|split; [done|split; [done|split; [done|split]]]]]].
    + intros m. unfold view. cbn [vol set_vol set_cache vol_cache_dirty vol_cached_sector
        vol_sector_buf andb]. rewrite Hd. cbn [andb].
      change (sector_data (set_vol _ ?x) m) with (sector_data x m).
      by rewrite sector_data_insert.
    + intros _ _. cbn [vol set_vol set_cache vol_sector_buf vol_cached_sector].
      change (sector_data (set_vol _ ?x) ?m) with (sector_data x m).
      rewrite sector_data_insert. by rewrite Z.eqb_refl.
    + intros [_ Hbad]. split; [done|]. split; [done|]. intros n. apply Hbad.
    + intros [Hl Hs]. split; [done|]. cbn [sd_sectors set_vol set_sd_sectors].
      intros n sec Hn. apply lookup_insert_Some in Hn as [[_ <-]|[_ Hn]]; [done|by eapply Hs].
Qed.

Lemma set_cache_same v :
  set_cache (vol_cached_sector v) (vol_sector_buf v) (vol_cache_dirty v) v = v.
Proof. by destruct v. Qed.

(** [fat32_read_sector] changes the cache and, by the write-back of a
    dirty buffer, the card; what the file layer sees of every sector stays. *)
Lemma fat32_read_sector_view n s :
  let r := fat32_read_sector n s in
  (forall m, view r.2 m = view s m)
  /\ (coherent s -> coherent r.2)
  /\ files r.2 = files s
  /\ (exists c b d, vol r.2 = set_cache c b d (vol s))
  /\ (r.1 = MIMIC_OK ->
      vol_cached_sector (vol r.2) = n
      /\ (coherent s -> vol_sector_buf (vol r.2) = view s n))
  /\ (card_ok s -> r.1 = MIMIC_OK /\ card_ok r.2)
  /\ (well_sized s -> well_sized r.2).
Proof.
  cbv zeta. destruct (fat32_read_sector n s) as [e s'] eqn:Hr. cbn [fst snd].
  unfold fat32_read_sector in Hr. unfold bind at 1 in Hr. unfold get at 1 in Hr.
  destruct (Z.eqb_spec (vol_cached_sector (vol s)) n) as [Hc|Hc].
  { unfold ret in Hr. injection Hr as <- <-. split_all; auto.
    - exists (vol_cached_sector (vol s)), (vol_sector_buf (vol s)), (vol_cache_dirty (vol s)).
      by rewrite set_cache_same.
    - intros _. split; [done|]. intros Hco. unfold view. rewrite Hc, Z.eqb_refl.
      destruct (vol_cache_dirty (vol s)) eqn:Hd; [done|]. rewrite <- Hc. by apply Hco. }
  unfold bind at 1 in Hr.
  pose proof (fat32_flush_cache_view s) as (Hv & Hco & Hf & Hcs & Hbuf & Hclean & Hok & Hws).
  assert (exists c b d, vol (fat32_flush_cache s).2 = set_cache c b d (vol s)) as Hgeo.
  { destruct (fat32_flush_cache_cases s) as [[_ ->]|[(_ & _ & ->)|(_ & _ & _ & ->)]];
      cbn [snd]; try (eexists _, _, _; by rewrite set_cache_same).
    by eexists _, _, _. }
  destruct (fat32_flush_cache s) as [err s1]. cbn [fst snd] in *.
  destruct (Z.eqb_spec err MIMIC_OK) as [->|Hne]; cbn [negb] in Hr.
  2:{ unfold ret in Hr. injection Hr as <- <-. split_all; auto; done. }
  specialize (Hclean eq_refl).
  unfold bind at 1 in Hr. unfold mimic_sd_read_sector in Hr.
  destruct (vol_initialized (vol s1)) eqn:Hi; cbn [negb] in Hr.
  2:{ unfold ret in Hr. injection Hr as <- <-. split_all; auto; try done.
      intros Hcard. destruct (Hok Hcard) as [_ [Hi' _]]. congruence. }
  destruct (sd_bad s1 n) eqn:Hb.
  { unfold ret in Hr. injection Hr as <- <-. split_all; auto; try done.
    intros Hcard. destruct (Hok Hcard) as [_ [_ Hb']]. by rewrite Hb' in Hb. }
  unfold bind, modify, ret in Hr. cbn [fst snd] in Hr. injection Hr as <- <-.
  set (s2 := set_vol (set_cache n (sector_data s1 n) (vol_cache_dirty (vol s1)) (vol s1)) s1).
  assert (forall m, sector_data s2 m = sector_data s1 m) as Hsd by done.
  split_all.
  - intros m. rewrite <- Hv. unfold view. cbn [vol s2 set_vol set_cache vol_cache_dirty
      vol_cached_sector vol_sector_buf]. rewrite Hclean. cbn [andb]. apply Hsd.
  - intros _ _. cbn [vol s2 set_vol set_cache vol_sector_buf vol_cached_sector]. by rewrite Hsd.
  - done.
  - destruct Hgeo as (c & b & d & Hg). unfold s2. cbn [vol set_vol]. rewrite Hg.
    by eexists _, _, _.
  - intros _. split; [done|]. intros _.
    cbn [vol s2 set_vol set_cache vol_sector_buf]. rewrite <- Hv. unfold view.
    by rewrite Hclean.
  - intros Hcard. split; [done|]. destruct (Hok Hcard) as [_ [H1 H2]]. by split.
  - intros Hw. destruct (Hws Hw) as [Hl Hs]. split; [|done].
    cbn [vol s2 set_vol set_cache vol_sector_buf]. unfold sector_data.
    destruct (sd_sectors s1 !! n) as [sec|] eqn:Hn; cbn [default from_option];
      [by eapply Hs|].
    by rewrite length_replicate.
Qed.

End SectorCache.

(** ** FAT32: the allocation table *)

Section FatTable.

Import Fat32.

Lemma same_volume_refl s : same_volume s s.
Proof.
  unfold same_volume. split_all; try done.
  exists (vol_cached_sector (vol s)), (vol_sector_buf (vol s)), (vol_cache_dirty (vol s)).
  by rewrite set_cache_same.
Qed.

Lemma same_volume_trans s1 s2 s3 : same_volume s1 s2 -> same_volume s2 s3 -> same_volume s1 s3.
Proof.
  intros (Hf & c & b & d & Hv) (Hf' & c' & b' & d' & Hv').
  unfold same_volume. split_all; try congruence. exists c', b', d'. by rewrite Hv', Hv.
Qed.

Lemma same_volume_fat_sector s s' c :
  same_volume s s' -> fat_sector_of (vol s') c = fat_sector_of (vol s) c.
Proof. intros (_ & x & b & d & ->). done. Qed.

Lemma same_volume_total s s' :
  same_volume s s' -> vol_total_clusters (vol s') = vol_total_clusters (vol s).
Proof. intros (_ & x & b & d & ->). done. Qed.

Lemma fat32_flush_cache_healthy s :
  healthy s ->
  exists s', fat32_flush_cache s = (MIMIC_OK, s')
    /\ healthy s' /\ same_volume s s'
    /\ (forall m, view s' m = view s m)
    /\ vol_cached_sector (vol s') = vol_cached_sector (vol s)
    /\ vol_sector_buf (vol s') = vol_sector_buf (vol s)
    /\ vol_cache_dirty (vol s') = false.
Proof.
  intros (Hc & Hcoh & Hw).
  pose proof (fat32_flush_cache_view s) as (Hv & Hco & Hf & Hcs & Hbuf & Hclean & Hok & Hws).
  assert (same_volume s (fat32_flush_cache s).2) as Hsame.
  { destruct (fat32_flush_cache_cases s) as [[_ ->]|[(_ & _ & ->)|(_ & _ & _ & ->)]];
      cbn [snd]; try apply same_volume_refl.
    unfold same_volume. split_all; try done. by eexists _, _, _. }
  destruct (fat32_flush_cache s) as [e s']. cbn [fst snd] in *.
  destruct (Hok Hc) as [-> Hc']. exists s'. unfold healthy. split_all; auto.
Qed.

Lemma fat32_read_sector_healthy n s :
  healthy s ->
  exists s', fat32_read_sector n s = (MIMIC_OK, s')
    /\ healthy s' /\ same_volume s s'
    /\ (forall m, view s' m = view s m)
    /\ vol_cached_sector (vol s') = n
    /\ vol_sector_buf (vol s') = view s n.
Proof.
  intros (Hc & Hcoh & Hw).
  pose proof (fat32_read_sector_view n s) as (Hv & Hco & Hf & Hg & Hok & Hcard & Hws).
  destruct (fat32_read_sector n s) as [e s']. cbn [fst snd] in *.
  destruct (Hcard Hc) as [-> Hc']. destruct (Hok eq_refl) as [Hn Hbuf].
  exists s'. unfold healthy, same_volume. split_all; auto.
Qed.

Lemma length_buf_write buf off bs :
  (off + length bs <= length buf)%nat -> length (buf_write buf off bs) = length buf.
Proof.
  intros. unfold buf_write. rewrite !length_app, length_take, length_drop. lia.
Qed.

Lemma byte_at_buf_write_ne buf off bs i :
  (off + length bs <= length buf)%nat -> (i < off \/ off + length bs <= i)%nat ->
  Loader.byte_at (buf_write buf off bs) i = Loader.byte_at buf i.
Proof.
  intros Hlen Hi. unfold buf_write, Loader.byte_at. destruct Hi as [Hi|Hi].
  - rewrite lookup_app_l by (rewrite length_take; lia). by rewrite lookup_take_lt.
  - rewrite lookup_app_r by (rewrite length_take; lia).
    rewrite lookup_app_r by (rewrite length_take; lia).
    rewrite lookup_drop, length_take. f_equal. f_equal. lia.
Qed.

Lemma le32_at_buf_write_ne buf off bs i :
  (off + length bs <= length buf)%nat -> (i + 4 <= off \/ off + length bs <= i)%nat ->
  Loader.le32_at (buf_write buf off bs) i = Loader.le32_at buf i.
Proof.
  intros Hlen Hi. unfold Loader.le32_at, Loader.le16_at.
  rewrite !byte_at_buf_write_ne; [done|lia..].
Qed.

Lemma le32_at_buf_write_eq buf off v :
  (off + 4 <= length buf)%nat -> 0 <= v < 2 ^ 32 ->
  Loader.le32_at (buf_write buf off (Files.le32 v)) off = v.
Proof.
  intros Hlen Hv. unfold buf_write.
  assert (length (take off buf) = off) as Hl by (rewrite length_take; lia).
  pose proof (le32_at_app_r (take off buf)
                (Files.le32 v ++ drop (off + length (Files.le32 v)) buf) 0) as H.
  rewrite Hl, Nat.add_0_r in H. rewrite H.
  rewrite le32_at_app_l by (simpl; lia). by apply le32_at_le32.
Qed.

(** The FAT entry of a cluster, as [fat32_get_fat_entry] reads it. *)
Lemma fat32_get_fat_entry_healthy c s :
  healthy s ->
  exists s', fat32_get_fat_entry c s = (fat_entry s c, s')
    /\ healthy s' /\ same_volume s s' /\ (forall m, view s' m = view s m).
Proof.
  intros Hh. unfold fat32_get_fat_entry. unfold bind at 1. unfold get at 1. unfold bind at 1.
  destruct (fat32_read_sector_healthy (fat_sector_of (vol s) c) s Hh)
    as (s' & -> & Hh' & Hsame & Hv & Hn & Hbuf).
  cbn [negb Z.eqb MIMIC_OK]. unfold bind, get, ret. rewrite Hbuf. by exists s'.
Qed.

Lemma fat_offset_bound c : (fat_offset_of c + 4 <= 512)%nat.
Proof.
  unfold fat_offset_of, u32.
  assert (0 <= ((c * 4) mod 2 ^ 32) mod 512 <= 508); [|lia].
  change (2 ^ 32) with 4294967296. Z.div_mod_to_equations. lia.
Qed.

(** [fat32_set_fat_entry] rewrites the four bytes of the entry in the FAT
    sector and writes the sector to the card. *)
Lemma fat32_set_fat_entry_healthy c v s :
  healthy s ->
  let fs := fat_sector_of (vol s) c in
  let old := Loader.le32_at (view s fs) (fat_offset_of c) in
  let new := Z.lor (Z.land v 0x0FFFFFFF) (Z.land old 0xF0000000) in
  exists s', fat32_set_fat_entry c v s = (MIMIC_OK, s')
    /\ healthy s' /\ same_volume s s'
    /\ vol_cache_dirty (vol s') = false
    /\ (forall m, view s' m
                  = if m =? fs then buf_write (view s fs) (fat_offset_of c) (Files.le32 new)
                    else view s m).
Proof.
  intros Hh fs old new.
  unfold fat32_set_fat_entry. unfold bind at 1. unfold get at 1. unfold bind at 1.
  destruct (fat32_read_sector_healthy fs s Hh) as (s1 & Hr & Hh1 & Hsame & Hv & Hn & Hbuf).
  fold fs. rewrite Hr. cbn [negb Z.eqb MIMIC_OK].
  unfold bind at 1. unfold get at 1. cbv zeta.
  unfold bind at 1. unfold set_sector_buf, modify at 1.
  unfold bind at 1. unfold fat32_cache_dirty, modify at 1.
  rewrite Hbuf. fold old. fold new.
  set (nb := buf_write (view s fs) (fat_offset_of c) (Files.le32 new)).
  cbn [vol set_vol set_cache vol_cached_sector vol_sector_buf vol_cache_dirty].
  set (s3 := set_vol _ _).
  destruct Hh1 as ((Hi & Hb) & Hcoh & (Hl & Hs)).
  assert (length nb = 512%nat) as Hnb.
  { unfold nb. rewrite length_buf_write; [congruence|].
    pose proof (fat_offset_bound c). simpl. rewrite <- Hbuf, Hl. lia. }
  assert (healthy s3) as Hh3.
  { unfold healthy, card_ok, coherent, well_sized. split_all; try done. }
  destruct (fat32_flush_cache_healthy s3 Hh3) as (s4 & -> & Hh4 & Hsame4 & Hv4 & _ & _ & Hd4).
  exists s4. split_all; [done|done| |done|].
  - eapply same_volume_trans; [exact Hsame|]. eapply same_volume_trans; [|exact Hsame4].
    unfold same_volume. split; [done|]. by eexists _, _, _.
  - intros m. rewrite Hv4. unfold view at 1.
    cbn [s3 vol set_vol set_cache vol_cached_sector vol_sector_buf vol_cache_dirty andb].
    rewrite Hn, Z.eqb_sym. destruct (Z.eqb_spec m fs) as [->|Hne]; [done|].
    change (sector_data s3 m) with (sector_data s1 m). rewrite <- Hv. unfold view.
    rewrite Hn. replace (fs =? m) with false by (symmetry; apply Z.eqb_neq; congruence).
    by rewrite andb_false_r.
Qed.

Lemma fat_position v c c' :
  fat_sector_of v c' = fat_sector_of v c -> u32 (c' * 4) <> u32 (c * 4) ->
  (fat_offset_of c' + 4 <= fat_offset_of c \/ fat_offset_of c + 4 <= fat_offset_of c')%nat.
Proof.
  unfold fat_sector_of, fat_offset_of, u32. change (2 ^ 32) with 4294967296.
  intros Hs Hne.
  assert (((c' * 4) mod 4294967296) mod 512 + 4 <= ((c * 4) mod 4294967296) mod 512
          \/ ((c * 4) mod 4294967296) mod 512 + 4 <= ((c' * 4) mod 4294967296) mod 512);
    [|Z.div_mod_to_equations; lia].
  revert Hs Hne. Z.div_mod_to_equations. lia.
Qed.

Lemma same_volume_fat_entry s s' c :
  same_volume s s' -> (forall m, view s' m = view s m) -> fat_entry s' c = fat_entry s c.
Proof.
  intros Hsame Hv. unfold fat_entry. by rewrite (same_volume_fat_sector s s'), Hv.
Qed.

Lemma fat32_set_fat_entry_entries c v s :
  healthy s ->
  exists s', fat32_set_fat_entry c v s = (MIMIC_OK, s')
    /\ healthy s' /\ same_volume s s'
    /\ fat_entry s' c = Z.land v 0x0FFFFFFF
    /\ (forall c', u32 (c' * 4) <> u32 (c * 4) -> fat_entry s' c' = fat_entry s c')
    /\ (forall m, m <> fat_sector_of (vol s) c -> view s' m = view s m)
    /\ vol_cache_dirty (vol s') = false
    /\ Z.land (Loader.le32_at (view s' (fat_sector_of (vol s) c)) (fat_offset_of c)) 0xF0000000
       = Z.land (Loader.le32_at (view s (fat_sector_of (vol s) c)) (fat_offset_of c)) 0xF0000000.
Proof.
  intros Hh.
  destruct (fat32_set_fat_entry_healthy c v s Hh) as (s' & Hr & Hh' & Hsame & Hd & Hv).
  cbv zeta in Hv.
  assert (fat_offset_of c + length (Files.le32 0) <= length (view s (fat_sector_of (vol s) c)))%nat
    as Hlen.
  { destruct (fat32_read_sector_healthy (fat_sector_of (vol s) c) s Hh)
      as (s1 & _ & (_ & _ & Hl & _) & _ & _ & _ & Hbuf).
    rewrite <- Hbuf, Hl. pose proof (fat_offset_bound c). simpl. lia. }
  exists s'. split_all; try done.
  - unfold fat_entry. rewrite (same_volume_fat_sector s s') by done.
    rewrite Hv, Z.eqb_refl.
    match goal with |- context [Files.le32 ?x] => set (new := x) end.
    destruct (fat_entry_merge v (Loader.le32_at (view s (fat_sector_of (vol s) c))
                                   (fat_offset_of c))) as (Hb & Hlow & _).
    fold new in Hb, Hlow.
    rewrite le32_at_buf_write_eq; [done| |done]. simpl in Hlen. lia.
  - intros c' Hne. unfold fat_entry. rewrite (same_volume_fat_sector s s') by done.
    rewrite Hv. destruct (Z.eqb_spec (fat_sector_of (vol s) c') (fat_sector_of (vol s) c))
      as [He|He]; [|done].
    rewrite He. rewrite le32_at_buf_write_ne; [done|exact Hlen|].
    destruct (fat_position _ _ _ He Hne); simpl; lia.
  - intros m Hm. rewrite Hv. by destruct (Z.eqb_spec m (fat_sector_of (vol s) c)).
  - rewrite Hv, Z.eqb_refl.
    match goal with |- context [Files.le32 ?x] => set (new := x) end.
    destruct (fat_entry_merge v (Loader.le32_at (view s (fat_sector_of (vol s) c))
                                   (fat_offset_of c))) as (Hb & _ & Hhigh).
    fold new in Hb, Hhigh.
    rewrite le32_at_buf_write_eq; [done| |done]. simpl in Hlen. lia.
Qed.

Lemma alloc_loop_scan n : forall c s,
  healthy s -> 0 < c ->
  exists r s', alloc_loop n c s = (r, s')
    /\ healthy s' /\ same_volume s s'
    /\ ((r = 0 /\ (forall m, view s' m = view s m)
         /\ forall c', c <= c' < c + Z.of_nat n -> fat_entry s c' <> FAT32_FREE)
        \/ (c <= r < c + Z.of_nat n
            /\ fat_entry s r = FAT32_FREE
            /\ (forall c', c <= c' < r -> fat_entry s c' <> FAT32_FREE)
            /\ fat_entry s' r = FAT32_EOC
            /\ (forall c', u32 (c' * 4) <> u32 (r * 4) -> fat_entry s' c' = fat_entry s c')
            /\ (forall m, m <> fat_sector_of (vol s) r -> view s' m = view s m))).
Proof.
  induction n as [|n IH]; intros c s Hh Hc.
  { exists 0, s. split_all; [done|done|apply same_volume_refl|]. left. split_all; [done..|]. lia. }
  cbn [alloc_loop]. unfold bind at 1.
  destruct (fat32_get_fat_entry_healthy c s Hh) as (s1 & -> & Hh1 & Hsame1 & Hv1).
  destruct (Z.eqb_spec (fat_entry s c) FAT32_FREE) as [Hfree|Hused].
  - unfold bind, ret.
    destruct (fat32_set_fat_entry_entries c FAT32_EOC s1 Hh1)
      as (s2 & -> & Hh2 & Hsame2 & He & Hf & Hv2 & _).
    exists c, s2. split_all; [done|done|by eapply same_volume_trans|]. right.
    split_all; [lia|lia|done|intros; lia|done| |].
    + intros c' Hne. rewrite Hf by done. by apply same_volume_fat_entry.
    + intros m Hm. rewrite Hv2, Hv1; [done|]. by rewrite (same_volume_fat_sector s s1).
  - destruct (IH (c + 1) s1 Hh1 ltac:(lia)) as (r & s2 & -> & Hh2 & Hsame2 & Hcases).
    exists r, s2. split_all; [done|done|by eapply same_volume_trans|].
    assert (forall x, fat_entry s1 x = fat_entry s x) as Hfe
      by (intros; by apply same_volume_fat_entry).
    destruct Hcases as [(-> & Hv & Hnone)|(Hr & Hfr & Hbefore & He & Hf & Hv)]; [left|right].
    + split_all; [done|intros; by rewrite Hv|].
      intros c' Hc'. destruct (decide (c' = c)) as [->|]; [done|].
      rewrite <- Hfe. apply Hnone. lia.
    + split_all; [lia|lia|by rewrite <- Hfe| |done| |].
      * intros c' Hc'. destruct (decide (c' = c)) as [->|]; [done|].
        rewrite <- Hfe. apply Hbefore. lia.
      * intros c' Hne. by rewrite Hf, Hfe.
      * intros m Hm. rewrite Hv, Hv1; [done|]. by rewrite (same_volume_fat_sector s s1).
Qed.

Lemma fat32_alloc_cluster_scan s :
  healthy s ->
  let top := u32 (vol_total_clusters (vol s) + 2) in
  exists r s', fat32_alloc_cluster s = (r, s')
    /\ healthy s' /\ same_volume s s'
    /\ ((r = 0 /\ (forall m, view s' m = view s m)
         /\ forall c', 2 <= c' < top -> fat_entry s c' <> FAT32_FREE)
        \/ (2 <= r < top
            /\ fat_entry s r = FAT32_FREE
            /\ (forall c', 2 <= c' < r -> fat_entry s c' <> FAT32_FREE)
            /\ fat_entry s' r = FAT32_EOC
            /\ (forall c', u32 (c' * 4) <> u32 (r * 4) -> fat_entry s' c' = fat_entry s c')
            /\ (forall m, m <> fat_sector_of (vol s) r -> view s' m = view s m))).
Proof.
  intros Hh top. unfold fat32_alloc_cluster, bind, get. fold top.
  destruct (alloc_loop_scan (Z.to_nat (top - 2)) 2 s Hh ltac:(lia))
    as (r & s' & -> & Hh' & Hsame & Hcases).
  exists r, s'. split_all; [done..|].
  destruct Hcases as [(-> & Hv & Hnone)|(Hr & Hfr & Hbefore & He & Hf & Hv)]; [left|right].
  - split_all; [done..|]. intros c' Hc'. apply Hnone. lia.
  - split_all; try done; lia.
Qed.

Lemma healthy_empty_file_volume : healthy empty_file_volume.
Proof.
  unfold healthy, card_ok, coherent, well_sized. split_all; try done.
  intros n sec. cbn [empty_file_volume sd_sectors].
  intros [[_ <-]|[_ [[_ <-]|[_ H]]%lookup_insert_Some]]%lookup_insert_Some; done.
Qed.

End FatTable.

(** ** FAT32: what the cache and the table guarantee *)

Section FatGuarantees.

Import Fat32.

(** [fat32_read_sector] is transparent: whatever the card answers, every
    sector reads the same through the cache after the call as before, the
    dirty buffer included, and the file handles are untouched.  When the call
    returns [MIMIC_OK] the cache names the sector asked for and the buffer
    holds its contents; on a card that answers every command it returns
    [MIMIC_OK]. *)
Theorem read_sector_is_transparent (n : Z) (s : State) :
  coherent s ->
  let r := fat32_read_sector n s in
  (forall m, view r.2 m = view s m)
  /\ coherent r.2
  /\ files r.2 = files s
  /\ (r.1 = MIMIC_OK ->
      vol_cached_sector (vol r.2) = n /\ vol_sector_buf (vol r.2) = view s n)
  /\ (card_ok s -> r.1 = MIMIC_OK).
Proof.
  intros Hcoh r.
  pose proof (fat32_read_sector_view n s) as (Hv & Hco & Hf & Hg & Hok & Hcard & Hws).
  fold r in Hv, Hco, Hf, Hok, Hcard. split_all; auto.
  - intros He. destruct (Hok He). auto.
  - intros Hc. by destruct (Hcard Hc).
Qed.

Lemma read_sector_is_transparent_witness :
  let r := fat32_read_sector 32 empty_file_volume in
  r.1 = MIMIC_OK /\ vol_sector_buf (vol r.2) = fat_sector
  /\ view r.2 33 = root_sector.
Proof.
  destruct (read_sector_is_transparent 32 empty_file_volume) as (Hv & _ & _ & Hok & Hc).
  { by destruct healthy_empty_file_volume as (_ & H & _). }
  cbv zeta. split; [apply Hc; by destruct healthy_empty_file_volume|].
  split; [|by rewrite Hv].
  destruct Hok as [_ ->]; [apply Hc; by destruct healthy_empty_file_volume|done].
Defined.

(** On a card that answers every command, [fat32_set_fat_entry cluster value]
    returns [MIMIC_OK] and leaves the cache clean, so the entry is on the
    card; [fat32_get_fat_entry] then returns the low 28 bits of [value] for
    that cluster and what it returned before for every cluster with another
    byte offset in the table; the four reserved bits of the entry are kept,
    no sector but the FAT sector of the cluster changes, and no file handle
    does. *)
Theorem fat_entry_set_then_get (c v : Z) (s : State) :
  healthy s ->
  let r := fat32_set_fat_entry c v s in
  let fs := fat_sector_of (vol s) c in
  r.1 = MIMIC_OK
  /\ healthy r.2
  /\ vol_cache_dirty (vol r.2) = false
  /\ (fat32_get_fat_entry c r.2).1 = Z.land v 0x0FFFFFFF
  /\ (forall c', u32 (c' * 4) <> u32 (c * 4) ->
        (fat32_get_fat_entry c' r.2).1 = (fat32_get_fat_entry c' s).1)
  /\ Z.land (Loader.le32_at (view r.2 fs) (fat_offset_of c)) 0xF0000000
     = Z.land (Loader.le32_at (view s fs) (fat_offset_of c)) 0xF0000000
  /\ (forall m, m <> fs -> view r.2 m = view s m)
  /\ files r.2 = files s.
Proof.
  intros Hh r fs.
  destruct (fat32_set_fat_entry_entries c v s Hh)
    as (s' & Hr & Hh' & Hsame & He & Hf & Hv & Hd & Hhigh).
  unfold r. rewrite Hr. cbn [fst snd]. split_all; try done.
  - by destruct (fat32_get_fat_entry_healthy c s' Hh') as (? & -> & _).
  - intros c' Hne.
    destruct (fat32_get_fat_entry_healthy c' s' Hh') as (? & -> & _).
    destruct (fat32_get_fat_entry_healthy c' s Hh) as (? & -> & _).
    by apply Hf.
  - by destruct Hsame.
Qed.

Lemma fat_entry_set_then_get_witness :
  let r := fat32_set_fat_entry 5 0xF0000007 empty_file_volume in
  r.1 = MIMIC_OK
  /\ (fat32_get_fat_entry 5 r.2).1 = 7
  /\ (fat32_get_fat_entry 2 r.2).1 = 0x0FFFFFFF.
Proof.
  destruct (fat_entry_set_then_get 5 0xF0000007 empty_file_volume healthy_empty_file_volume)
    as (Hr & _ & _ & He & Hf & _).
  cbv zeta. split; [exact Hr|]. split; [exact He|].
  rewrite Hf by (vm_compute; discriminate). reflexivity.
Defined.

(** On a card that answers every command, [fat32_alloc_cluster] returns the
    lowest cluster from 2 up to [total_clusters + 1] whose FAT entry reads
    free, and marks that entry end-of-chain: the entries of the other
    clusters read as before and only the FAT sector of the cluster changes.
    It returns 0, with every sector as before, exactly when no entry in that
    range reads free. *)
Theorem alloc_cluster_takes_first_free (s : State) :
  healthy s ->
  let r := fat32_alloc_cluster s in
  let top := u32 (vol_total_clusters (vol s) + 2) in
  let entry s c := (fat32_get_fat_entry c s).1 in
  healthy r.2 /\ files r.2 = files s
  /\ ((r.1 = 0
       /\ (forall c, 2 <= c < top -> entry s c <> FAT32_FREE)
       /\ forall m, view r.2 m = view s m)
      \/ (2 <= r.1 < top
          /\ entry s r.1 = FAT32_FREE
          /\ (forall c, 2 <= c < r.1 -> entry s c <> FAT32_FREE)
          /\ entry r.2 r.1 = FAT32_EOC
          /\ (forall c, u32 (c * 4) <> u32 (r.1 * 4) -> entry r.2 c = entry s c)
          /\ forall m, m <> fat_sector_of (vol s) r.1 -> view r.2 m = view s m)).
Proof.
  intros Hh r top entry.
  destruct (fat32_alloc_cluster_scan s Hh) as (c & s' & Hr & Hh' & Hsame & Hcases).
  unfold r. rewrite Hr. cbn [fst snd].
  assert (forall x, entry s x = fat_entry s x) as Hes
    by (intros x; unfold entry; by destruct (fat32_get_fat_entry_healthy x s Hh) as (? & -> & _)).
  assert (forall x, entry s' x = fat_entry s' x) as Hes'
    by (intros x; unfold entry; by destruct (fat32_get_fat_entry_healthy x s' Hh') as (? & -> & _)).
  split; [done|]. split; [by destruct Hsame|].
  destruct Hcases as [(-> & Hv & Hnone)|(Hc & Hfr & Hbefore & He & Hf & Hv)]; [left|right].
  - split_all; [done| |done]. intros x Hx. rewrite Hes. by apply Hnone.
  - split; [exact Hc|]. split_all.
    + by rewrite Hes.
    + intros x Hx. rewrite Hes. by apply Hbefore.
    + by rewrite Hes'.
    + intros x Hx. rewrite Hes', Hes. by apply Hf.
    + done.
Qed.

Lemma alloc_cluster_takes_first_free_witness :
  let r := fat32_alloc_cluster empty_file_volume in
  r.1 = 3 /\ (fat32_get_fat_entry 3 r.2).1 = FAT32_EOC.
Proof.
  destruct (alloc_cluster_takes_first_free empty_file_volume healthy_empty_file_volume)
    as (_ & _ & [(H0 & _)|(_ & _ & _ & He & _)]).
  - vm_compute in H0. discriminate.
  - cbv zeta. split; [vm_compute; reflexivity|].
    assert ((fat32_alloc_cluster empty_file_volume).1 = 3) as H3 by (vm_compute; reflexivity).
    by rewrite H3 in He.
Defined.

End FatGuarantees.

(** ** FAT32: 8.3 names *)

Section ShortNames.

Import Fat32.

Lemma upper_idem c : upper (upper c) = upper c.
Proof.
  unfold upper. destruct ((97 <=? c) && (c <=? 122)) eqn:E; [|by rewrite E].
  apply andb_true_iff in E as [?%Z.leb_le ?%Z.leb_le].
  destruct (Z.leb_spec 97 (c - 32)); [lia|done].
Qed.

Lemma upper_dot c : (upper c =? 46) = (c =? 46).
Proof.
  unfold upper. destruct ((97 <=? c) && (c <=? 122)) eqn:E; [|done].
  apply andb_true_iff in E as [?%Z.leb_le ?%Z.leb_le].
  destruct (Z.eqb_spec (c - 32) 46), (Z.eqb_spec c 46); lia.
Qed.

Lemma map_upper_idem cs : map upper (map upper cs) = map upper cs.
Proof. induction cs as [|c cs IH]; [done|]. cbn [map]. by rewrite upper_idem, IH. Qed.

Lemma stem_length_upper str : forall j, stem_length (map upper str) j = stem_length str j.
Proof.
  induction str as [|c rest IH]; intros [|j]; try done.
  cbn [map stem_length]. rewrite upper_dot. by rewrite IH.
Qed.

Lemma stem_length_le str : forall j, (stem_length str j <= j)%nat.
Proof.
  induction str as [|c rest IH]; intros [|j]; cbn [stem_length]; try lia.
  destruct (c =? 46); [lia|]. specialize (IH j). lia.
Qed.

Lemma stem_length_app stem rest : forall j,
  Forall (fun c => c <> 46) stem -> (length stem <= j)%nat ->
  (match rest with c :: _ => c = 46 \/ length stem = j | [] => True end) ->
  stem_length (stem ++ rest) j = length stem.
Proof.
  induction stem as [|c stem IH]; intros j Hnd Hlen Hrest.
  - cbn [app length]. destruct rest as [|c r], j as [|j]; try done.
    cbn [stem_length]. destruct Hrest as [->|Hj]; [done|done].
  - destruct j as [|j]; [simpl in Hlen; lia|]. cbn [app stem_length length].
    apply Forall_cons in Hnd as [Hc Hnd].
    destruct (Z.eqb_spec c 46); [done|]. f_equal. apply IH; [done|simpl in Hlen; lia|].
    destruct rest; [done|]. destruct Hrest; [by left|right; simpl in *; lia].
Qed.

Lemma length_pad n cs : (length cs <= n)%nat -> length (pad n cs) = n.
Proof. intros. unfold pad. rewrite length_app, length_replicate. lia. Qed.

(** [fat32_str_to_name] always yields a name of 8 and an extension of 3
    characters, and does not tell letter case apart.  For [stem.e] with a
    stem of at most 8 characters it is the padded upper-case stem and the
    first three characters after the first dot, further dots included.  A
    stem longer than 8 characters is not cut off at the dot: the extension
    is read from its ninth character on. *)
Theorem str_to_name_is_8_3 (str : list Z) :
  let r := fat32_str_to_name str in
  length r.1 = 8%nat /\ length r.2 = 3%nat
  /\ fat32_str_to_name (map upper str) = r
  /\ (forall stem e, str = stem ++ 46 :: e -> Forall (fun c => c <> 46) stem ->
        (length stem <= 8)%nat ->
        r = (pad 8 (map upper stem), pad 3 (map upper (take 3 e))))
  /\ (forall stem c rest, str = stem ++ c :: rest -> Forall (fun c => c <> 46) stem ->
        length stem = 8%nat -> c <> 46 ->
        r = (map upper stem, pad 3 (map upper (take 3 (c :: rest))))).
Proof.
  cbv zeta. split_all.
  - unfold fat32_str_to_name. cbn [fst]. apply length_pad.
    rewrite length_map, length_take. pose proof (stem_length_le str 8). lia.
  - unfold fat32_str_to_name. cbn [snd]. apply length_pad.
    rewrite length_map, length_take. lia.
  - unfold fat32_str_to_name. rewrite stem_length_upper.
    rewrite firstn_map, skipn_map, map_upper_idem. f_equal.
    destruct (drop (stem_length str 8) str) as [|c r]; [done|].
    cbn [map]. rewrite upper_dot. destruct (c =? 46).
    + by rewrite firstn_map, map_upper_idem.
    + change (upper c :: map upper r) with (map upper (c :: r)).
      by rewrite firstn_map, map_upper_idem.
  - intros stem e -> Hnd Hlen. unfold fat32_str_to_name.
    rewrite stem_length_app by (try done; by left).
    rewrite take_app_length, drop_app_length. by rewrite Z.eqb_refl.
  - intros stem c rest -> Hnd Hlen Hc. unfold fat32_str_to_name.
    rewrite stem_length_app by (try done; try lia; by right).
    rewrite take_app_length, drop_app_length.
    destruct (Z.eqb_spec c 46); [done|]. f_equal.
    unfold pad. rewrite length_map, Hlen. cbn [Nat.sub replicate]. by rewrite app_nil_r.
Qed.

End ShortNames.

(** ** FAT32: a whole sector written through the cache *)

Section WholeSector.

Import Fat32.

Lemma fwrite_loop_done n fd inp bw :
  Z.of_nat (length inp) <= bw ->
  fwrite_loop n fd inp bw = (fat32_flush_cache ;; ret (s32 bw)).
Proof.
  intros Hbw. destruct n; cbn [fwrite_loop];
    destruct (Z.ltb_spec bw (Z.of_nat (length inp))); (lia || reflexivity).
Qed.

Lemma handle_update fd g s j :
  (fd < length (files s))%nat ->
  handle (update_handle fd g s).2 j = if decide (j = fd) then g (handle s fd) else handle s j.
Proof.
  intros Hfd. unfold update_handle, modify, handle. cbn [snd files set_files].
  destruct (decide (j = fd)) as [->|Hne].
  - by rewrite list_lookup_insert_eq.
  - by rewrite list_lookup_insert_ne.
Qed.

Lemma buf_write_whole buf inp :
  length buf = 512%nat -> length inp = 512%nat ->
  buf_write buf 0 (take 512 (drop 0 inp)) = inp.
Proof.
  intros Hb Hi. unfold buf_write. cbn [take app]. rewrite drop_0.
  rewrite (take_ge inp) by lia. rewrite drop_ge by lia. by rewrite app_nil_r.
Qed.

Lemma need_cluster_valid fd s :
  0 < fh_current_cluster (handle s fd) < FAT32_EOC -> need_cluster fd s = (true, s).
Proof.
  intros Hc. unfold need_cluster, bind, get, ret.
  destruct (Z.eqb_spec (fh_current_cluster (handle s fd)) 0); [lia|].
  destruct (Z.leb_spec FAT32_EOC (fh_current_cluster (handle s fd))); [lia|done].
Qed.

Lemma next_cluster_inside fd bw s :
  fh_cluster_offset (handle s fd) < vol_bytes_per_cluster (vol s) ->
  next_cluster fd bw s = (None, s).
Proof.
  intros Hc. unfold next_cluster, bind, get, ret.
  by destruct (Z.leb_spec (vol_bytes_per_cluster (vol s)) (fh_cluster_offset (handle s fd)));
    [lia|].
Qed.

Lemma whole_sector_pass n fd inp s :
  let f := handle s fd in
  let cached := vol_cached_sector (vol s) in
  card_ok s -> well_sized s ->
  (fd < length (files s))%nat ->
  0 < fh_current_cluster f < FAT32_EOC ->
  0 <= fh_cluster_offset f -> fh_cluster_offset f mod 512 = 0 ->
  fh_cluster_offset f + 512 < vol_bytes_per_cluster (vol s) < 2 ^ 32 ->
  length inp = 512%nat ->
  exists s', fwrite_loop (S n) fd inp 0 s = (512, s')
    /\ sector_data s' cached = inp
    /\ (forall m, m <> cached -> sector_data s' m = sector_data s m)
    /\ vol_cache_dirty (vol s') = false
    /\ vol_cached_sector (vol s') = cached
    /\ fh_position (handle s' fd) = u32 (fh_position f + 512)
    /\ fh_cluster_offset (handle s' fd) = fh_cluster_offset f + 512
    /\ fh_current_cluster (handle s' fd) = fh_current_cluster f
    /\ fh_file_size (handle s' fd) = Z.max (fh_file_size f) (u32 (fh_position f + 512))
    /\ (forall j, j <> fd -> handle s' j = handle s j).
Proof.
  intros f cached Hcard Hws Hfd Hcur Hoff0 Hoffm Hbpc Hinp.
  cbn [fwrite_loop]. rewrite Hinp. change (negb (0 <? Z.of_nat 512)) with false. cbv iota.
  unfold bind at 1. rewrite need_cluster_valid by done. cbn [negb].
  unfold bind at 1. unfold get at 1. fold f. rewrite Hoffm.
  change (negb (0 =? 0) || (Z.of_nat 512 - 0 <? 512)) with false. cbv iota.
  unfold bind at 1. unfold ret at 1. change (negb (MIMIC_OK =? MIMIC_OK)) with false. cbv iota.
  change (Z.min (Z.of_nat 512 - 0) (512 - 0)) with 512.
  unfold bind at 1. unfold get at 1.
  change (Z.to_nat 0) with 0%nat. change (Z.to_nat 512) with 512%nat.
  rewrite buf_write_whole by (done || apply Hws).
  match goal with |- context [update_handle fd ?h] => set (g := h) end.
  unfold bind at 1. unfold set_sector_buf, modify at 1.
  unfold bind at 1. unfold fat32_cache_dirty, modify at 1.
  cbn [vol set_vol set_cache vol_cached_sector vol_sector_buf vol_cache_dirty].
  fold cached.
  set (s2 := set_vol _ (set_vol _ s)).
  unfold bind at 1.
  destruct (update_handle fd g s2) as [[] s3] eqn:Hup.
  assert (forall j, handle s3 j = if decide (j = fd) then g f else handle s j) as Hh3.
  { intros j. pose proof (handle_update fd g s2 j Hfd) as H. by rewrite Hup in H. }
  assert (vol s3 = vol s2) as Hv3.
  { unfold update_handle, modify in Hup. by injection Hup as <-. }
  assert (sd_sectors s3 = sd_sectors s /\ sd_bad s3 = sd_bad s) as [Hsd3 Hbad3].
  { unfold update_handle, modify in Hup. by injection Hup as <-. }
  assert (fh_cluster_offset (g f) = fh_cluster_offset f + 512) as Hgo.
  { unfold g. destruct (_ <? _); cbn; rewrite u32_small; lia. }
  unfold bind at 1. rewrite next_cluster_inside.
  2:{ rewrite Hh3, decide_True by done. rewrite Hgo, Hv3. subst s2. cbn. lia. }
  rewrite fwrite_loop_done by (rewrite Hinp; lia).
  unfold bind at 1.
  assert (vol_cache_dirty (vol s3) = true /\ vol_cached_sector (vol s3) = cached
          /\ vol_sector_buf (vol s3) = inp /\ vol_initialized (vol s3) = true)
    as (Hd3 & Hc3 & Hb3 & Hi3).
  { rewrite Hv3. subst s2. cbn. split_all; try done. apply Hcard. }
  destruct (fat32_flush_cache_cases s3) as [[Hd _]|[(_ & Hx & _)|(_ & _ & _ & ->)]].
  { congruence. }
  { destruct Hx as [Hx|Hx]; [congruence|]. rewrite Hbad3 in Hx.
    destruct Hcard as [_ Hb]. by rewrite Hb in Hx. }
  rewrite Hc3, Hb3. eexists. split; [reflexivity|].
  assert (forall j, handle (set_vol (set_cache cached inp false (vol s3))
                              (set_sd_sectors (<[cached := inp]> (sd_sectors s3)) s3)) j
                    = handle s3 j) as Hh by done.
  split_all.
  - change (sector_data (set_vol _ ?x) ?m) with (sector_data x m).
    by rewrite sector_data_insert, Z.eqb_refl.
  - intros m Hm. change (sector_data (set_vol _ ?x) ?m) with (sector_data x m).
    rewrite sector_data_insert.
    destruct (Z.eqb_spec cached m) as [|_]; [congruence|].
    unfold sector_data. by rewrite Hsd3.
  - done.
  - done.
  - rewrite Hh, Hh3, decide_True by done. unfold g. by destruct (_ <? _).
  - rewrite Hh, Hh3, decide_True by done. exact Hgo.
  - rewrite Hh, Hh3, decide_True by done. unfold g. by destruct (_ <? _).
  - rewrite Hh, Hh3, decide_True by done. unfold g.
    cbn [fh_file_size set_fh_current set_fh_position].
    destruct (Z.ltb_spec (fh_file_size f) (u32 (fh_position f + 512)));
      cbn [fh_file_size set_fh_file_size set_fh_current set_fh_position]; lia.
  - intros j Hj. by rewrite Hh, Hh3, decide_False.
Qed.

End WholeSector.

(** [mimic_fwrite] of one whole sector at a sector boundary inside the
    current cluster copies the 512 bytes into the cache buffer without
    [fat32_read_sector], so [cached_sector] still names the sector the cache
    held before the call, and the flush that ends the call writes the data
    there: on a card that answers every command the call returns 512, the
    sector the cache named holds the data, every other sector of the card is
    as before (the sector the handle points at among them, unless the cache
    happened to name it), and the handle has moved on by 512 bytes. *)
Theorem whole_sector_write_goes_to_cached_sector
    (fd : nat) (inp : list Z) (s : Fat32.State) :
  let f := Fat32.handle s fd in
  let cached := Fat32.vol_cached_sector (Fat32.vol s) in
  let target := u32 (Fat32.fat32_cluster_to_sector (Fat32.vol s) (Fat32.fh_current_cluster f)
                     + Fat32.fh_cluster_offset f / 512) in
  Fat32.card_ok s -> Fat32.well_sized s ->
  length (Fat32.files s) = Fat32.MIMIC_MAX_FILES -> (fd < Fat32.MIMIC_MAX_FILES)%nat ->
  Fat32.fh_open f = true -> Z.land (Fat32.fh_mode f) Fat32.MIMIC_FILE_WRITE <> 0 ->
  0 < Fat32.fh_current_cluster f < Fat32.FAT32_EOC ->
  0 <= Fat32.fh_cluster_offset f -> Fat32.fh_cluster_offset f mod 512 = 0 ->
  Fat32.fh_cluster_offset f + 512 < Fat32.vol_bytes_per_cluster (Fat32.vol s) < 2 ^ 32 ->
  length inp = 512%nat ->
  let r := Fat32.mimic_fwrite (Z.of_nat fd) inp s in
  r.1 = 512
  /\ Fat32.sector_data r.2 cached = inp
  /\ (forall m, m <> cached -> Fat32.sector_data r.2 m = Fat32.sector_data s m)
  /\ (target <> cached -> Fat32.sector_data r.2 target = Fat32.sector_data s target)
  /\ Fat32.vol_cache_dirty (Fat32.vol r.2) = false
  /\ Fat32.vol_cached_sector (Fat32.vol r.2) = cached
  /\ Fat32.fh_position (Fat32.handle r.2 fd) = u32 (Fat32.fh_position f + 512)
  /\ Fat32.fh_cluster_offset (Fat32.handle r.2 fd) = Fat32.fh_cluster_offset f + 512
  /\ Fat32.fh_current_cluster (Fat32.handle r.2 fd) = Fat32.fh_current_cluster f
  /\ Fat32.fh_file_size (Fat32.handle r.2 fd)
     = Z.max (Fat32.fh_file_size f) (u32 (Fat32.fh_position f + 512))
  /\ (forall j, j <> fd -> Fat32.handle r.2 j = Fat32.handle s j).
Proof.
  intros f cached target Hcard Hws Hlen Hfd Hopen Hmode Hcur Hoff0 Hoffm Hbpc Hinp r.
  assert (fd < length (Fat32.files s))%nat as Hfd' by (rewrite Hlen; exact Hfd).
  destruct (whole_sector_pass 511 fd inp s Hcard Hws Hfd' Hcur Hoff0 Hoffm Hbpc Hinp)
    as (s' & Hr & Hdata & Hother & Hd & Hc & Hpos & Hoff & Hcl & Hsz & Hj).
  assert (r = (512, s')) as ->.
  { unfold r, Fat32.mimic_fwrite. unfold Fat32.bind at 1. unfold Fat32.get at 1.
    assert (Fat32.fd_in_range (Z.of_nat fd) = true) as ->.
    { unfold Fat32.fd_in_range, Fat32.MIMIC_MAX_FILES in *.
      destruct (Z.ltb_spec (Z.of_nat fd) 0), (Z.leb_spec (Z.of_nat 8) (Z.of_nat fd));
        (lia || reflexivity). }
    cbn [negb]. rewrite Nat2Z.id. fold f. rewrite Hopen. cbn [negb].
    destruct (Z.eqb_spec (Z.land (Fat32.fh_mode f) Fat32.MIMIC_FILE_WRITE) 0); [done|].
    rewrite Hinp. exact Hr. }
  cbn [fst snd]. split_all; try done. intros Ht. by apply Hother.
Qed.

Lemma whole_sector_write_goes_to_cached_sector_witness :
  let s := Fat32.open_file_volume in
  let r := Fat32.mimic_fwrite 0 Fat32.whole_sector s in
  r.1 = 512
  /\ Fat32.sector_data r.2 32 = Fat32.whole_sector
  /\ Fat32.sector_data r.2 35 = Fat32.sector_data s 35
  /\ Fat32.fh_position (Fat32.handle r.2 0) = 512.
Proof.
  destruct (whole_sector_write_goes_to_cached_sector 0 Fat32.whole_sector
              Fat32.open_file_volume) as (Hr & Hdata & Hother & _ & _ & _ & Hpos & _).
  - split; [reflexivity|]. intros n. reflexivity.
  - split; [reflexivity|]. intros n sec. cbn [Fat32.open_file_volume Fat32.sd_sectors].
    intros [[_ <-]|[_ H]]%lookup_insert_Some; done.
  - reflexivity.
  - unfold Fat32.MIMIC_MAX_FILES. lia.
  - reflexivity.
  - vm_compute. discriminate.
  - vm_compute. split; reflexivity.
  - vm_compute. discriminate.
  - reflexivity.
  - vm_compute. split; reflexivity.
  - reflexivity.
  - cbv zeta. split; [exact Hr|]. split; [exact Hdata|]. split; [|exact Hpos].
    apply Hother. vm_compute. discriminate.
Defined.

(** The same on a volume of one-sector clusters, from [mimic_fopen] to
    [mimic_fclose], for the empty file [OUT.TXT]: the cluster is allocated
    first, so the cache names the FAT sector 32 when the 512 bytes are copied
    into it.  The flush puts the data there and the data sector of the
    allocated cluster 3 stays as it was; with one sector per cluster the
    write also ends the cluster, and the handle's next cluster is read from
    the buffer, that is from the data. *)
Example whole_sector_write_on_empty_file :
  let r := Fat32.write_and_close Fat32.out_path Fat32.whole_sector Fat32.empty_file_volume in
  (fst <$> r.1) = Some (0, 512, MIMIC_OK)
  /\ (Fat32.fh_first_cluster <$> (snd <$> r.1)) = Some 3
  /\ (Fat32.fh_current_cluster <$> (snd <$> r.1)) = Some 0x07070707
  /\ Fat32.fat_sector_of Fat32.mounted_vol 3 = 32
  /\ Fat32.fat32_cluster_to_sector Fat32.mounted_vol 3 = 34
  /\ Fat32.sector_data r.2 32 = Fat32.whole_sector
  /\ Fat32.sector_data r.2 34 = Fat32.sector_data Fat32.empty_file_volume 34.
Proof. vm_compute. repeat split; reflexivity. Qed.
